(** * train_exp.ipynb: a shallow embedding of the notebook and its properties

    The notebook is glue code over external libraries (torch, diffusers,
    accelerate, datasets, tqdm).  Its own code is embedded as computations in
    a state-and-exception monad over the Python name spaces; every operation
    whose meaning belongs to a library or to an object a library owns is a
    request to an abstract [world], which answers with a value or raises. *)

From Stdlib Require Import ZArith Lia Ascii String.
From stdpp Require Import base strings gmap list pretty.

Open Scope Z_scope.
Set Warnings "-register-all".
Set Default Proof Using "Type".

(** ** Python values

    Scalars, tuples, lists and string-keyed dicts are interpreted.  A [VLib]
    is a name reached through an import ([torch], [torch.randn]); a [VExt] is
    an object handed out by a library (a tensor, the model, the accelerator);
    a [VInst] is an instance of the notebook's own class [TrainingConfig],
    stored in the heap; a [VFun] is a function defined by a [def] of the
    notebook. *)
Inductive value : Type :=
| VNone
| VBool (b : bool)
| VInt (z : Z)
| VFloat (lit : string)
| VStr (s : string)
| VTuple (vs : list value)
| VList (vs : list value)
| VDict (kvs : list (string * value))
| VSlice (lo hi : option Z)
| VFun (name : string)
| VInst (l : nat)
| VLib (path : string)
| VExt (h : nat).

Inductive exn : Type :=
| NameError (name : string)
| UnboundLocalError (name : string)
| AttributeError (attr : string)
| TypeError (what : string)
| ValueError (what : string)
| IndexError
| KeyError (key : string)
| ZeroDivisionError
| SyntaxError
| LibError (what : string).

(** Requests to the world: everything the notebook asks of Python's runtime
    library or of an external package. *)
Inductive request : Type :=
| RShell (cmd : string)
| RImport (module : string) (name : option string)
| RGetAttr (obj : value) (attr : string)
| RGetItem (obj key : value)
| RCall (callee : value) (args : list value) (kwargs : list (string * value))
| RMethod (recv : value) (meth : string) (bound : value)
    (args : list value) (kwargs : list (string * value))
| RBinOp (op : string) (a b : value)
| RTruth (v : value)
| RIter (v : value)
| RFormat (v : value) (spec : string)
| REnter (cm : value)
| RExit (cm : value) (exc : option exn).

Inductive reply : Type :=
| Ret (v : value)
| Raise (e : exn).

Definition event : Type := request * reply.

(** The world answers a request knowing everything that happened before. *)
Definition world : Type := list event → request → reply.

(** ** Interpreter state *)
Record state : Type := mkState {
  locals : gmap string value;              (* frame of the running function *)
  globals : gmap string value;             (* the notebook's module name space *)
  heap : gmap nat (gmap string value);     (* attributes of TrainingConfig instances *)
  hist : list event                        (* requests so far, oldest first *)
}.

Definition set_locals (f : gmap string value → gmap string value) (s : state) : state :=
  mkState (f (locals s)) (globals s) (heap s) (hist s).
Definition set_globals (f : gmap string value → gmap string value) (s : state) : state :=
  mkState (locals s) (f (globals s)) (heap s) (hist s).
Definition set_heap (f : gmap nat (gmap string value) → gmap nat (gmap string value))
    (s : state) : state :=
  mkState (locals s) (globals s) (f (heap s)) (hist s).
Definition log (ev : event) (s : state) : state :=
  mkState (locals s) (globals s) (heap s) (hist s ++ [ev]).

Inductive outcome (A : Type) : Type :=
| Ok (a : A)
| Exc (e : exn).
Arguments Ok {A} a.
Arguments Exc {A} e.

Definition M (A : Type) : Type := state → outcome A * state.

Definition ret {A} (a : A) : M A := λ s, (Ok a, s).
Definition raise {A} (e : exn) : M A := λ s, (Exc e, s).
Definition bind {A B} (m : M A) (k : A → M B) : M B :=
  λ s, match m s with
       | (Ok a, s') => k a s'
       | (Exc e, s') => (Exc e, s')
       end.

#[global] Instance M_ret : MRet M := @ret.
#[global] Instance M_bind : MBind M := λ A B k m, bind m k.

Fixpoint mapM {A B} (f : A → M B) (l : list A) : M (list B) :=
  match l with
  | [] => ret []
  | x :: l' => y ← f x; ys ← mapM f l'; ret (y :: ys)
  end.

Fixpoint for_each {A} (l : list A) (body : A → M unit) : M unit :=
  match l with
  | [] => ret tt
  | x :: l' => body x;; for_each l' body
  end.

(** ** Pure helpers *)

(** posixpath.join for two components. *)
Definition ends_with_slash (a : string) : bool :=
  match last (String.list_ascii_of_string a) with
  | Some c => Ascii.eqb c "/"%char
  | None => false
  end.

Definition posix_join (a b : string) : string :=
  if String.prefix "/" b then b
  else if String.eqb a "" || ends_with_slash a then a +:+ b
  else a +:+ "/" +:+ b.

(** format(z, '04d'): sign-aware zero padding to width four. *)
Fixpoint zeros (n : nat) : string :=
  match n with O => "" | S n' => "0" +:+ zeros n' end.

Definition pad0 (width : nat) (digits : string) : string :=
  zeros (width - String.length digits)%nat +:+ digits.

Definition format_04d (z : Z) : string :=
  if z <? 0 then "-" +:+ pad0 3 (pretty (- z)) else pad0 4 (pretty z).

Definition builtins : list string :=
  ["range"; "enumerate"; "len"; "print"; "sorted"; "list"; "dict"; "tuple";
   "int"; "float"; "str"; "bool"; "isinstance"; "getattr"; "setattr"; "iter";
   "next"; "zip"; "map"; "filter"; "min"; "max"; "sum"; "abs"; "open";
   "format"; "repr"; "type"; "id"; "hash"; "any"; "all"; "round"].

Definition is_lib (f : value) (path : string) : bool :=
  match f with
  | VLib p => String.eqb p path
  | _ => false
  end.

Definition range_list (n : Z) : list Z := Z.of_nat <$> seq 0 (Z.to_nat n).

Definition enumerate_list (vs : list value) : list (Z * value) :=
  zip (Z.of_nat <$> seq 0 (length vs)) vs.

(** Python sequence indexing, negative indices counting from the end. *)
Definition py_index (vs : list value) (i : Z) : option value :=
  if i <? 0 then
    (if - i <=? Z.of_nat (length vs) then vs !! Z.to_nat (Z.of_nat (length vs) + i) else None)
  else vs !! Z.to_nat i.

Fixpoint assoc (k : string) (kvs : list (string * value)) : option value :=
  match kvs with
  | [] => None
  | (k', v) :: kvs' => if String.eqb k k' then Some v else assoc k kvs'
  end.

(** ** What Python's parser rejects

    The cells are source text; Python compiles a cell as a whole before it
    runs any of it.  [syntax_error] tokenises a cell the way Python's
    tokenizer does (names, numbers, string literals, operators, comments,
    logical line ends) and reports three violations of the grammar, each of
    which makes CPython raise SyntaxError:
    - a bracket that is never closed, or closed by the wrong bracket;
    - a binary operator whose right operand is missing;
    - inside brackets, a closing bracket directly followed by an identifier.
    It reports nothing else, so a [false] does not mean the cell is valid. *)
Module PySyntax.

Inductive token : Type :=
| TName (s : string)
| TNum
| TStr
| TOp (s : string)
| TNewline.

Inductive mode : Type :=
| Normal
| InName (acc : string)
| InNum (prev : ascii)
| InStr (quote : ascii) (escaped : bool)
| InComment
| InOp (acc : string)
| Continued.

Definition code (c : ascii) : nat := nat_of_ascii c.

Definition is_digit (c : ascii) : bool := (48 <=? code c)%nat && (code c <=? 57)%nat.
Definition is_letter (c : ascii) : bool :=
  ((65 <=? code c)%nat && (code c <=? 90)%nat)
  || ((97 <=? code c)%nat && (code c <=? 122)%nat)
  || (code c =? 95)%nat.
Definition is_quote (c : ascii) : bool := (code c =? 34)%nat || (code c =? 39)%nat.
Definition is_newline (c : ascii) : bool := (code c =? 10)%nat.
Definition is_blank (c : ascii) : bool :=
  (code c =? 32)%nat || (code c =? 9)%nat || (code c =? 13)%nat.
Definition is_backslash (c : ascii) : bool := (code c =? 92)%nat.

Definition str1 (c : ascii) : string := String c EmptyString.
Definition snoc (s : string) (c : ascii) : string := s +:+ str1 c.

Definition long_operators : list string :=
  ["**"; "//"; "=="; "!="; "<="; ">="; "<<"; ">>"; "->"; ":="; "+="; "-="; "*=";
   "/="; "%="; "&="; "|="; "^="; "@="; "**="; "//="; "<<="; ">>="].

Definition starts_operator (c : ascii) : bool :=
  bool_decide (str1 c ∈ ["*"; "/"; "="; "!"; "<"; ">"; "-"; ":"; "+"; "%"; "&"; "|";
                         "^"; "@"]).

(** The tokenizer is a left-to-right automaton: [start] reads a character
    with no token in progress, [step] reads one in any mode. *)
Definition start (c : ascii) (toks : list token) : mode * list token :=
  if is_blank c then (Normal, toks)
  else if is_newline c then (Normal, TNewline :: toks)
  else if is_backslash c then (Continued, toks)
  else if (code c =? 35)%nat then (InComment, toks)
  else if is_quote c then (InStr c false, toks)
  else if is_letter c then (InName (str1 c), toks)
  else if is_digit c then (InNum c, toks)
  else if starts_operator c then (InOp (str1 c), toks)
  else (Normal, TOp (str1 c) :: toks).

Definition step (st : mode * list token) (c : ascii) : mode * list token :=
  let '(m, toks) := st in
  match m with
  | Normal => start c toks
  | InName acc =>
      if is_letter c || is_digit c then (InName (snoc acc c), toks)
      else start c (TName acc :: toks)
  | InNum prev =>
      if is_letter c || is_digit c || (code c =? 46)%nat then (InNum c, toks)
      else if ((code prev =? 101)%nat || (code prev =? 69)%nat)
              && ((code c =? 43)%nat || (code c =? 45)%nat) then (InNum c, toks)
      else start c (TNum :: toks)
  | InStr q escaped =>
      if escaped then (InStr q false, toks)
      else if is_backslash c then (InStr q true, toks)
      else if Ascii.eqb c q then (Normal, TStr :: toks)
      else (InStr q false, toks)
  | InComment =>
      if is_newline c then (Normal, TNewline :: toks) else (InComment, toks)
  | InOp acc =>
      if bool_decide (snoc acc c ∈ long_operators) then (InOp (snoc acc c), toks)
      else start c (TOp acc :: toks)
  | Continued =>
      if is_newline c then (Normal, toks) else start c toks
  end.

(** A cell ends with an end of line, which also ends a pending token. *)
Definition lex (text : string) : list token :=
  rev (fold_left step (list_ascii_of_string (text +:+ str1 (ascii_of_nat 10)))
         (Normal, [])).2.

Definition keywords : list string :=
  ["False"; "None"; "True"; "and"; "as"; "assert"; "async"; "await"; "break";
   "class"; "continue"; "def"; "del"; "elif"; "else"; "except"; "finally"; "for";
   "from"; "global"; "if"; "import"; "in"; "is"; "lambda"; "nonlocal"; "not"; "or";
   "pass"; "raise"; "return"; "try"; "while"; "with"; "yield"].

(** Operators that are binary only: they need an operand on their right. *)
Definition binary_only : list string :=
  ["/"; "//"; "%"; "<"; ">"; "<="; ">="; "=="; "!="; "|"; "^"; "&"; "<<"; ">>"].

Definition needs_operand (t : option token) : bool :=
  match t with
  | Some (TOp o) => bool_decide (o ∈ binary_only)
  | _ => false
  end.

Definition starts_operand (t : token) : bool :=
  match t with
  | TName s => bool_decide (s ∉ keywords) || bool_decide (s ∈ ["None"; "True"; "False"; "await"])
  | TNum | TStr => true
  | TOp o => bool_decide (o ∈ ["("; "["; "{"; "-"; "+"; "~"; "."])
  | TNewline => false
  end.

Definition is_closer (t : option token) : bool :=
  match t with
  | Some (TOp o) => bool_decide (o ∈ [")"; "]"; "}"])
  | _ => false
  end.

Definition is_identifier (t : token) : bool :=
  match t with
  | TName s => bool_decide (s ∉ keywords)
  | _ => false
  end.

Definition opener_of (closer : string) : string :=
  if String.eqb closer ")" then "(" else if String.eqb closer "]" then "[" else "{".

(** [check toks stack prev]: [stack] holds the brackets still open, [prev]
    the previous token of the logical line.  [true] reports an error. *)
Fixpoint check (toks : list token) (stack : list string) (prev : option token) : bool :=
  match toks with
  | [] => needs_operand prev || negb (bool_decide (stack = []))
  | TNewline :: rest =>
      match stack with
      | [] => needs_operand prev || check rest [] None
      | _ => check rest stack prev
      end
  | t :: rest =>
      (needs_operand prev && negb (starts_operand t))
      || (negb (bool_decide (stack = [])) && is_closer prev && is_identifier t)
      || match t with
         | TOp o =>
             if bool_decide (o ∈ ["("; "["; "{"]) then check rest (o :: stack) (Some t)
             else if bool_decide (o ∈ [")"; "]"; "}"]) then
               match stack with
               | top :: stack' =>
                   negb (String.eqb top (opener_of o)) || check rest stack' (Some t)
               | [] => true
               end
             else check rest stack (Some t)
         | _ => check rest stack (Some t)
         end
  end.

Definition text_of (lines : list string) : string :=
  String.concat (str1 (ascii_of_nat 10)) lines.

Definition syntax_error (lines : list string) : bool :=
  check (lex (text_of lines)) [] None.
End PySyntax.

(** ** The code cells of the notebook, as text, one string per line *)
Module Source.
(** The double-quote character of Python string literals. *)
Definition dq : string := String (ascii_of_nat 34) EmptyString.

Definition src_config : list string :=
  [ "from dataclasses import dataclasses";
    "";
    "@dataclasses";
    "class TrainingConfig: ";
    "    image_size = 128 # the genrated image resolution";
    "    train_batch_size = 16";
    "    eval_batch_size = 16 # how many images to sample during evaluation";
    "    num_epochs = 50";
    "    gradient_accumulation_steps = 1";
    "    learning_rate = 1e-4";
    "    lr_warmup_steps = 500";
    "    save_image_epochs = 10";
    "    save_model_epochs = 30";
    "    mixed_precision = 'fp16'   # 'no' for float32, 'fp16' for automatic mixed precision";
    "    output_dir = 'ddpm-butterflies-128'";
    "";
    "    push_to_hub = False   ";
    "    hub_model_id = '<your-username>'/<my-awesome-model>";
    "    hub_private_repo = None";
    "    overwrite_output_dir = True  # overwrite the old model when re-running the notebook";
    "    seed = 0";
    "";
    "config = TrainingConfig()" ].

Definition src_load_dataset : list string :=
  [ "from dataset import load_dataset";
    "config.dataset_name = " +:+ dq +:+ "huggan/smithsonian_butterflies_subset" +:+ dq;
    "dataset = load_dataset(config.dataset_name,split='train')";
    "" ].

Definition src_show_images : list string :=
  [ "import matplotlib.pyplot as plt";
    "";
    "fig, axs = plt.subplots(1, 4, figsize=(16, 4))";
    "for i, image in enumerate(dataset[:4][" +:+ dq +:+ "image" +:+ dq +:+ "]):";
    "    axs[i].imshow(image)";
    "    axs[i].set_axis_off()";
    "fig.show()" ].

Definition src_preprocess : list string :=
  [ "from torchvision import transforms";
    "preprocess = transforms.Compose([";
    "    transforms.Resize((config.image_size, config.image_size)),";
    "    transforms.RandomHorizontalFlip(),";
    "    transforms.ToTensor(),";
    "    transforms.Normalize([0.5],[0.5]),";
    "])" ].

Definition src_transform : list string :=
  [ "def transform(examples):";
    "    images = [preprocess(image.convert(" +:+ dq +:+ "RGB" +:+ dq +:+ ")) for image in examples[" +:+ dq +:+ "image" +:+ dq +:+ "]]";
    "    return {" +:+ dq +:+ "images" +:+ dq +:+ ": images}";
    "";
    "dataset.set_transform(transform)" ].

Definition src_dataloader : list string :=
  [ "import torch";
    "train_dataloader = torch.utils.data.DataLoader(dataset, batch_size=config.train_batch_size, shuffle=True)" ].

Definition src_model : list string :=
  [ "from diffusers import UNet2DModel";
    "";
    "model = UNet2DModel(";
    "    sample_size = config.sample_size,";
    "    in_channels = 3, ";
    "    out_channels = 3,";
    "    layers_per_block = 2, # how many ResNet layers to use per U-Net block";
    "    block_out_channels = (128, 128, 256, 256, 512, 512), # number of output channels in each U-Net block";
    "    down_block_types = (";
    "        'Downblock2D', ## a regular Resnet downsampling block.";
    "        'Downblock2D',";
    "        'Downblock2D',";
    "        'Downblock2D',";
    "        'AttnDownblock2D',";
    "        'Downblock2D',";
    "    )";
    "    up_block_types = (";
    "        'Upblock2D',";
    "        'AttnUpblock2D',";
    "        'Upblock2D',";
    "        'Upblock2D',";
    "        'Upblock2D',";
    "        'Upblock2D',";
    "    ),";
    ")" ].

Definition src_check_shapes : list string :=
  [ "sample_image = dataset[0]['images'].unsqueeze(0)";
    "print(" +:+ dq +:+ "Input shape:" +:+ dq +:+ ", sample_image.shape)";
    "";
    "print(" +:+ dq +:+ "Output shape:" +:+ dq +:+ "), model(sample_image, timestep=0).sample.shape" ].

Definition src_scheduler : list string :=
  [ "import torch";
    "";
    "from PIL import Image";
    "from diffusers import DDPMScheduler";
    "";
    "noise_scheduler = DDPMScheduler(num_train_timesteps=1000)";
    "noise = torch.randn(sample_image.shape)";
    "timesteps = torch.LongTensor([50])";
    "noisy_image = noise_scheduler.add_noise(sample_iamge,noise,timesteps)";
    "";
    "Image.fromarray(((noisy_image.permute(0, 2, 3, 1) + 1.0) * 127.5).type(torch.uint8).numpy()[0])" ].

Definition src_loss : list string :=
  [ "import torch.nn.functional as F";
    "";
    "noise_pred = model(noisy_image, timesteps).sample";
    "loss = F.mse_loss(noise_pred, noise)" ].

Definition src_optimizer : list string :=
  [ "from diffusers.optimization import get_cosine_schedule_with_warmup";
    "from torch.optim import AdamW";
    "";
    "optimizer = AdamW(model.parameters(), lr=config.learning_rate)";
    "lr_scheduler = get_cosine_schedule_with_warmup(";
    "    optimizer=optimizer, ";
    "    num_warmup_steps=config.lr_warmup_steps,";
    "    num_training_steps=(len(train_dataloader) * config.num_epochs)," ].

Definition src_evaluate : list string :=
  [ "from diffusers import DDPMPipeline";
    "from diffusers.util import make_image_grid";
    "import os";
    "";
    "def evaluate(config, epoch, pipeline):";
    "    ## sample some images from random noise (this is the backward diffusion process).";
    "    # The default pipeline output type is 'List[PIL.Image]'";
    "    images = pipeline(";
    "        batch_size=config.eval_batch_size,";
    "        generator=torch.Generator(device='cpu').manual_seed(config.seed), ## use a separate torch generator to avoid rewinding the random state of the main training loop";
    "    ).images";
    "";
    "    # make a grid out of the images";
    "    image_grid = make_image_grid(images, rows=4, cols=4)";
    "";
    "    # save the images";
    "    test_dir = os.path.join(config.output_dir, " +:+ dq +:+ "test_images" +:+ dq +:+ ")";
    "    os.makedirs(test_dir, exist_ok=True)";
    "    image_grid.save(f" +:+ dq +:+ "{test_dir}/{epoch:04d}.png" +:+ dq +:+ ")" ].

Definition src_train_loop : list string :=
  [ "from accelerate import Accelerator";
    "from tqdm.auto import tqdm";
    "from pathlib import Path";
    "import os";
    "";
    "def train_loop(config, model, noise_scheduler, optimizer, train_dataloader, lr_scheduler):";
    "    # initialize accelerator and tensorboard logging";
    "    accelerator = Accelerator(";
    "        mixed_precision=config.mixed_precision,";
    "        gradient_accumulation_steps=config.gradient_accumulation_steps,";
    "        log_with='tensorboard',";
    "        project_dir=os.path.join(config.output_dir, " +:+ dq +:+ "logs" +:+ dq +:+ "),";
    "    )";
    "";
    "    if accelerator.is_main_process:";
    "        if config.output_dir is not None:";
    "            os.makedirs(config.output_dir, exist_ok=True)";
    "            if config.push_to_hub:";
    "                repo_id = create_repo(";
    "                    repo_id=config.hub_model_id or Path(config.output_dir).name, exist_ok=True";
    "                    ).repo_id";
    "            accelerator.init_trackers('train_example')";
    "    ";
    "    model, optimizer, train_dataloader, lr_scheduler = accelerator.prepare(";
    "        model, optimizer, train_dataloader, lr_scheduler";
    "    )";
    "";
    "    global_step = 0";
    "";
    "    # Now you train the model";
    "    for epoch in range(config.num_epochs):";
    "        progress_bar = tqdm(total=len(train_dataloader), disable=not accelerator.is_local_main_process)";
    "        progress_bar.set_description(f" +:+ dq +:+ "Epoch {epoch}" +:+ dq +:+ ")";
    "";
    "        for step, batch in enumerate(train_dataloader):";
    "            clean_images = batch[" +:+ dq +:+ "images" +:+ dq +:+ "]";
    "            # sample noise to add to the image";
    "            noise = torch.randn(clean_images.shape, device=clean_images.device)";
    "            bs = clean_images.shape[0]";
    "        ";
    "            # sample a random timestep for each image";
    "            timesteps = torch.randint(0, noise_scheduler.num_timesteps, (bs,), device=clean_images.device,";
    "                                  dtype=torch.int64";
    "            )";
    "";
    "        # Add noise to the clean images according to the noise magnitude at each timestep ";
    "        # this is the forward diffusion process";
    "        noise_images = noise_scheduler.add_noise(clean_images, noise, timesteps)";
    "";
    "        with accelerator.accumulate(model):";
    "            # predict the noise schedule";
    "            noise_pred = model(noisy_images, timesteps, return_dict=False)[0]";
    "            loss = F.mse_loss(noise_pred, noise)";
    "            accelerator.backward(loss)";
    "";
    "            if accelerator.sync_gradients:";
    "                accelerator.clip_grad_norm_(model.parameters(), 1.0)";
    "            optimizer.step()";
    "            lr_scheduler.step()";
    "            optimizer.zero_grad()";
    "";
    "        progress_bar.update(1)";
    "        logs = {'loss': loss.detach().item(), 'lr':lr_scheduler.get_last_lr()[0], 'step': global_step}";
    "        progress_bar.set_postfix(**logs)";
    "        accelerator.log(logs, step=global_step)";
    "        global_step += 1";
    "";
    "    # After each epoch you optionally sample some demo images with evaluate() and save the model";
    "    if accelerator.is_main_process:";
    "        pipeline = DDPMPipeline(unet=accelerator.unwrap_model(model), scheduler=noise_scheduler)";
    "";
    "        if (epoch + 1) % config.save_model_epochs == 0 or epoch == config.num_epochs - 1:";
    "            if config.push_to_hub:";
    "                upload_folder(";
    "                    repo_id=repo_id,";
    "                    folder_path=config.output_dir,";
    "                    commit_message=f" +:+ dq +:+ "Epoch {epoch}" +:+ dq +:+ ",";
    "                    ignore_patterns=[" +:+ dq +:+ "step_*" +:+ dq +:+ "," +:+ dq +:+ "epoch_*" +:+ dq +:+ "],";
    "                )";
    "            else:";
    "                pipeline.save_pretrained(config.output_dir)";
    "                ";
    "" ].

Definition src_launch : list string :=
  [ "from accelerate import notebook_launcher";
    "args = (config, model, noise_scheduler, optimizer, train_dataloader, lr_scheduler)";
    "notebook_launcher(train_loop, args, num_processes=1)" ].

Definition src_show_result : list string :=
  [ "import glob";
    "";
    "sampel_images = sorted(glob.glob(f" +:+ dq +:+ "{config.output_dir}/samples/*.png" +:+ dq +:+ "))";
    "Image.open(sample_images[-1])" ].
End Source.

(** ** Cells

    A code cell carries its text and, when Python can parse it, what running
    it does; [None] marks a cell for which Python's parser has no parse. *)
Inductive cell : Type :=
| Markdown
| Shell (cmd : string)                       (* a line starting with an exclamation mark *)
| Code (src : list string) (sem : option (M unit)).

(** ** Semantics of the Python constructs the notebook uses *)
Section Semantics.
Variable W : world.

(** One request to the world, recorded in the history with its reply. *)
Definition ask (r : request) : M value := λ s,
  match W (hist s) r with
  | Ret v => (Ok v, log (r, Ret v) s)
  | Raise e => (Exc e, log (r, Raise e) s)
  end.

(** *** Names *)

(** A name that the enclosing function assigns somewhere is local to it. *)
Definition L (x : string) : M value := λ s,
  match locals s !! x with
  | Some v => (Ok v, s)
  | None => (Exc (UnboundLocalError x), s)
  end.

(** Any other name is looked up in the module name space, then in builtins. *)
Definition G (x : string) : M value := λ s,
  match globals s !! x with
  | Some v => (Ok v, s)
  | None =>
      if bool_decide (x ∈ builtins) then (Ok (VLib ("builtins." +:+ x)), s)
      else (Exc (NameError x), s)
  end.

Definition setL (x : string) (v : value) : M unit := λ s,
  (Ok tt, set_locals (insert x v) s).
Definition setG (x : string) (v : value) : M unit := λ s,
  (Ok tt, set_globals (insert x v) s).

(** *** Operations on values *)

Definition getattr (o : value) (a : string) : M value :=
  match o with
  | VLib p => ret (VLib (p +:+ "." +:+ a))
  | VInst l => λ s,
      match heap s !! l ≫= (λ d, d !! a) with
      | Some v => (Ok v, s)
      | None => (Exc (AttributeError a), s)
      end
  | _ => ask (RGetAttr o a)
  end.

Definition setattr (o : value) (a : string) (v : value) : M unit :=
  match o with
  | VInst l => λ s,
      (Ok tt, set_heap (λ h, <[l := <[a := v]> (default ∅ (h !! l))]> h) s)
  | _ => ask (RCall (VLib "builtins.setattr") [o; VStr a; v] []);; ret tt
  end.

Definition getitem (o k : value) : M value :=
  match o, k with
  | VTuple vs, VInt i | VList vs, VInt i =>
      match py_index vs i with
      | Some v => ret v
      | None => raise IndexError
      end
  | VDict kvs, VStr key =>
      match assoc key kvs with
      | Some v => ret v
      | None => raise (KeyError key)
      end
  | _, _ => ask (RGetItem o k)
  end.

(** f(args): a call of a value that is not written as a method call. *)
Definition call (f : value) (args : list value) (kw : list (string * value)) : M value :=
  ask (RCall f args kw).

(** o.m(args), once [o.m] has been looked up as [f].  [os.path.join] of
    two strings is computed; every other method belongs to a library. *)
Definition call_method (o : value) (m : string) (f : value) (args : list value)
    (kw : list (string * value)) : M value :=
  match args, kw with
  | [VStr a; VStr b], [] =>
      if is_lib f "os.path.join" then ret (VStr (posix_join a b))
      else ask (RMethod o m f args kw)
  | _, _ => ask (RMethod o m f args kw)
  end.

Definition truthy (v : value) : M bool :=
  match v with
  | VNone => ret false
  | VBool b => ret b
  | VInt z => ret (negb (z =? 0))
  | VStr s => ret (negb (String.eqb s ""))
  | VTuple vs | VList vs => ret (negb (bool_decide (length vs = 0%nat)))
  | VDict kvs => ret (negb (bool_decide (length kvs = 0%nat)))
  | VSlice _ _ | VFun _ | VInst _ | VLib _ => ret true
  | VFloat _ | VExt _ =>
      r ← ask (RTruth v);
      match r with
      | VBool b => ret b
      | _ => raise (TypeError "__bool__ should return bool")
      end
  end.

Definition iterate (v : value) : M (list value) :=
  match v with
  | VTuple vs | VList vs => ret vs
  | VDict kvs => ret (VStr <$> kvs.*1)
  | _ =>
      r ← ask (RIter v);
      match r with
      | VTuple vs | VList vs => ret vs
      | _ => raise (TypeError "iter() returned non-iterator")
      end
  end.

Definition format_value (v : value) (spec : string) : M string :=
  let lib := r ← ask (RFormat v spec);
             match r with
             | VStr s => ret s
             | _ => raise (TypeError "__format__ must return a str")
             end in
  match v with
  | VStr s =>
      if String.eqb spec "" then ret s
      else if String.eqb spec "04d" then raise (ValueError "format code d for str")
      else lib
  | VInt z =>
      if String.eqb spec "" then ret (pretty z)
      else if String.eqb spec "04d" then ret (format_04d z)
      else lib
  | _ => lib
  end.

Definition arith (op : string) (f : Z → Z → M value) (a b : value) : M value :=
  match a, b with
  | VInt x, VInt y => f x y
  | _, _ => ask (RBinOp op a b)
  end.

Definition py_add := arith "+" (λ x y, ret (VInt (x + y))).
Definition py_sub := arith "-" (λ x y, ret (VInt (x - y))).
Definition py_mul := arith "*" (λ x y, ret (VInt (x * y))).
Definition py_mod :=
  arith "%" (λ x y, if y =? 0 then raise ZeroDivisionError else ret (VInt (x `mod` y))).
Definition py_eq := arith "==" (λ x y, ret (VBool (x =? y))).

(** *** Expressions

    An expression is a computation of a value; operands are evaluated left
    to right, the callee before its arguments, as Python does. *)

Definition Int (z : Z) : M value := ret (VInt z).
Definition Flt (lit : string) : M value := ret (VFloat lit).
Definition Str (s : string) : M value := ret (VStr s).
Definition PNone : M value := ret VNone.
Definition PTrue : M value := ret (VBool true).
Definition PFalse : M value := ret (VBool false).

Definition Attr (e : M value) (a : string) : M value := o ← e; getattr o a.
Definition Idx (e k : M value) : M value := o ← e; i ← k; getitem o i.

Definition keywords (kw : list (string * M value)) : M (list (string * value)) :=
  mapM (λ p, v ← p.2; ret (p.1, v)) kw.

Definition Call (f : M value) (args : list (M value)) (kw : list (string * M value))
    : M value :=
  fv ← f; avs ← mapM id args; kvs ← keywords kw; call fv avs kvs.

(** o.m(args): the attribute lookup, then the arguments, then the call.
    The request records the receiver and the method name next to the bound
    method that the lookup produced. *)
Definition MCall (o : M value) (m : string) (args : list (M value))
    (kw : list (string * M value)) : M value :=
  ov ← o; f ← getattr ov m; avs ← mapM id args; kvs ← keywords kw;
  call_method ov m f avs kvs.

(** f( **d ) *)
Definition CallKw (f d : M value) : M value :=
  fv ← f; dv ← d;
  match dv with
  | VDict kvs => call fv [] kvs
  | _ => raise (TypeError "argument after ** must be a mapping")
  end.

(** o.m( **d ) *)
Definition MCallKw (o : M value) (m : string) (d : M value) : M value :=
  ov ← o; f ← getattr ov m; dv ← d;
  match dv with
  | VDict kvs => call_method ov m f [] kvs
  | _ => raise (TypeError "argument after ** must be a mapping")
  end.

Definition Tuple (es : list (M value)) : M value := vs ← mapM id es; ret (VTuple vs).
Definition PList (es : list (M value)) : M value := vs ← mapM id es; ret (VList vs).
Definition Dict (kes : list (string * M value)) : M value :=
  kvs ← keywords kes; ret (VDict kvs).

Definition Add (a b : M value) : M value := x ← a; y ← b; py_add x y.
Definition Sub (a b : M value) : M value := x ← a; y ← b; py_sub x y.
Definition Mul (a b : M value) : M value := x ← a; y ← b; py_mul x y.
Definition Mod (a b : M value) : M value := x ← a; y ← b; py_mod x y.
Definition Eq (a b : M value) : M value := x ← a; y ← b; py_eq x y.

(** [a or b] yields [a] when it is true, and only otherwise evaluates [b]. *)
Definition Or (a b : M value) : M value :=
  x ← a; t ← truthy x; if t : bool then ret x else b.
Definition Not (a : M value) : M value :=
  x ← a; t ← truthy x; ret (VBool (negb t)).
Definition IsNotNone (a : M value) : M value :=
  x ← a; ret (VBool (match x with VNone => false | _ => true end)).

(** f-strings: literal text and replacement fields with a format spec. *)
Inductive fpart : Type :=
| FLit (s : string)
| FSub (e : M value) (spec : string).

Definition Fstr (parts : list fpart) : M value :=
  ss ← mapM (λ p, match p with
                  | FLit s => ret s
                  | FSub e spec => v ← e; format_value v spec
                  end) parts;
  ret (VStr (String.concat "" ss)).

(** range(n) and enumerate(it), unless the notebook has rebound the names. *)
Definition Range (n : M value) : M (list value) :=
  f ← G "range"; nv ← n;
  if is_lib f "builtins.range" then
    match nv with
    | VInt z => ret (VInt <$> range_list z)
    | VBool b => ret (VInt <$> range_list (if b then 1 else 0))
    | _ => r ← ask (RCall f [nv] []); iterate r
    end
  else r ← call f [nv] []; iterate r.

Definition Enumerate (e : M value) : M (list value) :=
  f ← G "enumerate"; v ← e;
  if is_lib f "builtins.enumerate" then
    vs ← iterate v;
    ret ((λ p, VTuple [VInt p.1; p.2]) <$> enumerate_list vs)
  else r ← call f [v] []; iterate r.

Definition Iter (e : M value) : M (list value) := v ← e; iterate v.

(** *** Statements *)

Definition Pass : M unit := ret tt.
Definition Expr (e : M value) : M unit := e;; ret tt.
Definition Assign (x : string) (e : M value) : M unit := v ← e; setL x v.
Definition AssignG (x : string) (e : M value) : M unit := v ← e; setG x v.
(** o.a = e: the right-hand side first, then the target object. *)
Definition SetAttr (o : M value) (a : string) (e : M value) : M unit :=
  v ← e; ov ← o; setattr ov a v.

(** a, b, ... = v *)
Definition unpack (set : string → value → M unit) (xs : list string) (v : value)
    : M unit :=
  vs ← iterate v;
  if bool_decide (length vs = length xs)
  then for_each (zip xs vs) (λ p, set p.1 p.2)
  else raise (ValueError "wrong number of values to unpack").

Definition If_ (c : M value) (th el : M unit) : M unit :=
  v ← c; t ← truthy v; if t : bool then th else el.

Definition For (target : value → M unit) (it : M (list value)) (body : M unit) : M unit :=
  vs ← it; for_each vs (λ v, target v;; body).

(** with cm: body.  The manager's __exit__ sees the exception of the body
    and decides whether it is swallowed. *)
Definition guarded (c : value) (body : M unit) : M unit := λ s,
  match body s with
  | (Ok _, s') => (ask (RExit c None);; ret tt) s'
  | (Exc x, s') =>
      (r ← ask (RExit c (Some x)); t ← truthy r;
       if t : bool then ret tt else raise x) s'
  end.

Definition With (cm : M value) (body : M unit) : M unit :=
  c ← cm; ask (REnter c);; guarded c body.

(** from module import name / import module as name *)
Definition FromImport (module name : string) : M unit :=
  ask (RImport module (Some name));; setG name (VLib (module +:+ "." +:+ name)).
Definition ImportAs (module alias : string) : M unit :=
  ask (RImport module None);; setG alias (VLib module).

(** Calling a function of the notebook: a fresh frame holding the
    arguments, dropped again when the function returns. *)
Definition invoke (params : list string) (body : M value) (args : list value) : M value :=
  λ s,
    if bool_decide (length args = length params) then
      match body (set_locals (λ _, list_to_map (zip params args)) s) with
      | (Ok v, s') => (Ok v, set_locals (λ _, locals s) s')
      | (Exc e, s') => (Exc e, s')
      end
    else (Exc (TypeError "wrong number of arguments"), s).

Notation "x ::= e" := (Assign x e) (at level 60, no associativity).
Notation "x :G= e" := (AssignG x e) (at level 60, no associativity).
Notation "e @@ a" := (Attr e a) (at level 11, left associativity).


(** [elt for x in it]: the loop variable lives in the comprehension only. *)
Definition scoped (x : string) (m : M (list value)) : M value := λ s,
  match m s with
  | (Ok rs, s') =>
      (Ok (VList rs),
       set_locals (λ l, match locals s !! x with
                        | Some old => <[x := old]> l
                        | None => delete x l
                        end) s')
  | (Exc e, s') => (Exc e, s')
  end.

Definition ListComp (x : string) (it : M (list value)) (elt : M value) : M value :=
  vs ← it; scoped x (mapM (λ v, setL x v;; elt) vs).

(** ** The functions the notebook defines *)

(** def transform(examples) *)
Definition transform_body : M value :=
  "images" ::= ListComp "image" (Iter (Idx (L "examples") (Str "image")))
                 (Call (G "preprocess")
                    [MCall (L "image") "convert" [Str "RGB"] []] []);;
  Dict [("images", L "images")].

Definition transform : list value → M value := invoke ["examples"] transform_body.

(** def evaluate(config, epoch, pipeline) *)
Definition evaluate_body : M value :=
  "images" ::=
    Call (L "pipeline") []
      [("batch_size", L "config" @@ "eval_batch_size");
       ("generator",
        MCall (MCall (G "torch") "Generator" [] [("device", Str "cpu")]) "manual_seed"
          [L "config" @@ "seed"] [])]
    @@ "images";;
  "image_grid" ::=
    Call (G "make_image_grid") [L "images"] [("rows", Int 4); ("cols", Int 4)];;
  "test_dir" ::=
    MCall (G "os" @@ "path") "join" [L "config" @@ "output_dir"; Str "test_images"] [];;
  Expr (MCall (G "os") "makedirs" [L "test_dir"] [("exist_ok", PTrue)]);;
  Expr (MCall (L "image_grid") "save"
          [Fstr [FSub (L "test_dir") ""; FLit "/"; FSub (L "epoch") "04d"; FLit ".png"]]
          []);;
  ret VNone.

Definition evaluate : list value → M value :=
  invoke ["config"; "epoch"; "pipeline"] evaluate_body.

(** The pieces of train_loop, named after the block each one is. *)

(** accelerator = Accelerator(...) and the main-process set-up *)
Definition train_setup : M unit :=
  "accelerator" ::=
    Call (G "Accelerator") []
      [("mixed_precision", L "config" @@ "mixed_precision");
       ("gradient_accumulation_steps", L "config" @@ "gradient_accumulation_steps");
       ("log_with", Str "tensorboard");
       ("project_dir",
        MCall (G "os" @@ "path") "join" [L "config" @@ "output_dir"; Str "logs"] [])];;
  If_ (L "accelerator" @@ "is_main_process")
    (If_ (IsNotNone (L "config" @@ "output_dir"))
       (Expr (MCall (G "os") "makedirs" [L "config" @@ "output_dir"]
                [("exist_ok", PTrue)]);;
        If_ (L "config" @@ "push_to_hub")
          ("repo_id" ::=
             Call (G "create_repo") []
               [("repo_id",
                 Or (L "config" @@ "hub_model_id")
                    (Call (G "Path") [L "config" @@ "output_dir"] [] @@ "name"));
                ("exist_ok", PTrue)]
             @@ "repo_id")
          Pass;;
        Expr (MCall (L "accelerator") "init_trackers" [Str "train_example"] []))
       Pass)
    Pass;;
  v ← MCall (L "accelerator") "prepare"
        [L "model"; L "optimizer"; L "train_dataloader"; L "lr_scheduler"] [];
  unpack setL ["model"; "optimizer"; "train_dataloader"; "lr_scheduler"] v;;
  "global_step" ::= Int 0.

(** The body of [for step, batch in enumerate(train_dataloader)]. *)
Definition batch_body : M unit :=
  "clean_images" ::= Idx (L "batch") (Str "images");;
  "noise" ::=
    MCall (G "torch") "randn" [L "clean_images" @@ "shape"]
      [("device", L "clean_images" @@ "device")];;
  "bs" ::= Idx (L "clean_images" @@ "shape") (Int 0);;
  "timesteps" ::=
    MCall (G "torch") "randint"
      [Int 0; L "noise_scheduler" @@ "num_timesteps"; Tuple [L "bs"]]
      [("device", L "clean_images" @@ "device");
       ("dtype", G "torch" @@ "int64")].

(** The body of [with accelerator.accumulate(model)]. *)
Definition accumulate_body : M unit :=
  "noise_pred" ::=
    Idx (Call (L "model") [G "noisy_images"; L "timesteps"] [("return_dict", PFalse)])
        (Int 0);;
  "loss" ::= MCall (G "F") "mse_loss" [L "noise_pred"; L "noise"] [];;
  Expr (MCall (L "accelerator") "backward" [L "loss"] []);;
  If_ (L "accelerator" @@ "sync_gradients")
    (Expr (MCall (L "accelerator") "clip_grad_norm_"
             [MCall (L "model") "parameters" [] []; Flt "1.0"] []))
    Pass;;
  Expr (MCall (L "optimizer") "step" [] []);;
  Expr (MCall (L "lr_scheduler") "step" [] []);;
  Expr (MCall (L "optimizer") "zero_grad" [] []).

(** The body of [for epoch in range(config.num_epochs)]. *)
Definition epoch_body : M unit :=
  "progress_bar" ::=
    Call (G "tqdm") []
      [("total", Call (G "len") [L "train_dataloader"] []);
       ("disable", Not (L "accelerator" @@ "is_local_main_process"))];;
  Expr (MCall (L "progress_bar") "set_description"
          [Fstr [FLit "Epoch "; FSub (L "epoch") ""]] []);;
  For (unpack setL ["step"; "batch"]) (Enumerate (L "train_dataloader")) batch_body;;
  "noise_images" ::=
    MCall (L "noise_scheduler") "add_noise"
      [L "clean_images"; L "noise"; L "timesteps"] [];;
  With (MCall (L "accelerator") "accumulate" [L "model"] []) accumulate_body;;
  Expr (MCall (L "progress_bar") "update" [Int 1] []);;
  "logs" ::=
    Dict [("loss", MCall (MCall (L "loss") "detach" [] []) "item" [] []);
          ("lr", Idx (MCall (L "lr_scheduler") "get_last_lr" [] []) (Int 0));
          ("step", L "global_step")];;
  Expr (MCallKw (L "progress_bar") "set_postfix" (L "logs"));;
  Expr (MCall (L "accelerator") "log" [L "logs"] [("step", L "global_step")]);;
  "global_step" ::= Add (L "global_step") (Int 1).

(** The block after the epoch loop. *)
Definition train_save : M unit :=
  If_ (L "accelerator" @@ "is_main_process")
    ("pipeline" ::=
       Call (G "DDPMPipeline") []
         [("unet", MCall (L "accelerator") "unwrap_model" [L "model"] []);
          ("scheduler", L "noise_scheduler")];;
     If_ (Or (Eq (Mod (Add (L "epoch") (Int 1)) (L "config" @@ "save_model_epochs"))
                 (Int 0))
             (Eq (L "epoch") (Sub (L "config" @@ "num_epochs") (Int 1))))
       (If_ (L "config" @@ "push_to_hub")
          (Expr (Call (G "upload_folder") []
                   [("repo_id", L "repo_id");
                    ("folder_path", L "config" @@ "output_dir");
                    ("commit_message", Fstr [FLit "Epoch "; FSub (L "epoch") ""]);
                    ("ignore_patterns", PList [Str "step_*"; Str "epoch_*"])]))
          (Expr (MCall (L "pipeline") "save_pretrained"
                   [L "config" @@ "output_dir"] [])))
       Pass)
    Pass.

(** The set-up followed by the epoch loop. *)
Definition train_epochs : M unit :=
  train_setup;;
  For (setL "epoch") (Range (L "config" @@ "num_epochs")) epoch_body.

(** def train_loop(config, model, noise_scheduler, optimizer,
                   train_dataloader, lr_scheduler) *)
Definition train_loop_body : M value :=
  train_epochs;;
  train_save;;
  ret VNone.

Definition train_loop : list value → M value :=
  invoke ["config"; "model"; "noise_scheduler"; "optimizer"; "train_dataloader";
          "lr_scheduler"] train_loop_body.

Definition functions (name : string) : option (list value → M value) :=
  if String.eqb name "transform" then Some transform
  else if String.eqb name "evaluate" then Some evaluate
  else if String.eqb name "train_loop" then Some train_loop
  else None.

(** notebook_launcher(function, args, num_processes=1): with a single
    process accelerate calls function( *args ) in the notebook's own
    process and lets its exceptions through. *)
Definition Launch (f fn args : M value) (kw : list (string * M value)) : M unit :=
  fv ← f; fnv ← fn; av ← args; kvs ← keywords kw;
  ask (RCall fv [fnv; av] kvs);;
  if is_lib fv "accelerate.notebook_launcher" then
    match fnv with
    | VFun name =>
        match functions name with
        | Some g => vs ← iterate av; g vs;; ret tt
        | None => ret tt
        end
    | _ => ret tt
    end
  else ret tt.

(** ** The code cells that parse, in notebook order *)

Definition cell_load_dataset : M unit :=
  FromImport "dataset" "load_dataset";;
  SetAttr (G "config") "dataset_name" (Str "huggan/smithsonian_butterflies_subset");;
  "dataset" :G=
    Call (G "load_dataset") [G "config" @@ "dataset_name"] [("split", Str "train")].

Definition cell_show_images : M unit :=
  ImportAs "matplotlib.pyplot" "plt";;
  (v ← MCall (G "plt") "subplots" [Int 1; Int 4] [("figsize", Tuple [Int 16; Int 4])];
   unpack setG ["fig"; "axs"] v);;
  For (unpack setG ["i"; "image"])
    (Enumerate (Idx (Idx (G "dataset") (ret (VSlice None (Some 4)))) (Str "image")))
    (Expr (MCall (Idx (G "axs") (G "i")) "imshow" [G "image"] []);;
     Expr (MCall (Idx (G "axs") (G "i")) "set_axis_off" [] []));;
  Expr (MCall (G "fig") "show" [] []).

Definition cell_preprocess : M unit :=
  FromImport "torchvision" "transforms";;
  "preprocess" :G=
    MCall (G "transforms") "Compose"
      [PList
         [MCall (G "transforms") "Resize"
            [Tuple [G "config" @@ "image_size"; G "config" @@ "image_size"]] [];
          MCall (G "transforms") "RandomHorizontalFlip" [] [];
          MCall (G "transforms") "ToTensor" [] [];
          MCall (G "transforms") "Normalize" [PList [Flt "0.5"]; PList [Flt "0.5"]] []]]
      [].

Definition cell_transform : M unit :=
  setG "transform" (VFun "transform");;
  Expr (MCall (G "dataset") "set_transform" [G "transform"] []).

Definition cell_dataloader : M unit :=
  ImportAs "torch" "torch";;
  "train_dataloader" :G=
    MCall (G "torch" @@ "utils" @@ "data") "DataLoader" [G "dataset"]
      [("batch_size", G "config" @@ "train_batch_size"); ("shuffle", PTrue)].

Definition cell_check_shapes : M unit :=
  "sample_image" :G=
    MCall (Idx (Idx (G "dataset") (Int 0)) (Str "images")) "unsqueeze" [Int 0] [];;
  Expr (Call (G "print") [Str "Input shape:"; G "sample_image" @@ "shape"] []);;
  Expr (Tuple [Call (G "print") [Str "Output shape:"] [];
               Call (G "model") [G "sample_image"] [("timestep", Int 0)]
               @@ "sample" @@ "shape"]).

Definition cell_scheduler : M unit :=
  ImportAs "torch" "torch";;
  FromImport "PIL" "Image";;
  FromImport "diffusers" "DDPMScheduler";;
  "noise_scheduler" :G= Call (G "DDPMScheduler") [] [("num_train_timesteps", Int 1000)];;
  "noise" :G= MCall (G "torch") "randn" [G "sample_image" @@ "shape"] [];;
  "timesteps" :G= MCall (G "torch") "LongTensor" [PList [Int 50]] [];;
  "noisy_image" :G=
    MCall (G "noise_scheduler") "add_noise"
      [G "sample_iamge"; G "noise"; G "timesteps"] [];;
  Expr (MCall (G "Image") "fromarray"
          [Idx (MCall
                  (MCall
                     (Mul (Add (MCall (G "noisy_image") "permute"
                                  [Int 0; Int 2; Int 3; Int 1] [])
                               (Flt "1.0"))
                          (Flt "127.5"))
                     "type" [G "torch" @@ "uint8"] [])
                  "numpy" [] [])
               (Int 0)]
          []).

Definition cell_loss : M unit :=
  ImportAs "torch.nn.functional" "F";;
  "noise_pred" :G= Call (G "model") [G "noisy_image"; G "timesteps"] [] @@ "sample";;
  "loss" :G= MCall (G "F") "mse_loss" [G "noise_pred"; G "noise"] [].

Definition cell_evaluate : M unit :=
  FromImport "diffusers" "DDPMPipeline";;
  FromImport "diffusers.util" "make_image_grid";;
  ImportAs "os" "os";;
  setG "evaluate" (VFun "evaluate").

Definition cell_train_loop : M unit :=
  FromImport "accelerate" "Accelerator";;
  FromImport "tqdm.auto" "tqdm";;
  FromImport "pathlib" "Path";;
  ImportAs "os" "os";;
  setG "train_loop" (VFun "train_loop").

Definition cell_launch : M unit :=
  FromImport "accelerate" "notebook_launcher";;
  "args" :G=
    Tuple [G "config"; G "model"; G "noise_scheduler"; G "optimizer";
           G "train_dataloader"; G "lr_scheduler"];;
  Launch (G "notebook_launcher") (G "train_loop") (G "args") [("num_processes", Int 1)].

Definition cell_show_result : M unit :=
  ImportAs "glob" "glob";;
  "sampel_images" :G=
    Call (G "sorted")
      [MCall (G "glob") "glob"
         [Fstr [FSub (G "config" @@ "output_dir") ""; FLit "/samples/*.png"]] []]
      [];;
  Expr (MCall (G "Image") "open" [Idx (G "sample_images") (Int (-1))] []).

(** ** The notebook *)
Definition notebook : list cell :=
  [ Markdown; Markdown; Markdown; Markdown;
    Shell "pip install diffusers[training]";
    Markdown; Markdown;
    Code Source.src_config None;
    Markdown; Markdown;
    Code Source.src_load_dataset (Some cell_load_dataset);
    Markdown;
    Code Source.src_show_images (Some cell_show_images);
    Markdown;
    Code Source.src_preprocess (Some cell_preprocess);
    Markdown;
    Code Source.src_transform (Some cell_transform);
    Markdown;
    Code Source.src_dataloader (Some cell_dataloader);
    Markdown; Markdown;
    Code Source.src_model None;
    Markdown;
    Code Source.src_check_shapes (Some cell_check_shapes);
    Markdown;
    Code Source.src_scheduler (Some cell_scheduler);
    Markdown;
    Code Source.src_loss (Some cell_loss);
    Markdown;
    Code Source.src_optimizer None;
    Markdown;
    Code Source.src_evaluate (Some cell_evaluate);
    Markdown;
    Code Source.src_train_loop (Some cell_train_loop);
    Code Source.src_launch (Some cell_launch);
    Markdown;
    Code Source.src_show_result (Some cell_show_result);
    Markdown ].

(** A shell escape runs the command; a failing command leaves an exit
    status and raises nothing. *)
Definition shell (cmd : string) : M unit := λ s,
  (Ok tt,
   log (RShell cmd, Ret match W (hist s) (RShell cmd) with
                        | Ret v => v
                        | Raise _ => VNone
                        end) s).

(** Python compiles the whole cell before running any of it. *)
Definition run_cell (c : cell) : M unit :=
  match c with
  | Markdown => ret tt
  | Shell cmd => shell cmd
  | Code src sem =>
      if PySyntax.syntax_error src then raise SyntaxError
      else match sem with
           | Some m => m
           | None => raise SyntaxError
           end
  end.

(** Run All: the cells in order, stopping at the first that raises. *)
Definition run_all (cells : list cell) : M unit := for_each cells run_cell.

(** How many cells Run All gets through before one raises. *)
Fixpoint completed (cells : list cell) (s : state) : nat :=
  match cells with
  | [] => 0
  | c :: cells' =>
      match run_cell c s with
      | (Ok _, s') => S (completed cells' s')
      | (Exc _, _) => 0
      end
  end.
End Semantics.

(** ** The configuration record

    The class body of TrainingConfig, attribute by attribute, in source
    order.  The right-hand side of hub_model_id is not an expression, so
    it has no value. *)
Definition TrainingConfig_body : list (string * option value) :=
  [ ("image_size", Some (VInt 128));
    ("train_batch_size", Some (VInt 16));
    ("eval_batch_size", Some (VInt 16));
    ("num_epochs", Some (VInt 50));
    ("gradient_accumulation_steps", Some (VInt 1));
    ("learning_rate", Some (VFloat "1e-4"));
    ("lr_warmup_steps", Some (VInt 500));
    ("save_image_epochs", Some (VInt 10));
    ("save_model_epochs", Some (VInt 30));
    ("mixed_precision", Some (VStr "fp16"));
    ("output_dir", Some (VStr "ddpm-butterflies-128"));
    ("push_to_hub", Some (VBool false));
    ("hub_model_id", None);
    ("hub_private_repo", Some VNone);
    ("overwrite_output_dir", Some (VBool true));
    ("seed", Some (VInt 0)) ].

Definition TrainingConfig_fields : list string := TrainingConfig_body.*1.

(** The attributes a TrainingConfig instance would answer with, for the
    attributes whose right-hand side is a value. *)
Definition config_attrs : gmap string value :=
  list_to_map (omap (λ p, v ← p.2; Some (p.1, v)) TrainingConfig_body).

(** * Reasoning about runs *)

(** A frame says what a piece of code is allowed to touch: the requests it
    may make, the names that must stay unbound, the attributes of heap
    objects it may assign, and the names whose binding it must keep. *)
Record frame : Type := mkFrame {
  allowed : request → Prop;
  unbound_locals : list string;
  unbound_globals : list string;
  assignable : list string;
  kept_locals : list string;
  kept_globals : list string
}.

Definition attr_of (h : gmap nat (gmap string value)) (l : nat) (a : string) : option value :=
  h !! l ≫= (λ d, d !! a).

(** [inv F s0 s]: state [s] is reachable from [s0] within frame [F]. *)
Definition inv (F : frame) (s0 s : state) : Prop :=
  (∃ new, hist s = hist s0 ++ new ∧ Forall (λ ev, allowed F ev.1) new)
  ∧ (∀ x, x ∈ unbound_locals F → locals s !! x = None)
  ∧ (∀ x, x ∈ unbound_globals F → globals s !! x = None)
  ∧ (∀ l a, a ∉ assignable F → attr_of (heap s) l a = attr_of (heap s0) l a)
  ∧ (∀ x, x ∈ kept_locals F → locals s !! x = locals s0 !! x)
  ∧ (∀ x, x ∈ kept_globals F → globals s !! x = globals s0 !! x).

(** [hoare P m Q E]: from a state in [P], [m] ends in [Q] when it returns and
    in [E] when it raises. *)
Definition hoare {A} (P : state → Prop) (m : M A) (Q : A → state → Prop) (E : state → Prop)
    : Prop :=
  ∀ s, P s → match m s with
             | (Ok a, s') => Q a s'
             | (Exc _, s') => E s'
             end.

(** [keeps I m]: [m] preserves [I], however it ends. *)
Definition keeps {A} (I : state → Prop) (m : M A) : Prop := hoare I m (λ _, I) I.

(** [fails I m]: [m] always raises, and preserves [I]. *)
Definition fails {A} (I : state → Prop) (m : M A) : Prop := hoare I m (λ _ _, False) I.

(** The requests made since state [s], oldest first. *)
Definition events_from (s s' : state) : list event := drop (length (hist s)) (hist s').

(** Does the request look up or call an attribute with one of these names? *)
Definition asks (names : list string) (r : request) : bool :=
  match r with
  | RGetAttr _ a | RMethod _ a _ _ _ => bool_decide (a ∈ names)
  | _ => false
  end.

(** The frame of code that never asks for [names] and leaves the given
    names unbound. *)
Definition avoiding (names locs globs : list string) : frame :=
  mkFrame (λ r, asks names r = false) locs globs [] [] [].

(** What one training step asks of the libraries once it has the noisy
    image: the loss, backpropagation, clipping, the optimizer and scheduler
    steps, and the logging of the step. *)
Definition training_methods : list string :=
  ["mse_loss"; "backward"; "clip_grad_norm_"; "parameters"; "step"; "zero_grad";
   "detach"; "item"; "get_last_lr"; "set_postfix"; "log"].

(** What evaluate asks for and train_loop has no other use of. *)
Definition evaluation_methods : list string := ["manual_seed"; "images"; "save"].

Definition persistence_methods : list string := ["save_pretrained"].

(** What sampling demo images and saving the model ask for. *)
Definition never_saved : list string := evaluation_methods ++ persistence_methods.

(** The frame of everything train_loop does while noisy_images is unbound. *)
Definition step_frame : frame := avoiding training_methods ["loss"] ["noisy_images"].

(** ** A sample world and state

    Libraries that always succeed: every request is answered with a fresh
    object, the accelerator runs the main process, prepare hands back what
    it was given, the data loader yields [batches] batches, and no context
    manager swallows an exception. *)
Definition demo_world (batches : nat) : world := λ h r,
  match r with
  | RGetAttr _ a =>
      if String.eqb a "is_main_process" then Ret (VBool true) else Ret (VExt (100 + length h))
  | RFormat _ _ => Ret (VStr "?")
  | RMethod _ m _ args _ =>
      if String.eqb m "prepare" then Ret (VTuple args) else Ret (VExt (100 + length h))
  | RIter _ => Ret (VList (VExt <$> seq 1000 batches))
  | RTruth _ => Ret (VBool true)
  | RExit _ _ => Ret VNone
  | _ => Ret (VExt (100 + length h))
  end.

(** The module name space once the import lines of the notebook have run. *)
Definition demo_globals : gmap string value :=
  list_to_map
    [("load_dataset", VLib "dataset.load_dataset"); ("plt", VLib "matplotlib.pyplot");
     ("transforms", VLib "torchvision.transforms"); ("torch", VLib "torch");
     ("Image", VLib "PIL.Image"); ("DDPMScheduler", VLib "diffusers.DDPMScheduler");
     ("F", VLib "torch.nn.functional"); ("DDPMPipeline", VLib "diffusers.DDPMPipeline");
     ("make_image_grid", VLib "diffusers.util.make_image_grid"); ("os", VLib "os");
     ("Accelerator", VLib "accelerate.Accelerator"); ("tqdm", VLib "tqdm.auto.tqdm");
     ("Path", VLib "pathlib.Path"); ("transform", VFun "transform");
     ("evaluate", VFun "evaluate"); ("train_loop", VFun "train_loop");
     ("config", VInst 0); ("model", VExt 1); ("noise_scheduler", VExt 2);
     ("optimizer", VExt 3); ("train_dataloader", VExt 4); ("lr_scheduler", VExt 5)].

(** A state in which config is an instance with the attributes of
    TrainingConfig, and nothing has been requested yet. *)
Definition demo_state : state :=
  mkState ∅ demo_globals {[ 0%nat := config_attrs ]} [].

Definition demo_args : list value :=
  [VInst 0; VExt 1; VExt 2; VExt 3; VExt 4; VExt 5].

(** How many requests in a history call the method [m]. *)
Fixpoint method_calls (m : string) (evs : list event) : nat :=
  match evs with
  | [] => 0
  | (RMethod _ m' _ _ _, _) :: evs' =>
      ((if String.eqb m m' then 1 else 0) + method_calls m evs')%nat
  | _ :: evs' => method_calls m evs'
  end.

(** The frames of train_loop before and after its first epoch starts. *)
Definition before_epochs (names : list string) : frame :=
  avoiding names ["loss"; "epoch"] ["noisy_images"].
Definition in_epochs (names : list string) : frame :=
  avoiding names ["loss"] ["noisy_images"].

(** The frame of code that may assign the attributes [attrs] of heap
    objects and is otherwise unrestricted. *)
Definition touching (attrs : list string) : frame := mkFrame (λ _, True) [] [] attrs [] [].

(** Where the cell that loads the dataset stands in the notebook. *)
Definition load_dataset_index : nat := 10.

(** ** What can be read off the cells without running them *)

(** Does Python's parser reject the cell? *)
Definition rejected (c : cell) : bool :=
  match c with
  | Code src _ => PySyntax.syntax_error src
  | _ => false
  end.

(** The positions, counted from [i], of the cells that are rejected. *)
Fixpoint rejected_from (i : nat) (cells : list cell) : list nat :=
  match cells with
  | [] => []
  | c :: cells' => (if rejected c then [i] else []) ++ rejected_from (S i) cells'
  end.

(** Where the cell that defines TrainingConfig and the last code cell stand. *)
Definition config_index : nat := 7.
Definition last_code_index : nat := 36.

(** Readings of the token stream of a cell. *)
Module Static.
Import PySyntax.

Definition is_op (t : token) (o : string) : bool :=
  match t with
  | TOp o' => String.eqb o o'
  | _ => false
  end.

Definition is_name (t : token) (x : string) : bool :=
  match t with
  | TName x' => String.eqb x x'
  | _ => false
  end.

(** The names that start a logical line and are followed by [=]. *)
Fixpoint line_targets (toks : list token) (at_start : bool) : list string :=
  match toks with
  | [] => []
  | TNewline :: rest => line_targets rest true
  | TName x :: rest =>
      (match rest with
       | t :: _ => if at_start && is_op t "=" then [x] else []
       | [] => []
       end) ++ line_targets rest false
  | _ :: rest => line_targets rest false
  end.

(** The attributes [a] in assignments [obj.a = ...]. *)
Fixpoint attribute_targets (obj : string) (toks : list token) : list string :=
  match toks with
  | [] => []
  | t :: rest =>
      (match rest with
       | dot :: TName a :: eq :: _ =>
           if is_name t obj && is_op dot "." && is_op eq "=" then [a] else []
       | _ => []
       end) ++ attribute_targets obj rest
  end.

(** How many times the name [f] is called: directly followed by an
    opening parenthesis, and not the name that a [def] introduces. *)
Fixpoint call_sites (f : string) (toks : list token) (after_def : bool) : nat :=
  match toks with
  | [] => 0
  | t :: rest =>
      ((match rest with
        | paren :: _ =>
            if negb after_def && is_name t f && is_op paren "(" then 1 else 0
        | [] => 0
        end) + call_sites f rest (is_name t "def"))%nat
  end.

(** Does one of [names] occur as a name or keyword? *)
Definition mentions (names : list string) (toks : list token) : bool :=
  existsb (λ t, match t with
                | TName x => bool_decide (x ∈ names)
                | _ => false
                end) toks.

Definition tokens (src : list string) : list token := lex (text_of src).
End Static.

(** The text of every code cell that is Python, in notebook order. *)
Definition all_sources : list (list string) :=
  [ Source.src_config; Source.src_load_dataset; Source.src_show_images;
    Source.src_preprocess; Source.src_transform; Source.src_dataloader; Source.src_model;
    Source.src_check_shapes; Source.src_scheduler; Source.src_loss; Source.src_optimizer;
    Source.src_evaluate; Source.src_train_loop; Source.src_launch;
    Source.src_show_result ].

Definition all_tokens : list PySyntax.token := concat (Static.tokens <$> all_sources).

(** ** The fields of the configuration record

    Following the spec's words: image resolution, batch sizes (train and
    eval), epoch count, learning rate, warm-up steps, checkpoint cadence,
    mixed-precision flag, output directory, random seed. *)
Definition claimed_fields : list string :=
  [ "image_size"; "train_batch_size"; "eval_batch_size"; "num_epochs"; "learning_rate";
    "lr_warmup_steps"; "save_image_epochs"; "save_model_epochs"; "mixed_precision";
    "output_dir"; "seed" ].

(** The fields of TrainingConfig that the spec's list leaves out. *)
Definition unlisted_fields : list string :=
  List.filter (λ f, negb (bool_decide (f ∈ claimed_fields))) TrainingConfig_fields.

(** A value with no structure of its own: a flat record holds only these. *)
Definition is_scalar (v : value) : bool :=
  match v with
  | VNone | VBool _ | VInt _ | VFloat _ | VStr _ => true
  | _ => false
  end.

(** Names that would introduce a thread, a process, a lock, a queue, a
    scheduler or a cancellation of the notebook's own. *)
Definition concurrency_names : list string :=
  [ "threading"; "Thread"; "Lock"; "RLock"; "Semaphore"; "Condition"; "Barrier"; "Event";
    "Timer"; "multiprocessing"; "Process"; "Pool"; "Queue"; "Pipe"; "concurrent";
    "ThreadPoolExecutor"; "ProcessPoolExecutor"; "Future"; "asyncio"; "async"; "await";
    "subprocess"; "Popen"; "signal"; "sched"; "fork"; "spawn"; "kill"; "cancel"; "join_thread";
    "start_new_thread"; "yield" ].




(** ** Exceptions of library calls *)

Definition raised (ev : event) : bool :=
  match ev.2 with
  | Raise _ => true
  | Ret _ => false
  end.









(** The frame of the whole notebook: any request, noisy_images unbound, and
    dataset_name the one attribute that is assigned. *)
Definition notebook_frame : frame :=
  mkFrame (λ _, True) [] ["noisy_images"] ["dataset_name"] [] [].

(** The sample world, except that constructing the Accelerator raises. *)
Definition failing_world : world := λ h r,
  match r with
  | RCall f _ _ =>
      if is_lib f "accelerate.Accelerator" then Raise (LibError "no accelerator")
      else demo_world 2 h r
  | _ => demo_world 2 h r
  end.

(** The demo state with noisy_images bound at module level, so that the
    with-block of train_loop gets past its first line. *)
Definition bound_state : state := set_globals <["noisy_images" := VExt 30]> demo_state.

(** The sample world, except that optimizer.zero_grad() raises; the
    context manager of the with-block lets the exception through. *)
Definition declining_world : world := λ h r,
  match r with
  | RMethod _ m _ _ _ =>
      if String.eqb m "zero_grad" then Raise (LibError "out of memory") else demo_world 2 h r
  | _ => demo_world 2 h r
  end.


(** ** What evaluate asks of the libraries

    One request of a script: ask, record the reply, and go on with the value
    or stop with the exception. *)
Definition script_step (W : world) (h : list event) (r : request)
    (k : value → list event → outcome value * list event) : outcome value * list event :=
  match W h r with
  | Ret v => k v (h ++ [(r, Ret v) : event])
  | Raise e => (Exc e, h ++ [(r, Raise e) : event])
  end.

(** The file that evaluate saves the grid to. *)
Definition grid_file (d : string) (e : Z) : string :=
  String.concat "" [posix_join d "test_images"; "/"; format_04d e; ".png"].

(** torch.Generator(device='cpu') *)
Definition generator_call : request :=
  RMethod (VLib "torch") "Generator" (VLib "torch.Generator") [] [("device", VStr "cpu")].

(** pipeline(batch_size=bs, generator=g) *)
Definition sampling_call (p bs g : value) : request :=
  RCall p [] [("batch_size", bs); ("generator", g)].

(** make_image_grid(images, rows=4, cols=4) *)
Definition grid_call (grid_fn images : value) : request :=
  RCall grid_fn [images] [("rows", VInt 4); ("cols", VInt 4)].

(** The run of evaluate(config, e, p), request by request, from history
    [h]: config is an instance with eval_batch_size [bs], seed [seed] and
    output_dir [d]; torch and os are the modules of those names and
    make_image_grid is [grid_fn]; the generator, the pipeline output and the
    grid are objects [VExt].  It ends with the outcome and the history. *)
Definition evaluate_script (W : world) (p bs seed grid_fn : value) (d : string) (e : Z)
    (h : list event) : outcome value * list event :=
  script_step W h generator_call (λ g h,
  script_step W h (RGetAttr g "manual_seed") (λ seeder h,
  script_step W h (RMethod g "manual_seed" seeder [seed] []) (λ g' h,
  script_step W h (sampling_call p bs g') (λ out h,
  script_step W h (RGetAttr out "images") (λ images h,
  script_step W h (grid_call grid_fn images) (λ grid h,
  script_step W h
    (RMethod (VLib "os") "makedirs" (VLib "os.makedirs")
       [VStr (posix_join d "test_images")] [("exist_ok", VBool true)]) (λ _ h,
  script_step W h (RGetAttr grid "save") (λ saver h,
  script_step W h (RMethod grid "save" saver [VStr (grid_file d e)] []) (λ _ h,
  (Ok VNone, h)))))))))).

(** [fresh_generator h seed g]: the last three requests of [h] created a
    generator on the CPU and seeded it with [seed], which gave [g]. *)
Definition fresh_generator (h : list event) (seed g : value) : Prop :=
  ∃ h0 g0 seeder,
    h = ((h0 ++ [(generator_call, Ret g0) : event])
         ++ [(RGetAttr g0 "manual_seed", Ret seeder) : event])
        ++ [(RMethod g0 "manual_seed" seeder [seed] [], Ret g) : event].

Definition is_object (v : value) : Prop := ∃ n, v = VExt n.

(** What evaluate relies on from torch and diffusers, for the pipeline [p]
    and the grid function [grid_fn]: a generator, what the pipeline returns
    and a grid are objects; what the pipeline samples for a batch size is
    determined by the seed of a generator that has just been seeded; the
    images of an output are determined by the output, and the grid by the
    images. *)
Record sampling_contract (W : world) (p grid_fn : value) : Prop := {
  generator_object : ∀ h v, W h generator_call = Ret v → is_object v;
  output_object : ∀ h bs g v, W h (sampling_call p bs g) = Ret v → is_object v;
  grid_object : ∀ h images v, W h (grid_call grid_fn images) = Ret v → is_object v;
  sampling_seeded : ∀ h1 h2 bs seed g1 g2,
    fresh_generator h1 seed g1 → fresh_generator h2 seed g2 →
    W h1 (sampling_call p bs g1) = W h2 (sampling_call p bs g2);
  images_of_output : ∀ h1 h2 out, W h1 (RGetAttr out "images") = W h2 (RGetAttr out "images");
  grid_of_images : ∀ h1 h2 images,
    W h1 (grid_call grid_fn images) = W h2 (grid_call grid_fn images)
}.

(** The images that a run sampled: the replies to the lookups of [images]. *)
Definition sampled (evs : list event) : list value :=
  omap (λ ev, match ev with
              | (RGetAttr _ a, Ret v) => if String.eqb a "images" then Some v else None
              | _ => None
              end) evs.

(** The grids that a run saved, each with the file it went to. *)
Definition saved (evs : list event) : list (value * value) :=
  omap (λ ev, match ev.1 with
              | RMethod g m _ (file :: _) _ =>
                  if String.eqb m "save" then Some (g, file) else None
              | _ => None
              end) evs.

(** Every call of a value as a function that a run made, whatever its
    arguments, each with the history it was made in. *)
Fixpoint calls_made (h : list event) (evs : list event) : list (list event * request) :=
  match evs with
  | [] => []
  | ev :: evs' =>
      match ev.1 with
      | RCall _ _ _ => [(h, ev.1)]
      | _ => []
      end ++ calls_made (h ++ [ev]) evs'
  end.

(** The name spaces that evaluate reads: the fields of the configuration
    [l], and the globals that the imports of the notebook bind. *)
Definition evaluate_ready (s : state) (l : nat) (bs seed grid_fn : value) (d : string)
    : Prop :=
  attr_of (heap s) l "eval_batch_size" = Some bs
  ∧ attr_of (heap s) l "seed" = Some seed
  ∧ attr_of (heap s) l "output_dir" = Some (VStr d)
  ∧ globals s !! "torch" = Some (VLib "torch")
  ∧ globals s !! "os" = Some (VLib "os")
  ∧ globals s !! "make_image_grid" = Some grid_fn.

(** A world whose replies depend on the request only. *)
Definition canned_world : world := λ _ r,
  match r with
  | RMethod _ m _ _ _ =>
      if String.eqb m "Generator" then Ret (VExt 1)
      else if String.eqb m "manual_seed" then Ret (VExt 3)
      else Ret VNone
  | RGetAttr _ a =>
      if String.eqb a "images" then Ret (VList [VExt 50; VExt 51]) else Ret (VExt 2)
  | RCall _ [] _ => Ret (VExt 4)
  | RCall _ [_] _ => Ret (VExt 6)
  | _ => Ret VNone
  end.

(** The demo state after one request. *)
Definition later_state : state :=
  log (RShell "pip install diffusers[training]", Ret VNone) demo_state.

(** ** Where the notebook lets the libraries write

    The methods that create a file or a directory at the path they are
    given: os.makedirs, Image.save and save_pretrained. *)
Definition writing_methods : list string := ["makedirs"; "save"; "save_pretrained"].

(** The paths that a request hands over to be written at, each with what it
    is handed to: the first argument of a writing method, and the
    project_dir of a call, under which the trackers of an Accelerator log. *)
Definition writes (r : request) : list (string * value) :=
  match r with
  | RMethod _ m _ args _ =>
      if bool_decide (m ∈ writing_methods) then (λ path, (m, path)) <$> take 1 args else []
  | RCall _ _ kw =>
      if bool_decide ("project_dir" ∈ kw.*1)
      then [("project_dir", default VNone (assoc "project_dir" kw))]
      else []
  | _ => []
  end.

Definition written (evs : list event) : list (string * value) :=
  flat_map (λ ev, writes ev.1) evs.

Definition writes_within (permitted : list (string * value)) (r : request) : Prop :=
  Forall (λ w, w ∈ permitted) (writes r).

(** What evaluate may write for epoch [e], and what train_loop may, when
    the output directory is [d]. *)
Definition evaluate_writes (d : string) (e : Z) : list (string * value) :=
  [("makedirs", VStr (posix_join d "test_images")); ("save", VStr (grid_file d e))].

Definition train_loop_writes (d : string) : list (string * value) :=
  [("project_dir", VStr (posix_join d "logs")); ("makedirs", VStr d);
   ("save_pretrained", VStr d)].

(** The frame of a function that writes only at [permitted] and rebinds
    neither the locals [names] nor os. *)
Definition writing (permitted : list (string * value)) (names : list string) : frame :=
  mkFrame (writes_within permitted) [] [] [] names ["os"].

(** The writes that the specification names: the grid files and the model
    checkpoint. *)
Definition claimed_write (w : string * value) : bool :=
  String.eqb w.1 "save" || String.eqb w.1 "save_pretrained".

(** The shell commands of the notebook. *)
Definition shell_commands (cells : list cell) : list string :=
  omap (λ c, match c with Shell cmd => Some cmd | _ => None end) cells.

(** The code outside evaluate and train_loop. *)
Definition other_sources : list (list string) :=
  [ Source.src_config; Source.src_load_dataset; Source.src_show_images;
    Source.src_preprocess; Source.src_transform; Source.src_dataloader; Source.src_model;
    Source.src_check_shapes; Source.src_scheduler; Source.src_loss; Source.src_optimizer;
    Source.src_launch; Source.src_show_result ].

Definition other_tokens : list PySyntax.token := concat (Static.tokens <$> other_sources).

Section Rules.
Variable W : world.

Lemma hoare_bind {A B} (P : state → Prop) (m : M A) (k : A → M B)
    (Q : A → state → Prop) (R : B → state → Prop) (E : state → Prop) :
  hoare P m Q E → (∀ a, hoare (Q a) (k a) R E) → hoare P (m ≫= k) R E.
Proof.
  intros Hm Hk s Hs. unfold mbind, M_bind, bind.
  specialize (Hm s Hs). destruct (m s) as [[a|e] s']; [by apply Hk | done].
Qed.

Lemma hoare_weaken {A} (P : state → Prop) (m : M A) (Q Q' : A → state → Prop)
    (E E' : state → Prop) :
  hoare P m Q E → (∀ a s, Q a s → Q' a s) → (∀ s, E s → E' s) → hoare P m Q' E'.
Proof.
  intros Hm HQ HE s Hs. specialize (Hm s Hs).
  destruct (m s) as [[a|e] s']; auto.
Qed.

Lemma keeps_bind {A B} (I : state → Prop) (m : M A) (k : A → M B) :
  keeps I m → (∀ a, keeps I (k a)) → keeps I (m ≫= k).
Proof. intros. by eapply hoare_bind. Qed.

Lemma fails_keeps {A} (I : state → Prop) (m : M A) : fails I m → keeps I m.
Proof. intros H. eapply hoare_weaken; [exact H | done | done]. Qed.

Lemma fails_bind_l {A B} (I : state → Prop) (m : M A) (k : A → M B) :
  fails I m → fails I (m ≫= k).
Proof. intros H. eapply hoare_bind; [exact H | intros a s []]. Qed.

Lemma fails_bind_r {A B} (I : state → Prop) (m : M A) (k : A → M B) :
  keeps I m → (∀ a, fails I (k a)) → fails I (m ≫= k).
Proof. intros. by eapply hoare_bind. Qed.

Lemma keeps_run {A} (I : state → Prop) (m : M A) (s : state) :
  keeps I m → I s → I (m s).2.
Proof. intros H Hs. specialize (H s Hs). by destruct (m s) as [[a|e] s']. Qed.

Lemma fails_run {A} (I : state → Prop) (m : M A) (s : state) :
  fails I m → I s → ∃ e, (m s).1 = Exc e.
Proof. intros H Hs. specialize (H s Hs). destruct (m s) as [[a|e] s']; [done | by exists e]. Qed.

Lemma keeps_ret {A} (I : state → Prop) (a : A) : keeps I (ret a).
Proof. by intros s Hs. Qed.

Lemma keeps_mret {A} (I : state → Prop) (a : A) : keeps I (mret a).
Proof. by intros s Hs. Qed.

Lemma keeps_raise {A} (I : state → Prop) (e : exn) : keeps I (@raise A e).
Proof. by intros s Hs. Qed.

Lemma fails_raise {A} (I : state → Prop) (e : exn) : fails I (@raise A e).
Proof. by intros s Hs. Qed.

Lemma keeps_L (I : state → Prop) (x : string) : keeps I (L x).
Proof. intros s Hs. unfold L. by destruct (locals s !! x). Qed.

Lemma keeps_G (I : state → Prop) (x : string) : keeps I (G x).
Proof.
  intros s Hs. unfold G. destruct (globals s !! x); [done|]. by case_bool_decide.
Qed.

Lemma keeps_for_each {A} (I : state → Prop) (l : list A) (body : A → M unit) :
  (∀ x, keeps I (body x)) → keeps I (for_each l body).
Proof.
  intros Hb. induction l as [|x l IH]; simpl; [apply keeps_ret|].
  apply keeps_bind; [apply Hb | intros; apply IH].
Qed.

Lemma keeps_mapM {A B} (I : state → Prop) (f : A → M B) (l : list A) :
  (∀ x, keeps I (f x)) → keeps I (mapM f l).
Proof.
  intros Hf. induction l as [|x l IH]; simpl; [apply keeps_ret|].
  apply keeps_bind; [apply Hf | intros y].
  apply keeps_bind; [apply IH | intros; apply keeps_mret].
Qed.

Section Frame.
Variables (F : frame) (s0 : state).

Lemma inv_log (s : state) (r : request) (rep : reply) :
  allowed F r → inv F s0 s → inv F s0 (log (r, rep) s).
Proof.
  intros Hr ([new [Hh Hn]] & Hl & Hg & Ha & Hkl & Hkg). repeat split; try done.
  exists (new ++ [(r, rep)]). simpl. rewrite Hh, <- app_assoc. split; [done|].
  apply Forall_app. split; [done|]. by constructor.
Qed.

Lemma keeps_ask (r : request) :
  allowed F r → keeps (inv F s0) (ask W r).
Proof.
  intros Hr s Hs. unfold ask. destruct (W (hist s) r); by apply inv_log.
Qed.

Lemma keeps_setL (x : string) (v : value) :
  bool_decide (x ∈ unbound_locals F ++ kept_locals F) = false →
  keeps (inv F s0) (setL x v).
Proof.
  intros Hx%bool_decide_eq_false s (Hh & Hl & Hg & Ha & Hkl & Hkg).
  rewrite elem_of_app in Hx. repeat split; try done.
  - intros y Hy. simpl. rewrite lookup_insert_ne; [by apply Hl | intros ->; apply Hx; by left].
  - intros y Hy. simpl. rewrite lookup_insert_ne; [by apply Hkl | intros ->; apply Hx; by right].
Qed.

Lemma keeps_setG (x : string) (v : value) :
  bool_decide (x ∈ unbound_globals F ++ kept_globals F) = false →
  keeps (inv F s0) (setG x v).
Proof.
  intros Hx%bool_decide_eq_false s (Hh & Hl & Hg & Ha & Hkl & Hkg).
  rewrite elem_of_app in Hx. repeat split; try done.
  - intros y Hy. simpl. rewrite lookup_insert_ne; [by apply Hg | intros ->; apply Hx; by left].
  - intros y Hy. simpl. rewrite lookup_insert_ne; [by apply Hkg | intros ->; apply Hx; by right].
Qed.

Lemma keeps_getattr (o : value) (a : string) :
  allowed F (RGetAttr o a) → keeps (inv F s0) (getattr W o a).
Proof.
  intros Ha. destruct o; simpl; try (by apply keeps_ask); try apply keeps_ret.
  intros s Hs. by destruct (heap s !! l ≫= _).
Qed.

Lemma keeps_setattr (o : value) (a : string) (v : value) :
  allowed F (RCall (VLib "builtins.setattr") [o; VStr a; v] []) →
  bool_decide (a ∈ assignable F) = true →
  keeps (inv F s0) (setattr W o a v).
Proof.
  intros Hc Ha%bool_decide_eq_true.
  destruct o; simpl;
    try (apply keeps_bind; [by apply keeps_ask | intros; apply keeps_ret]).
  intros s (Hh & Hl & Hg & Hattr & Hkl & Hkg). repeat split; try done.
  intros l' a' Ha'. simpl. rewrite <- Hattr by done. unfold attr_of.
  destruct (decide (l = l')) as [->|Hne].
  - rewrite lookup_insert_eq. simpl. rewrite lookup_insert_ne by congruence.
    by destruct (heap s !! l').
  - by rewrite lookup_insert_ne.
Qed.

Lemma keeps_getitem (o k : value) :
  allowed F (RGetItem o k) → keeps (inv F s0) (getitem W o k).
Proof.
  intros Ha. unfold getitem.
  destruct o; try (by apply keeps_ask);
    destruct k; try (by apply keeps_ask).
  - destruct (py_index vs z); [apply keeps_ret | apply keeps_raise].
  - destruct (py_index vs z); [apply keeps_ret | apply keeps_raise].
  - destruct (assoc s kvs); [apply keeps_ret | apply keeps_raise].
Qed.

Lemma keeps_call (f : value) (args : list value) (kw : list (string * value)) :
  allowed F (RCall f args kw) → keeps (inv F s0) (call W f args kw).
Proof. intros Ha. by apply keeps_ask. Qed.

Lemma hoare_keywords (kw : list (string * M value)) :
  Forall (λ p, keeps (inv F s0) p.2) kw →
  hoare (inv F s0) (keywords kw) (λ kvs s, kvs.*1 = kw.*1 ∧ inv F s0 s) (inv F s0).
Proof.
  unfold keywords. induction 1 as [|[k e] kw He Hkw IH]; [by intros s Hs|].
  intros s Hs. cbn [mapM snd fst]. unfold mbind, M_bind, bind.
  specialize (He s Hs). simpl in He. destruct (e s) as [[v|x] s1]; [|done].
  cbn [ret]. specialize (IH s1 He).
  destruct (mapM _ kw s1) as [[kvs|x] s2]; [|done].
  destruct IH as [Hk Hs2]. split; [|done]. rewrite !fmap_cons. by f_equal.
Qed.

Lemma keeps_keywords_call (f : value) (args : list value)
    (kw : list (string * M value)) :
  Forall (λ p, keeps (inv F s0) p.2) kw →
  (∀ kvs, kvs.*1 = kw.*1 → allowed F (RCall f args kvs)) →
  keeps (inv F s0) (mapM (λ p, v ← p.2; ret (p.1, v)) kw ≫= call W f args).
Proof.
  intros Hkw Hcall. eapply hoare_bind; [by apply hoare_keywords|].
  intros kvs s [Hk Hs]. revert s Hs.
  change (keeps (inv F s0) (call W f args kvs)). apply keeps_ask. by apply Hcall.
Qed.

Lemma keeps_call_method (o : value) (m : string) (f : value) (args : list value)
    (kw : list (string * value)) :
  allowed F (RMethod o m f args kw) → keeps (inv F s0) (call_method W o m f args kw).
Proof.
  intros Ha. unfold call_method.
  repeat (match goal with
          | |- keeps _ (match ?x with _ => _ end) => destruct x
          end; try (by apply keeps_ask); try apply keeps_ret).
Qed.

Lemma keeps_truthy (v : value) :
  allowed F (RTruth v) → keeps (inv F s0) (truthy W v).
Proof.
  intros Ha. destruct v; simpl; try apply keeps_ret.
  all: apply keeps_bind; [by apply keeps_ask | intros r].
  all: destruct r; try apply keeps_ret; apply keeps_raise.
Qed.

Lemma keeps_iterate (v : value) :
  allowed F (RIter v) → keeps (inv F s0) (iterate W v).
Proof.
  intros Ha. destruct v; simpl; try apply keeps_ret.
  all: apply keeps_bind; [by apply keeps_ask | intros r].
  all: destruct r; try apply keeps_ret; apply keeps_raise.
Qed.

Lemma keeps_format_value (v : value) (spec : string) :
  allowed F (RFormat v spec) → keeps (inv F s0) (format_value W v spec).
Proof.
  intros Ha. unfold format_value.
  assert (keeps (inv F s0)
            (r ← ask W (RFormat v spec);
             match r with
             | VStr s => ret s
             | _ => raise (TypeError "__format__ must return a str")
             end)) as Hlib.
  { apply keeps_bind; [by apply keeps_ask | intros r].
    destruct r; try apply keeps_ret; apply keeps_raise. }
  destruct v; try done.
  - repeat case_match; try done; apply keeps_ret.
  - repeat case_match; try done; try apply keeps_ret; apply keeps_raise.
Qed.

Lemma keeps_arith (op : string) (f : Z → Z → M value) (a b : value) :
  allowed F (RBinOp op a b) → (∀ x y, keeps (inv F s0) (f x y)) →
  keeps (inv F s0) (arith W op f a b).
Proof.
  intros Ha Hf. unfold arith.
  destruct a; try (by apply keeps_ask); destruct b; try (by apply keeps_ask).
  apply Hf.
Qed.

Lemma keeps_guarded (c : value) (body : M unit) :
  (∀ x, allowed F (RExit c x)) → (∀ r, allowed F (RTruth r)) →
  keeps (inv F s0) body → keeps (inv F s0) (guarded W c body).
Proof.
  intros He Ht Hb s Hs. unfold guarded. specialize (Hb s Hs).
  destruct (body s) as [[[]|x] s'].
  - revert s' Hb. change (keeps (inv F s0) (ask W (RExit c None);; ret tt)).
    apply keeps_bind; [by apply keeps_ask | intros; apply keeps_ret].
  - revert s' Hb.
    change (keeps (inv F s0)
              (r ← ask W (RExit c (Some x)); t ← truthy W r;
               if t : bool then ret tt else raise x)).
    apply keeps_bind; [by apply keeps_ask | intros r].
    apply keeps_bind; [by apply keeps_truthy | intros [|]];
      [apply keeps_ret | apply keeps_raise].
Qed.

Lemma keeps_scoped (x : string) (m : M (list value)) :
  bool_decide (x ∈ unbound_locals F ++ kept_locals F) = false →
  keeps (inv F s0) m → keeps (inv F s0) (scoped x m).
Proof.
  intros Hx%bool_decide_eq_false Hm s Hs. unfold scoped. specialize (Hm s Hs).
  destruct (m s) as [[rs|e] s']; [|done]. rewrite elem_of_app in Hx.
  destruct Hm as (Hh & Hl & Hg & Ha & Hkl & Hkg). repeat split; try done.
  - intros y Hy. simpl. destruct (locals s !! x).
    + rewrite lookup_insert_ne; [by apply Hl | intros ->; apply Hx; by left].
    + rewrite lookup_delete_ne; [by apply Hl | intros ->; apply Hx; by left].
  - intros y Hy. simpl. destruct (locals s !! x).
    + rewrite lookup_insert_ne; [by apply Hkl | intros ->; apply Hx; by right].
    + rewrite lookup_delete_ne; [by apply Hkl | intros ->; apply Hx; by right].
Qed.

Lemma keeps_invoke (params : list string) (body : M value) (args : list value) :
  bool_decide (Forall (λ x, x ∉ params) (unbound_locals F)) = true →
  kept_locals F = [] →
  keeps (inv F s0) body → keeps (inv F s0) (invoke params body args).
Proof.
  intros Hp%bool_decide_eq_true Hk Hb s Hs. unfold invoke.
  case_bool_decide as Hlen; [|done].
  assert (inv F s0 (set_locals (λ _, list_to_map (zip params args)) s)) as Hs1.
  { destruct Hs as (Hh & Hl & Hg & Ha & Hkl & Hkg). repeat split; try done.
    - intros y Hy. simpl. apply not_elem_of_list_to_map_1.
      rewrite Forall_forall in Hp. intros Hin. apply (Hp y Hy).
      rewrite fst_zip in Hin by lia. done.
    - rewrite Hk. by intros y ?%elem_of_nil. }
  specialize (Hb _ Hs1). destruct (body _) as [[v|e] s']; [|done].
  destruct Hb as (Hh & Hl & Hg & Ha & Hkl & Hkg).
  destruct Hs as (_ & Hl0 & _ & _ & Hkl0 & _).
  repeat split; try done.
Qed.

Lemma keeps_assign_all (set : string → value → M unit) (l : list (string * value))
    (ok : string → Prop) :
  (∀ x v, ok x → keeps (inv F s0) (set x v)) →
  Forall (λ p, ok p.1) l →
  keeps (inv F s0) (for_each l (λ p, set p.1 p.2)).
Proof.
  intros Hset Hl. induction Hl as [|p l Hp Hl IH]; simpl; [apply keeps_ret|].
  apply keeps_bind; [by apply Hset | intros; apply IH].
Qed.

Lemma Forall_zip_fst (ok : string → Prop) (xs : list string) (vs : list value) :
  Forall ok xs → Forall (λ p, ok p.1) (zip xs vs).
Proof.
  intros Hxs. revert vs. induction Hxs as [|x xs Hx Hxs IH]; intros [|v vs]; simpl;
    constructor; auto.
Qed.

Lemma keeps_unpackL (xs : list string) (v : value) :
  allowed F (RIter v) →
  bool_decide (Forall (λ x, x ∉ unbound_locals F ++ kept_locals F) xs) = true →
  keeps (inv F s0) (unpack W setL xs v).
Proof.
  intros Hi Hxs%bool_decide_eq_true. unfold unpack.
  apply keeps_bind; [by apply keeps_iterate | intros vs].
  case_bool_decide; [|apply keeps_raise].
  apply keeps_assign_all with (ok := λ x, x ∉ unbound_locals F ++ kept_locals F).
  - intros x w Hx. apply keeps_setL. by apply bool_decide_eq_false.
  - by apply (Forall_zip_fst (λ x, x ∉ unbound_locals F ++ kept_locals F)).
Qed.

Lemma keeps_unpackG (xs : list string) (v : value) :
  allowed F (RIter v) →
  bool_decide (Forall (λ x, x ∉ unbound_globals F ++ kept_globals F) xs) = true →
  keeps (inv F s0) (unpack W setG xs v).
Proof.
  intros Hi Hxs%bool_decide_eq_true. unfold unpack.
  apply keeps_bind; [by apply keeps_iterate | intros vs].
  case_bool_decide; [|apply keeps_raise].
  apply keeps_assign_all with (ok := λ x, x ∉ unbound_globals F ++ kept_globals F).
  - intros x w Hx. apply keeps_setG. by apply bool_decide_eq_false.
  - by apply (Forall_zip_fst (λ x, x ∉ unbound_globals F ++ kept_globals F)).
Qed.

Lemma keeps_functions (name : string) (g : list value → M value) (vs : list value) :
  functions W name = Some g →
  (∀ args, keeps (inv F s0) (transform W args)) →
  (∀ args, keeps (inv F s0) (evaluate W args)) →
  (∀ args, keeps (inv F s0) (train_loop W args)) →
  keeps (inv F s0) (g vs).
Proof.
  unfold functions. intros Hg Ht He Hl.
  repeat case_match; simplify_eq; auto.
Qed.

Lemma keeps_shell (cmd : string) :
  allowed F (RShell cmd) → keeps (inv F s0) (shell W cmd).
Proof. intros Ha s Hs. unfold shell. by apply inv_log. Qed.

Lemma keeps_run_cell (c : cell) :
  (∀ cmd, allowed F (RShell cmd)) →
  (∀ src m, c = Code src (Some m) → keeps (inv F s0) m) →
  keeps (inv F s0) (run_cell W c).
Proof.
  intros Hs Hc. destruct c as [|cmd|src [m|]]; simpl.
  - apply keeps_ret.
  - by apply keeps_shell.
  - destruct (PySyntax.syntax_error src); [apply keeps_raise | by eapply Hc].
  - destruct (PySyntax.syntax_error src); apply keeps_raise.
Qed.

Lemma fails_L (x : string) :
  bool_decide (x ∈ unbound_locals F) = true → fails (inv F s0) (L x).
Proof.
  intros Hx%bool_decide_eq_true s Hs. unfold L.
  destruct Hs as (Hh & Hl & Hg & Ha & Hkl & Hkg). by rewrite (Hl x Hx).
Qed.

Lemma fails_G (x : string) :
  bool_decide (x ∈ unbound_globals F) = true → bool_decide (x ∈ builtins) = false →
  fails (inv F s0) (G x).
Proof.
  intros Hx%bool_decide_eq_true Hb s Hs. unfold G.
  destruct Hs as (Hh & Hl & Hg & Ha & Hkl & Hkg). by rewrite (Hg x Hx), Hb.
Qed.
End Frame.
End Rules.

(** ** Proof automation: one rule per construct *)

Ltac unfold_py :=
  unfold Assign, AssignG, SetAttr, Expr, Pass, If_, For, With, Attr, Idx, Call, MCall,
    MCallKw, CallKw, Tuple, PList, Dict, keywords, Add, Sub, Mul, Mod, Eq, Or, Not,
    IsNotNone, Fstr, Range, Enumerate, Iter, ListComp, FromImport, ImportAs,
    Int, Flt, Str, PNone, PTrue, PFalse, py_add, py_sub, py_mul, py_mod, py_eq.

Ltac fails_hook := fail.

Ltac unfold_functions :=
  unfold transform, evaluate, train_loop, transform_body, evaluate_body, train_loop_body,
    train_epochs, train_setup, train_save, epoch_body, batch_body, accumulate_body.

(** [ks] proves that a piece of code stays within a frame: construct by
    construct, and, where a construct would leave the frame, by showing that
    an operand before it is certain to raise. *)
(** [within] checks that a request is one the frame allows. *)
Ltac within :=
  intros;
  first [ reflexivity
        | exact I
        | solve [constructor]
        | match goal with
          | H : _.*1 = _ |- _ => hnf; unfold writes; rewrite H; solve [constructor]
          end ].

Ltac ks :=
  lazymatch goal with
  | H : functions _ _ = Some ?g |- keeps _ (?g _) =>
      apply (keeps_functions _ _ _ _ _ _ H); intros ?; unfold_functions; unfold_py; ks
  | |- keeps _ (mbind _ (mapM _ _)) =>
      first [ apply keeps_keywords_call;
                [ repeat (apply List.Forall_cons; [cbn [snd]; ks|]); apply List.Forall_nil
                | intros ? ?; within ]
            | apply keeps_bind; [ ks | intros ?; ks ]
            | apply fails_keeps; fails_hook ]
  | |- keeps _ (mbind _ _) =>
      first [ apply keeps_bind; [ ks | intros ?; ks ]
            | apply fails_keeps; fails_hook ]
  | |- keeps _ (ret _) => apply keeps_ret
  | |- keeps _ (mret _) => apply keeps_mret
  | |- keeps _ (raise _) => apply keeps_raise
  | |- keeps _ (L _) => apply keeps_L
  | |- keeps _ (G _) => apply keeps_G
  | |- keeps _ (ask _ _) => apply keeps_ask; within
  | |- keeps _ (setL _ _) => apply keeps_setL; reflexivity
  | |- keeps _ (setG _ _) => apply keeps_setG; reflexivity
  | |- keeps _ (getattr _ _ _) => apply keeps_getattr; within
  | |- keeps _ (setattr _ _ _ _) => apply keeps_setattr; within
  | |- keeps _ (getitem _ _ _) => apply keeps_getitem; within
  | |- keeps _ (call _ _ _ _) => apply keeps_call; within
  | |- keeps _ (call_method _ _ _ _ _ _) => apply keeps_call_method; within
  | |- keeps _ (truthy _ _) => apply keeps_truthy; within
  | |- keeps _ (iterate _ _) => apply keeps_iterate; within
  | |- keeps _ (format_value _ _ _) => apply keeps_format_value; within
  | |- keeps _ (arith _ _ _ _ _) => apply keeps_arith; [within | intros ? ?; ks]
  | |- keeps _ (unpack _ setL _ _) => apply keeps_unpackL; within
  | |- keeps _ (unpack _ setG _ _) => apply keeps_unpackG; within
  | |- keeps _ (for_each _ _) => apply keeps_for_each; intros ?; ks
  | |- keeps _ (mapM _ (_ :: _)) => cbn [mapM]; ks
  | |- keeps _ (mapM _ []) => cbn [mapM]; ks
  | |- keeps _ (mapM _ _) => apply keeps_mapM; intros ?; ks
  | |- keeps _ (guarded _ _ _) => apply keeps_guarded; [within | within | ks]
  | |- keeps _ (scoped _ _) => apply keeps_scoped; [reflexivity | ks]
  | |- keeps _ (invoke _ _ _) => apply keeps_invoke; [reflexivity | reflexivity | ks]
  | |- keeps _ (match ?x with _ => _ end) => destruct x eqn:?; ks
  | |- keeps _ (id _) => unfold id; ks
  | |- keeps _ (accumulate_body _) => unfold accumulate_body; unfold_py; ks
  | |- keeps _ (batch_body _) => unfold batch_body; unfold_py; ks
  | |- keeps _ _ => progress cbn beta iota delta [fst snd]; ks
  end.

Ltac ksolve := unfold Launch; unfold_py; ks.

(** [fsolve] looks for the operand that is certain to raise. *)
Ltac fsolve :=
  lazymatch goal with
  | |- fails _ (mbind _ _) =>
      first [ apply fails_bind_l; fsolve
            | apply fails_bind_r; [ ks | intros ?; fsolve ] ]
  | |- fails _ (L _) => apply fails_L; reflexivity
  | |- fails _ (G _) => apply fails_G; reflexivity
  | |- fails _ (raise _) => apply fails_raise
  | |- fails _ (mapM _ (_ :: _)) => cbn [mapM]; fsolve
  | |- fails _ (id _) => unfold id; fsolve
  | |- fails _ _ => progress cbn beta iota delta [fst snd]; fsolve
  end.

Ltac fails_hook ::= fsolve.

(** ** Facts about frames and about train_loop *)
Section Facts.
Variable W : world.

Lemma inv_start F s :
  (∀ x, x ∈ unbound_locals F → locals s !! x = None) →
  (∀ x, x ∈ unbound_globals F → globals s !! x = None) →
  inv F s s.
Proof.
  intros Hl Hg. repeat split; try done. exists []. by rewrite app_nil_r.
Qed.

Lemma inv_events F s0 s :
  inv F s0 s → Forall (λ ev, allowed F ev.1) (events_from s0 s).
Proof.
  intros ([new [Hh Hn]] & _). unfold events_from. by rewrite Hh, drop_app_length.
Qed.

Lemma avoiding_events names locs globs s0 s :
  inv (avoiding names locs globs) s0 s →
  Forall (λ ev, asks names ev.1 = false) (events_from s0 s).
Proof.
  intros H%inv_events. exact H.
Qed.

Lemma inv_set_locals F s0 s fr :
  (∀ x, x ∈ unbound_locals F → fr !! x = None) → kept_locals F = [] →
  inv F s0 s → inv F s0 (set_locals (λ _, fr) s).
Proof.
  intros Hf Hk (Hh & Hl & Hg & Ha & Hkl & Hkg). repeat split; try done.
  rewrite Hk. by intros x ?%elem_of_nil.
Qed.

Lemma events_from_set_locals s s' f :
  events_from (set_locals f s) s' = events_from s s'.
Proof. done. Qed.

(** *** The accumulate block *)

Lemma accumulate_raises s v :
  globals s !! "noisy_images" = None → locals s !! "model" = Some v →
  accumulate_body W s = (Exc (NameError "noisy_images"), s).
Proof.
  intros Hg Hl. unfold accumulate_body. unfold_py.
  unfold mbind, M_bind, bind, L, G. cbn [mapM]. unfold mbind, M_bind, bind, id, L, G.
  by rewrite Hl, Hg.
Qed.

Section Step.
Variable s0 : state.


Lemma accumulate_fails : fails (inv step_frame s0) (accumulate_body W).
Proof. unfold accumulate_body. unfold_py. fsolve. Qed.

Lemma epoch_fails : fails (inv step_frame s0) (epoch_body W).
Proof. unfold epoch_body, batch_body, accumulate_body. unfold_py. fsolve. Qed.

Lemma train_loop_body_never_steps : keeps (inv step_frame s0) (train_loop_body W).
Proof.
  unfold train_loop_body, train_epochs, train_setup, train_save, epoch_body, batch_body,
    accumulate_body.
  ksolve.
Qed.
End Step.

Lemma run_invoke params body args s :
  length args = length params →
  invoke params body args s =
    match body (set_locals (λ _, list_to_map (zip params args)) s) with
    | (Ok v, s') => (Ok v, set_locals (λ _, locals s) s')
    | (Exc e, s') => (Exc e, s')
    end.
Proof. intros H. unfold invoke. by rewrite bool_decide_eq_true_2. Qed.

Lemma frame_lookup_None (params : list string) (args : list value) (x : string) :
  x ∉ params → (list_to_map (zip params args) : gmap string value) !! x = None.
Proof.
  intros Hx. apply not_elem_of_list_to_map_1. intros Hin. apply Hx.
  apply list_elem_of_fmap in Hin as [[y v] [-> Hin]]. by apply elem_of_zip_l in Hin.
Qed.

(** What a call of a notebook function leaves in the history is what its
    body leaves, run in the frame of its arguments. *)
Lemma invoke_events params body args s (P : event → Prop) :
  (let s1 := set_locals (λ _, list_to_map (zip params args)) s in
   Forall P (events_from s1 (body s1).2)) →
  Forall P (events_from s (invoke params body args s).2).
Proof.
  intros Hb. unfold invoke. case_bool_decide.
  - simpl in Hb. rewrite events_from_set_locals in Hb.
    by destruct (body _) as [[v|e] s'].
  - unfold events_from. simpl. by rewrite drop_all.
Qed.
End Facts.

Section TrainLoop.
Variable W : world.

Lemma train_loop_avoids (names : list string) (args : list value) (s : state) :
  (∀ s0, keeps (inv (avoiding names [] []) s0) (train_loop_body W)) →
  Forall (λ ev, asks names ev.1 = false) (events_from s (train_loop W args s).2).
Proof.
  intros Hk. apply invoke_events. intros s1.
  apply (avoiding_events names [] []). apply keeps_run; [apply Hk|].
  apply inv_start; intros x Hx; by apply elem_of_nil in Hx.
Qed.

Lemma train_loop_never_steps (args : list value) (s : state) :
  globals s !! "noisy_images" = None →
  Forall (λ ev, asks training_methods ev.1 = false)
    (events_from s (train_loop W args s).2).
Proof.
  intros Hg. apply invoke_events. intros s1.
  apply (avoiding_events training_methods ["loss"] ["noisy_images"]).
  apply keeps_run; [apply train_loop_body_never_steps|].
  apply inv_start.
  - intros x ->%list_elem_of_singleton. apply frame_lookup_None.
    by apply (bool_decide_eq_false_1 ("loss" ∈ _)).
  - by intros x ->%list_elem_of_singleton.
Qed.

Lemma epoch_never_completes (s : state) :
  globals s !! "noisy_images" = None → locals s !! "loss" = None →
  ∃ e, (epoch_body W s).1 = Exc e.
Proof.
  intros Hg Hl. apply (fails_run (inv step_frame s)); [apply epoch_fails|].
  apply inv_start; by intros x ->%list_elem_of_singleton.
Qed.
End TrainLoop.

(** C6. While the notebook's name space has no noisy_images (and none of its
    cells ever binds that name), the body of the with-block raises
    NameError for noisy_images before it makes a single request, so the
    model is not called; no run of train_loop ever asks for the loss, for
    backpropagation, or for an optimizer or scheduler step; and no pass
    through the body of the epoch loop returns. *)
Theorem C6_accumulate_block_raises_NameError (W : world) (s : state) :
  globals s !! "noisy_images" = None →
  (∀ v, locals s !! "model" = Some v →
        accumulate_body W s = (Exc (NameError "noisy_images"), s))
  ∧ (∀ args, Forall (λ ev, asks training_methods ev.1 = false)
               (events_from s (train_loop W args s).2))
  ∧ (locals s !! "loss" = None → ∃ e, (epoch_body W s).1 = Exc e).
Proof.
  intros Hg. split; [|split].
  - intros v Hv. by apply accumulate_raises with v.
  - intros args. by apply train_loop_never_steps.
  - intros Hl. by apply epoch_never_completes.
Qed.

Lemma C6_witness :
  globals demo_state !! "noisy_images" = None
  ∧ (∀ v, locals demo_state !! "model" = Some v →
          accumulate_body (demo_world 2) demo_state
          = (Exc (NameError "noisy_images"), demo_state))
  ∧ (∀ args, Forall (λ ev, asks training_methods ev.1 = false)
               (events_from demo_state (train_loop (demo_world 2) args demo_state).2))
  ∧ (locals demo_state !! "loss" = None →
     ∃ e, (epoch_body (demo_world 2) demo_state).1 = Exc e).
Proof.
  split; [reflexivity|].
  apply (C6_accumulate_block_raises_NameError (demo_world 2) demo_state).
  reflexivity.
Defined.

(** ** The epoch loop never gets through an epoch *)
Section Epochs.
Variable W : world.
Variable s0 : state.

Lemma inv_weaken (names : list string) (s : state) :
  inv (before_epochs names) s0 s → inv (in_epochs names) s0 s.
Proof.
  intros (Hh & Hl & Hg & Ha & Hkl & Hkg). repeat split; try done.
  intros x ->%list_elem_of_singleton. apply Hl. set_unfold. tauto.
Qed.

Lemma first_epoch_fails (v : value) :
  fails (inv (in_epochs never_saved) s0) (setL "epoch" v;; epoch_body W).
Proof. unfold epoch_body, batch_body, accumulate_body. unfold_py. fsolve. Qed.

Lemma epochs_done_or_failed (vs : list value) :
  hoare (inv (before_epochs never_saved) s0)
    (for_each vs (λ v, setL "epoch" v;; epoch_body W))
    (λ _, inv (before_epochs never_saved) s0)
    (inv (in_epochs never_saved) s0).
Proof.
  destruct vs as [|v vs]; [by intros s Hs|].
  simpl. eapply hoare_bind with (Q := λ _ _, False).
  - intros s Hs%inv_weaken. by apply first_epoch_fails.
  - intros _ s [].
Qed.

Lemma range_keeps : keeps (inv (before_epochs never_saved) s0)
                      (Range W (Attr W (L "config") "num_epochs")).
Proof. ksolve. Qed.

Lemma train_epochs_spec :
  hoare (inv (before_epochs never_saved) s0) (train_epochs W)
    (λ _, inv (before_epochs never_saved) s0)
    (inv (in_epochs never_saved) s0).
Proof.
  unfold train_epochs.
  apply hoare_bind with (Q := λ _, inv (before_epochs never_saved) s0).
  { apply hoare_weaken with (Q := λ _, inv (before_epochs never_saved) s0)
                            (E := inv (before_epochs never_saved) s0).
    - change (keeps (inv (before_epochs never_saved) s0) (train_setup W)).
      unfold train_setup. ksolve.
    - auto.
    - intros s. apply inv_weaken. }
  intros _. unfold For.
  apply hoare_bind with (Q := λ _, inv (before_epochs never_saved) s0).
  { apply hoare_weaken with (Q := λ _, inv (before_epochs never_saved) s0)
                            (E := inv (before_epochs never_saved) s0).
    - apply range_keeps.
    - auto.
    - intros s. apply inv_weaken. }
  intros vs. apply epochs_done_or_failed.
Qed.

Lemma train_save_unreached :
  keeps (inv (before_epochs never_saved) s0) (train_save W;; ret VNone).
Proof. unfold train_save. ksolve. Qed.

Lemma train_loop_body_never_saves :
  hoare (inv (before_epochs never_saved) s0) (train_loop_body W)
    (λ _, inv (in_epochs never_saved) s0) (inv (in_epochs never_saved) s0).
Proof.
  unfold train_loop_body.
  apply hoare_bind with (Q := λ _, inv (before_epochs never_saved) s0);
    [apply train_epochs_spec|].
  intros u.
  apply hoare_weaken with (Q := λ _, inv (before_epochs never_saved) s0)
                          (E := inv (before_epochs never_saved) s0).
  - apply train_save_unreached.
  - intros _ s. apply inv_weaken.
  - intros s. apply inv_weaken.
Qed.
End Epochs.

Section NoEvaluation.
Variable W : world.

Lemma train_loop_body_never_evaluates (s0 : state) :
  keeps (inv (avoiding evaluation_methods [] []) s0) (train_loop_body W).
Proof.
  unfold train_loop_body, train_epochs, train_setup, train_save, epoch_body, batch_body,
    accumulate_body.
  ksolve.
Qed.

Lemma train_epochs_never_saves (s0 : state) :
  keeps (inv (avoiding never_saved [] []) s0) (train_epochs W).
Proof.
  unfold train_epochs, train_setup, epoch_body, batch_body, accumulate_body. ksolve.
Qed.

Lemma train_loop_never_saves (args : list value) (s : state) :
  globals s !! "noisy_images" = None →
  Forall (λ ev, asks never_saved ev.1 = false) (events_from s (train_loop W args s).2).
Proof.
  intros Hg. apply invoke_events. intros s1.
  apply (avoiding_events never_saved ["loss"] ["noisy_images"]).
  assert (inv (before_epochs never_saved) s1 s1) as Hs1.
  { apply inv_start.
    - intros x Hx. apply frame_lookup_None.
      apply elem_of_cons in Hx as [->|Hx];
        [by apply (bool_decide_eq_false_1 ("loss" ∈ _))|].
      apply list_elem_of_singleton in Hx as ->.
      by apply (bool_decide_eq_false_1 ("epoch" ∈ _)).
    - by intros x ->%list_elem_of_singleton. }
  pose proof (train_loop_body_never_saves W s1 s1 Hs1) as H.
  by destruct (train_loop_body W s1) as [[v|e] s'].
Qed.
End NoEvaluation.

(** C3. No run of train_loop ever asks for what evaluate does (seeding a
    generator, the sampled images, saving a grid), and the set-up and the
    epoch loop together never ask for save_pretrained: the block that saves
    stands after the loop.  With noisy_images unbound, as the notebook leaves
    it, that block is not reached either, and nothing is saved at all. *)
Theorem C3_train_loop_never_evaluates_nor_saves_in_the_loop (W : world) (s : state) :
  (∀ args, Forall (λ ev, asks evaluation_methods ev.1 = false)
             (events_from s (train_loop W args s).2))
  ∧ Forall (λ ev, asks never_saved ev.1 = false)
      (events_from s (train_epochs W s).2)
  ∧ (globals s !! "noisy_images" = None →
     ∀ args, Forall (λ ev, asks never_saved ev.1 = false)
               (events_from s (train_loop W args s).2)).
Proof.
  split; [|split].
  - intros args. apply train_loop_avoids. apply train_loop_body_never_evaluates.
  - apply (avoiding_events _ [] []). apply keeps_run; [apply train_epochs_never_saves|].
    apply inv_start; intros x Hx; by apply elem_of_nil in Hx.
  - intros Hg args. by apply train_loop_never_saves.
Qed.

(** C1. On the default configuration and a data loader of three batches the
    noise and the timesteps are drawn three times, once per batch, but the
    scheduler's add_noise is called once and the accumulate block is entered
    once, after the batch loop; the run then stops with NameError, and the
    loss, backpropagation, the optimizer step and the logging are never
    asked for. *)
Theorem C1_noising_and_update_run_once_per_epoch :
  let r := train_loop (demo_world 3) demo_args demo_state in
  r.1 = Exc (NameError "noisy_images")
  ∧ method_calls "randn" (hist r.2) = 3%nat
  ∧ method_calls "randint" (hist r.2) = 3%nat
  ∧ method_calls "add_noise" (hist r.2) = 1%nat
  ∧ method_calls "accumulate" (hist r.2) = 1%nat
  ∧ method_calls "mse_loss" (hist r.2) = 0%nat
  ∧ method_calls "backward" (hist r.2) = 0%nat
  ∧ method_calls "step" (hist r.2) = 0%nat
  ∧ method_calls "log" (hist r.2) = 0%nat.
Proof. vm_compute. repeat split; reflexivity. Qed.

(** ** Who assigns attributes of config *)

(** [cell_cases H] splits [H : notebook W !! i = Some c] into one goal per
    cell of the notebook, without computing on the cells. *)
Ltac cell_cases H :=
  unfold notebook in H;
  repeat (match type of H with
          | (_ :: _) !! ?i = Some _ =>
              destruct i; cbn [lookup list_lookup] in H; [injection H as <- | ]
          end).

Section Config.
Variable W : world.

Lemma cell_load_dataset_touches (s0 : state) :
  keeps (inv (touching ["dataset_name"]) s0) (cell_load_dataset W).
Proof. unfold cell_load_dataset. ksolve. Qed.

Lemma other_cells_touch_nothing (s0 : state) (i : nat) (c : cell) :
  notebook W !! i = Some c → i ≠ load_dataset_index →
  keeps (inv (touching []) s0) (run_cell W c).
Proof.
  intros Hc Hi. cell_cases Hc; try discriminate Hc.
  all: try (exfalso; apply Hi; reflexivity).
  all: apply keeps_run_cell; [done|]; intros src m Heq; try discriminate Heq.
  all: inversion Heq; subst.
  all: lazymatch goal with |- keeps _ (?f W) => unfold f end; ksolve.
Qed.

Lemma functions_touch_nothing (s0 : state) (args : list value) :
  keeps (inv (touching []) s0) (transform W args)
  ∧ keeps (inv (touching []) s0) (evaluate W args)
  ∧ keeps (inv (touching []) s0) (train_loop W args).
Proof. repeat split; unfold_functions; ksolve. Qed.

Lemma touching_attrs (attrs : list string) (s0 s : state) (l : nat) (a : string) :
  inv (touching attrs) s0 s → a ∉ attrs → attr_of (heap s) l a = attr_of (heap s0) l a.
Proof. intros (_ & _ & _ & Ha) Hn. by apply Ha. Qed.

Lemma touching_start (attrs : list string) (s : state) : inv (touching attrs) s s.
Proof. apply inv_start; intros x Hx; by apply elem_of_nil in Hx. Qed.
End Config.

(** The state after a run of the cell that loads the dataset, started in
    the sample state, where config is object 0 of the heap. *)
Definition after_load_dataset : state :=
  (run_cell (demo_world 0)
     (Code Source.src_load_dataset (Some (cell_load_dataset (demo_world 0))))
     demo_state).2.

(** C2 as stated fails: the cell that loads the dataset comes after the cell
    that constructs config and assigns config.dataset_name, so config is not
    what it was at construction. *)
Lemma C2_config_is_assigned_after_construction :
  notebook (demo_world 0) !! load_dataset_index
  = Some (Code Source.src_load_dataset (Some (cell_load_dataset (demo_world 0))))
  ∧ attr_of (heap demo_state) 0 "dataset_name" = None
  ∧ attr_of (heap after_load_dataset) 0 "dataset_name"
    = Some (VStr "huggan/smithsonian_butterflies_subset")
  ∧ heap after_load_dataset ≠ heap demo_state.
Proof.
  assert (attr_of (heap after_load_dataset) 0 "dataset_name"
          = Some (VStr "huggan/smithsonian_butterflies_subset")) as Hafter
    by (vm_compute; reflexivity).
  assert (attr_of (heap demo_state) 0 "dataset_name" = None) as Hbefore
    by (vm_compute; reflexivity).
  split; [reflexivity|]. split; [exact Hbefore|]. split; [exact Hafter|].
  intros Heq. rewrite Heq, Hbefore in Hafter. discriminate Hafter.
Qed.

(** C2, amended.  The one assignment to an attribute of config is
    config.dataset_name in the cell that loads the dataset: that cell leaves
    every other attribute of every object as it was, and no other cell, nor
    transform, evaluate or train_loop, changes any attribute at all; every
    other use of config is a read. *)
Theorem C2_only_dataset_name_is_assigned (W : world) (s : state) (l : nat) (a : string) :
  (a ≠ "dataset_name" →
   attr_of (heap (cell_load_dataset W s).2) l a = attr_of (heap s) l a)
  ∧ (∀ i c, notebook W !! i = Some c → i ≠ load_dataset_index →
            attr_of (heap (run_cell W c s).2) l a = attr_of (heap s) l a)
  ∧ (∀ args, attr_of (heap (transform W args s).2) l a = attr_of (heap s) l a
             ∧ attr_of (heap (evaluate W args s).2) l a = attr_of (heap s) l a
             ∧ attr_of (heap (train_loop W args s).2) l a = attr_of (heap s) l a).
Proof.
  split; [|split].
  - intros Ha. apply (touching_attrs ["dataset_name"]).
    + apply keeps_run; [apply cell_load_dataset_touches | apply touching_start].
    + by intros ->%list_elem_of_singleton.
  - intros i c Hc Hi. apply (touching_attrs []); [|apply not_elem_of_nil].
    apply keeps_run; [by eapply other_cells_touch_nothing | apply touching_start].
  - intros args. destruct (functions_touch_nothing W s args) as (Ht & He & Hl).
    repeat split; (apply (touching_attrs []); [|apply not_elem_of_nil]);
      (apply keeps_run; [done | apply touching_start]).
Qed.


(** ** Run All *)
Section RunAll.
Variable W : world.

Lemma config_cell_rejected : PySyntax.syntax_error Source.src_config = true.
Proof. vm_compute. reflexivity. Qed.

Lemma run_all_stops (s : state) :
  run_all W (notebook W) s
  = (Exc SyntaxError,
     log (RShell "pip install diffusers[training]",
          Ret match W (hist s) (RShell "pip install diffusers[training]") with
              | Ret v => v
              | Raise _ => VNone
              end) s).
Proof.
  unfold run_all, notebook.
  cbn [for_each run_cell mbind M_bind bind ret shell].
  by rewrite config_cell_rejected.
Qed.

Lemma completed_seven (s : state) : completed W (notebook W) s = config_index.
Proof.
  unfold notebook. cbn [completed run_cell ret shell].
  by rewrite config_cell_rejected.
Qed.
End RunAll.

(** C4. Python's parser rejects three code cells (the configuration, the
    model and the optimizer cell).  Run All, in any state and whatever the
    libraries do, gets through the seven cells before the configuration cell,
    stops there with SyntaxError, having made the one request of the shell
    escape, and so never reaches the last code cell. *)
Theorem C4_notebook_stops_at_a_syntax_error (W : world) (s : state) :
  rejected_from 0 (notebook W) = [config_index; 21%nat; 29%nat]
  ∧ (run_all W (notebook W) s).1 = Exc SyntaxError
  ∧ length (events_from s (run_all W (notebook W) s).2) = 1%nat
  ∧ completed W (notebook W) s = config_index
  ∧ (config_index < last_code_index)%nat
  ∧ notebook W !! last_code_index
    = Some (Code Source.src_show_result (Some (cell_show_result W))).
Proof.
  split; [vm_compute; reflexivity|].
  rewrite run_all_stops, completed_seven.
  split; [reflexivity|]. split.
  - unfold events_from. simpl. by rewrite drop_app_length.
  - split; [reflexivity|]. split; [unfold config_index, last_code_index; lia | reflexivity].
Qed.

(** ** The configuration record *)

(** The class body written out here has the assignments of the cell's text,
    followed by the assignment of config itself. *)
Lemma TrainingConfig_fields_from_source :
  Static.line_targets (Static.tokens Source.src_config) true
  = TrainingConfig_fields ++ ["config"].
Proof. vm_compute. reflexivity. Qed.

(** C7 as stated fails: gradient_accumulation_steps is a field of
    TrainingConfig and is none of the fields the claim lists. *)
Lemma C7_fields_outside_the_list :
  "gradient_accumulation_steps" ∈ TrainingConfig_fields
  ∧ ("gradient_accumulation_steps" ∉ claimed_fields)
  ∧ length TrainingConfig_fields = 16%nat
  ∧ length claimed_fields = 11%nat.
Proof.
  split. { by apply (bool_decide_eq_true_1 ("gradient_accumulation_steps" ∈ _)). }
  split. { by apply (bool_decide_eq_false_1 ("gradient_accumulation_steps" ∈ _)). }
  split; reflexivity.
Qed.

(** C7, amended.  TrainingConfig is a flat record of sixteen fields: the
    eleven the claim lists (image resolution, the two batch sizes, epoch
    count, learning rate, warm-up steps, the two checkpoint cadences,
    mixed-precision flag, output directory, random seed) and five more:
    gradient_accumulation_steps, push_to_hub, hub_model_id, hub_private_repo
    and overwrite_output_dir.  Every field that has a value has a scalar. *)
Theorem C7_fields_of_TrainingConfig :
  TrainingConfig_fields
  = [ "image_size"; "train_batch_size"; "eval_batch_size"; "num_epochs";
      "gradient_accumulation_steps"; "learning_rate"; "lr_warmup_steps";
      "save_image_epochs"; "save_model_epochs"; "mixed_precision"; "output_dir";
      "push_to_hub"; "hub_model_id"; "hub_private_repo"; "overwrite_output_dir"; "seed" ]
  ∧ Forall (λ f, f ∈ TrainingConfig_fields) claimed_fields
  ∧ unlisted_fields
    = [ "gradient_accumulation_steps"; "push_to_hub"; "hub_model_id"; "hub_private_repo";
        "overwrite_output_dir" ]
  ∧ Forall (λ p, from_option is_scalar true p.2 = true) TrainingConfig_body
  ∧ NoDup TrainingConfig_fields.
Proof.
  split; [reflexivity|]. split.
  { apply (bool_decide_eq_true_1 (Forall _ _)). reflexivity. }
  split; [reflexivity|]. split.
  { apply (bool_decide_eq_true_1 (Forall _ _)). reflexivity. }
  apply (bool_decide_eq_true_1 (NoDup _)). reflexivity.
Qed.

(** ** Running code whose requests are known *)
Section Run.
Variable W : world.

Lemma run_bind {A B} (m : M A) (k : A → M B) (s : state) :
  (m ≫= k) s = match m s with
               | (Ok a, s') => k a s'
               | (Exc e, s') => (Exc e, s')
               end.
Proof. done. Qed.

Lemma run_ret {A} (a : A) (s : state) : ret a s = (Ok a, s).
Proof. done. Qed.

Lemma run_mret {A} (a : A) (s : state) : (mret a : M A) s = (Ok a, s).
Proof. done. Qed.

Lemma run_ask_ret (r : request) (v : value) (s : state) :
  W (hist s) r = Ret v → ask W r s = (Ok v, log (r, Ret v) s).
Proof. intros H. unfold ask. by rewrite H. Qed.

Lemma run_ask_raise (r : request) (e : exn) (s : state) :
  W (hist s) r = Raise e → ask W r s = (Exc e, log (r, Raise e) s).
Proof. intros H. unfold ask. by rewrite H. Qed.

Lemma run_G (x : string) (v : value) (s : state) :
  globals s !! x = Some v → G x s = (Ok v, s).
Proof. intros H. unfold G. by rewrite H. Qed.

Lemma run_L (x : string) (v : value) (s : state) :
  locals s !! x = Some v → L x s = (Ok v, s).
Proof. intros H. unfold L. by rewrite H. Qed.

Lemma run_setG (x : string) (v : value) (s : state) :
  setG x v s = (Ok tt, set_globals (insert x v) s).
Proof. done. Qed.

Lemma run_setL (x : string) (v : value) (s : state) :
  setL x v s = (Ok tt, set_locals (insert x v) s).
Proof. done. Qed.

Lemma run_getattr_inst (l : nat) (a : string) (v : value) (s : state) :
  attr_of (heap s) l a = Some v → getattr W (VInst l) a s = (Ok v, s).
Proof. intros H. unfold attr_of in H. simpl. by rewrite H. Qed.

Lemma run_call_method_one (o : value) (m : string) (f a : value)
    (kw : list (string * value)) :
  call_method W o m f [a] kw = ask W (RMethod o m f [a] kw).
Proof. by destruct a. Qed.

Lemma run_format_str (t : string) : format_value W (VStr t) "" = ret t.
Proof. done. Qed.

Lemma run_format_04d (z : Z) : format_value W (VInt z) "04d" = ret (format_04d z).
Proof. done. Qed.
End Run.

(** [sx] runs a computation step by step on a symbolic state, using the
    hypotheses about the name spaces and about the replies of the world. *)
Ltac slookup :=
  cbn [globals locals heap hist set_globals set_locals set_heap log];
  first [ eassumption
        | reflexivity
        | rewrite lookup_insert_eq; reflexivity
        | rewrite lookup_insert_ne by done; slookup ].

Ltac sx :=
  repeat first
    [ rewrite run_bind
    | rewrite run_ret
    | rewrite run_mret
    | rewrite run_setG
    | rewrite run_setL
    | erewrite run_G by slookup
    | erewrite run_L by slookup
    | erewrite run_getattr_inst by slookup
    | rewrite run_call_method_one
    | rewrite run_format_str
    | rewrite run_format_04d
    | erewrite run_ask_ret by slookup
    | erewrite run_ask_raise by slookup
    | progress cbn beta iota
    | progress cbn [mapM id fst snd is_lib iterate getattr call call_method] ].

(** ** The launcher *)
Section Launcher.
Variable W : world.

Lemma cell_launch_runs_train_loop (s : state) (c m ns o dl lr v1 v2 : value) :
  let args := [c; m; ns; o; dl; lr] in
  let imported := (RImport "accelerate" (Some "notebook_launcher"), Ret v1) in
  let launched :=
    (RCall (VLib "accelerate.notebook_launcher") [VFun "train_loop"; VTuple args]
       [("num_processes", VInt 1)], Ret v2) in
  globals s !! "config" = Some c → globals s !! "model" = Some m →
  globals s !! "noise_scheduler" = Some ns → globals s !! "optimizer" = Some o →
  globals s !! "train_dataloader" = Some dl → globals s !! "lr_scheduler" = Some lr →
  globals s !! "train_loop" = Some (VFun "train_loop") →
  W (hist s) imported.1 = Ret v1 →
  W (hist s ++ [imported]) launched.1 = Ret v2 →
  ∃ s3, hist s3 = hist s ++ [imported; launched]
        ∧ cell_launch W s = match train_loop W args s3 with
                            | (Ok _, s') => (Ok tt, s')
                            | (Exc e, s') => (Exc e, s')
                            end.
Proof.
  intros args imported launched Hc Hm Hns Ho Hdl Hlr Htl Hi Hl.
  subst imported launched. cbn [fst] in Hi, Hl.
  eexists. split; [|unfold cell_launch, Launch; unfold_py; sx].
  2: { change ("accelerate" +:+ "." +:+ "notebook_launcher")
         with "accelerate.notebook_launcher".
       change (functions W "train_loop") with (Some (train_loop W)).
       cbn [String.eqb Ascii.eqb Bool.eqb]. sx. reflexivity. }
  cbn [hist log set_globals]. by rewrite <- app_assoc.
Qed.
End Launcher.

(** C10. The name notebook_launcher is called at one place in the notebook's
    code and train_loop is called directly at none; no code cell mentions a
    thread, process, lock, queue or other scheduling or cancellation
    construct.  Run in a state where its arguments are bound and with the
    import and the launcher succeeding, the launch cell makes two requests,
    the import and one call of the launcher with train_loop, the tuple of
    the six arguments and num_processes=1, and then is one run of
    train_loop on those arguments. *)
Theorem C10_training_starts_by_one_launcher_call
    (W : world) (s : state) (c m ns o dl lr v1 v2 : value) :
  let args := [c; m; ns; o; dl; lr] in
  let imported := (RImport "accelerate" (Some "notebook_launcher"), Ret v1) in
  let launched :=
    (RCall (VLib "accelerate.notebook_launcher") [VFun "train_loop"; VTuple args]
       [("num_processes", VInt 1)], Ret v2) in
  globals s !! "config" = Some c → globals s !! "model" = Some m →
  globals s !! "noise_scheduler" = Some ns → globals s !! "optimizer" = Some o →
  globals s !! "train_dataloader" = Some dl → globals s !! "lr_scheduler" = Some lr →
  globals s !! "train_loop" = Some (VFun "train_loop") →
  W (hist s) imported.1 = Ret v1 →
  W (hist s ++ [imported]) launched.1 = Ret v2 →
  Static.call_sites "notebook_launcher" all_tokens false = 1%nat
  ∧ Static.call_sites "train_loop" all_tokens false = 0%nat
  ∧ Static.mentions concurrency_names all_tokens = false
  ∧ ∃ s3, hist s3 = hist s ++ [imported; launched]
          ∧ cell_launch W s = match train_loop W args s3 with
                              | (Ok _, s') => (Ok tt, s')
                              | (Exc e, s') => (Exc e, s')
                              end.
Proof.
  intros args imported launched Hc Hm Hns Ho Hdl Hlr Htl Hi Hl.
  split; [vm_compute; reflexivity|]. split; [vm_compute; reflexivity|].
  split; [vm_compute; reflexivity|].
  by apply cell_launch_runs_train_loop.
Qed.

Lemma C10_witness :
  globals demo_state !! "train_loop" = Some (VFun "train_loop")
  ∧ Static.call_sites "notebook_launcher" all_tokens false = 1%nat
  ∧ Static.call_sites "train_loop" all_tokens false = 0%nat
  ∧ Static.mentions concurrency_names all_tokens = false
  ∧ ∃ s3, hist s3
          = hist demo_state
            ++ [(RImport "accelerate" (Some "notebook_launcher"), Ret (VExt 100));
                (RCall (VLib "accelerate.notebook_launcher")
                   [VFun "train_loop"; VTuple demo_args] [("num_processes", VInt 1)],
                 Ret (VExt 101))]
          ∧ cell_launch (demo_world 2) demo_state
            = match train_loop (demo_world 2) demo_args s3 with
              | (Ok _, s') => (Ok tt, s')
              | (Exc e, s') => (Exc e, s')
              end.
Proof.
  split; [reflexivity|].
  apply (C10_training_starts_by_one_launcher_call (demo_world 2) demo_state
           (VInst 0) (VExt 1) (VExt 2) (VExt 3) (VExt 4) (VExt 5) (VExt 100) (VExt 101));
    reflexivity.
Defined.

(** ** Exceptions are never caught, unless a with-block suppresses them *)





Section Propagation.
Variable W : world.

















End Propagation.


Section Operations.
Variable W : world.










End Operations.



Section Handled.
Variable W : world.







End Handled.

Section WithBlock.
Variable W : world.

End WithBlock.

Section NoHandler.
Variable W : world.





End NoHandler.


Section Spine.
Variable W : world.






End Spine.




(** When __exit__ declines, the same exception ends the run: the failing
    request and the notification of the context manager are the last two. *)
Example train_loop_stops_in_the_with_block :
  (train_loop declining_world demo_args bound_state).1 = Exc (LibError "out of memory")
  ∧ raised <$> hist (train_loop declining_world demo_args bound_state).2
    = replicate 53 false ++ [true; false].
Proof. vm_compute. split; reflexivity. Qed.

(** In the world where the Accelerator cannot be constructed, train_loop
    ends with that exception, and the failed call is its only request. *)
Example train_loop_stops_at_the_failure :
  let r := train_loop failing_world demo_args demo_state in
  r.1 = Exc (LibError "no accelerator")
  ∧ raised <$> hist r.2 = [true].
Proof. vm_compute. split; reflexivity. Qed.

(** No cell binds noisy_images: the hypothesis of the statements above
    holds throughout any run of the notebook's cells. *)
Lemma notebook_never_binds_noisy_images (W : world) (i : nat) (c : cell) (s : state) :
  notebook W !! i = Some c → globals s !! "noisy_images" = None →
  globals (run_cell W c s).2 !! "noisy_images" = None.
Proof.
  intros Hc Hg.
  assert (inv notebook_frame s (run_cell W c s).2) as (_ & _ & Hu & _).
  { apply keeps_run.
    - cell_cases Hc; try discriminate Hc.
      all: apply keeps_run_cell; [done|]; intros src m Heq; try discriminate Heq.
      all: inversion Heq; subst.
      all: lazymatch goal with |- keeps _ (?f _) => unfold f end; ksolve.
    - apply inv_start; [intros x Hx; by apply elem_of_nil in Hx|].
      by intros x ->%list_elem_of_singleton. }
  apply Hu. by apply (bool_decide_eq_true_1 ("noisy_images" ∈ _)).
Qed.

(** ** evaluate, request by request *)

(** [wstep] runs to the next request and splits on the reply to it;
    [wscript] makes the same step in a script. *)
Ltac is_literal a :=
  lazymatch a with
  | String _ ?b => is_literal b
  | EmptyString => idtac
  end.

Ltac join_strings :=
  repeat match goal with
         | |- context [?a +:+ ?b] =>
             is_literal a; is_literal b;
             let c := eval vm_compute in (a +:+ b) in change (a +:+ b) with c
         | |- context [String.eqb ?a ?b] =>
             is_literal a; is_literal b;
             let c := eval vm_compute in (String.eqb a b) in change (String.eqb a b) with c
         end.

Ltac wrun := repeat (progress (sx; unfold call; join_strings)).

Ltac wstep E :=
  wrun;
  lazymatch goal with
  | |- context [ask ?W ?r ?s'] =>
      let h := eval cbn [hist log set_locals set_globals set_heap] in (hist s') in
      let rep := fresh "rep" in
      remember (W h r) as rep eqn:E; symmetry in E; destruct rep
  end.

Ltac wscript E :=
  match goal with
  | |- context [script_step ?W ?h ?r ?k] =>
      change (script_step W h r k)
        with (match W h r with
              | Ret v => k v (h ++ [(r, Ret v) : event])
              | Raise e => (Exc e, h ++ [(r, Raise e) : event])
              end);
      rewrite E; cbn beta iota
  end.

Section Evaluate.
Variable W : world.

Lemma evaluate_runs_its_script (s : state) (l : nat) (p bs seed grid_fn : value)
  (d : string) (e : Z) :
sampling_contract W p grid_fn →
evaluate_ready s l bs seed grid_fn d →
let r := evaluate W [VInst l; VInt e; p] s in
(r.1, hist r.2) = evaluate_script W p bs seed grid_fn d e (hist s).
Proof.
intros HW (Hbs & Hseed & Hdir & Htorch & Hos & Hgrid). cbv zeta.
unfold evaluate. rewrite run_invoke by done.
unfold evaluate_body. unfold_py.
unfold evaluate_script, grid_file, generator_call, sampling_call, grid_call.
cbn [zip zip_with list_to_map foldr fst snd uncurry].
wstep E1; wscript E1; [|sx; reflexivity].
destruct (generator_object _ _ _ HW _ _ E1) as [n1 ->].
wstep E2; wscript E2; [|sx; reflexivity].
wstep E3; wscript E3; [|sx; reflexivity].
wstep E4; wscript E4; [|sx; reflexivity].
destruct (output_object _ _ _ HW _ _ _ _ E4) as [n2 ->].
wstep E5; wscript E5; [|sx; reflexivity].
wstep E6; wscript E6; [|sx; reflexivity].
destruct (grid_object _ _ _ HW _ _ _ E6) as [n3 ->].
wstep E7; wscript E7; [|sx; reflexivity].
wstep E8; wscript E8; [|sx; reflexivity].
wstep E9; wscript E9; [|sx; reflexivity].
wrun. reflexivity.
Qed.
End Evaluate.

(** ** What a run of evaluate sampled and saved *)
Section Sampling.
Variable W : world.
Variables (p bs seed grid_fn : value) (d : string).

(** How a run of evaluate that ended in [o] can have gone: it stopped
  before it called the pipeline; it called the pipeline, with a generator
  just seeded, and got no images; it got the images and called
  make_image_grid on them, and saved nothing; or it had the grid and
  called save, with the file of the epoch.  Only the last can have
  returned. *)
Inductive evaluation (o : outcome value) (e : Z) (h : list event) (evs : list event)
  : Prop :=
| stopped_early (x : exn) :
  o = Exc x → calls_made h evs = [] → sampled evs = [] → saved evs = [] →
  evaluation o e h evs
| sampling_failed (x : exn) (h1 : list event) (g : value) :
  o = Exc x → fresh_generator h1 seed g →
  calls_made h evs = [(h1, sampling_call p bs g)] →
  sampled evs = [] → saved evs = [] →
  evaluation o e h evs
| sampled_only (x : exn) (h1 h2 h3 : list event) (g out images : value) :
  o = Exc x → fresh_generator h1 seed g →
  W h1 (sampling_call p bs g) = Ret out →
  W h2 (RGetAttr out "images") = Ret images →
  calls_made h evs = [(h1, sampling_call p bs g); (h3, grid_call grid_fn images)] →
  sampled evs = [images] → saved evs = [] →
  evaluation o e h evs
| sampled_and_saved (h1 h2 h3 : list event) (g out images grid : value) :
  fresh_generator h1 seed g →
  W h1 (sampling_call p bs g) = Ret out →
  W h2 (RGetAttr out "images") = Ret images →
  W h3 (grid_call grid_fn images) = Ret grid →
  calls_made h evs = [(h1, sampling_call p bs g); (h3, grid_call grid_fn images)] →
  sampled evs = [images] →
  saved evs = [(grid, VStr (grid_file d e))] →
  evaluation o e h evs.

Ltac script_case E :=
match goal with
| |- context [script_step ?W ?h ?r ?k] =>
    change (script_step W h r k)
      with (match W h r with
            | Ret v => k v (h ++ [(r, Ret v) : event])
            | Raise e => (Exc e, h ++ [(r, Raise e) : event])
            end);
    destruct (W h r) eqn:E; cbn beta iota
end.

Ltac new_events :=
cbn [fst snd]; rewrite <- ?app_assoc; rewrite drop_app_length; cbn [app].

Lemma script_evaluation (e : Z) (h : list event) :
evaluation (evaluate_script W p bs seed grid_fn d e h).1 e h
  (drop (length h) (evaluate_script W p bs seed grid_fn d e h).2).
Proof.
unfold evaluate_script.
script_case E1; [|new_events; by eapply stopped_early].
script_case E2; [|new_events; by eapply stopped_early].
script_case E3; [|new_events; by eapply stopped_early].
script_case E4;
  [|new_events; eapply sampling_failed; [done|by do 3 eexists|done..]].
script_case E5;
  [|new_events; eapply sampling_failed; [done|by do 3 eexists|done..]].
script_case E6;
  [|new_events; eapply sampled_only; [done|by do 3 eexists|exact E4|exact E5|done..]].
script_case E7;
  [|new_events; eapply sampled_only; [done|by do 3 eexists|exact E4|exact E5|done..]].
script_case E8;
  [|new_events; eapply sampled_only; [done|by do 3 eexists|exact E4|exact E5|done..]].
script_case E9; new_events;
  (eapply sampled_and_saved; [by do 3 eexists|exact E4|exact E5|exact E6|done..]).
Qed.

Lemma evaluate_evaluation (s : state) (l : nat) (e : Z) :
sampling_contract W p grid_fn → evaluate_ready s l bs seed grid_fn d →
evaluation (evaluate W [VInst l; VInt e; p] s).1 e (hist s)
  (events_from s (evaluate W [VInst l; VInt e; p] s).2).
Proof.
intros HW Hs.
pose proof (evaluate_runs_its_script W s l p bs seed grid_fn d e HW Hs) as Hrun.
cbv zeta in Hrun. unfold events_from.
replace (hist (evaluate W [VInst l; VInt e; p] s).2)
  with (evaluate_script W p bs seed grid_fn d e (hist s)).2
  by (by rewrite <- Hrun).
replace ((evaluate W [VInst l; VInt e; p] s).1)
  with (evaluate_script W p bs seed grid_fn d e (hist s)).1
  by (by rewrite <- Hrun).
apply script_evaluation.
Qed.

Lemma same_images (h1 h1' h2 h2' : list event) (g g' out out' images images' : value) :
sampling_contract W p grid_fn →
fresh_generator h1 seed g → fresh_generator h1' seed g' →
W h1 (sampling_call p bs g) = Ret out → W h1' (sampling_call p bs g') = Ret out' →
W h2 (RGetAttr out "images") = Ret images →
W h2' (RGetAttr out' "images") = Ret images' →
images = images'.
Proof.
intros HW Hg Hg' Ho Ho' Hi Hi'.
rewrite (sampling_seeded _ _ _ HW h1 h1' bs seed g g' Hg Hg') in Ho.
rewrite Ho' in Ho. injection Ho as ->.
rewrite (images_of_output _ _ _ HW h2 h2') in Hi. rewrite Hi' in Hi.
by injection Hi.
Qed.

Lemma same_grid (h h' : list event) (images grid grid' : value) :
sampling_contract W p grid_fn →
W h (grid_call grid_fn images) = Ret grid → W h' (grid_call grid_fn images) = Ret grid' →
grid = grid'.
Proof.
intros HW Hg Hg'.
rewrite (grid_of_images _ _ _ HW h h') in Hg. rewrite Hg' in Hg. by injection Hg.
Qed.

Lemma evaluation_calls (o : outcome value) (e : Z) (h : list event) (evs : list event) :
evaluation o e h evs →
∀ h1 r, (h1, r) ∈ calls_made h evs →
  (∃ g, r = sampling_call p bs g ∧ fresh_generator h1 seed g)
  ∨ (∃ images, r = grid_call grid_fn images ∧ sampled evs = [images]).
Proof.
intros [x _ Hk _ _|x h1 g _ Hg Hk _ _|x h1 h2 h3 g out images _ Hg _ _ Hk Hs _
       |h1 h2 h3 g out images grid Hg _ _ _ Hk Hs _] h0 r;
  rewrite Hk; [by intros ?%elem_of_nil|..].
- intros [= -> ->]%list_elem_of_singleton. left. by exists g.
- intros [[= -> ->]|[= -> ->]%list_elem_of_singleton]%elem_of_cons.
  + left. by exists g.
  + right. by exists images.
- intros [[= -> ->]|[= -> ->]%list_elem_of_singleton]%elem_of_cons.
  + left. by exists g.
  + right. by exists images.
Qed.

Lemma evaluation_sampled (o o' : outcome value) (e e' : Z) (h h' : list event)
  (evs evs' : list event) :
sampling_contract W p grid_fn → evaluation o e h evs → evaluation o' e' h' evs' →
∀ i i', i ∈ sampled evs → i' ∈ sampled evs' → i = i'.
Proof.
intros HW
  [x _ _ Hs _|x h1 g _ _ _ Hs _|x h1 h2 h3 g out images _ Hg Ho Hi _ Hs _
     |h1 h2 h3 g out images grid Hg Ho Hi _ _ Hs _]
  [x' _ _ Hs' _|x' h1' g' _ _ _ Hs' _|x' h1' h2' h3' g' out' images' _ Hg' Ho' Hi' _ Hs' _
     |h1' h2' h3' g' out' images' grid' Hg' Ho' Hi' _ _ Hs' _] i i';
  rewrite Hs, Hs';
  try (by intros ?%elem_of_nil); try (by intros _ ?%elem_of_nil);
  intros ->%list_elem_of_singleton ->%list_elem_of_singleton;
  exact (same_images _ _ _ _ _ _ _ _ _ _ HW Hg Hg' Ho Ho' Hi Hi').
Qed.

Lemma evaluation_saved (o o' : outcome value) (e e' : Z) (h h' : list event)
  (evs evs' : list event) :
sampling_contract W p grid_fn → evaluation o e h evs → evaluation o' e' h' evs' →
∀ g f g' f', (g, f) ∈ saved evs → (g', f') ∈ saved evs' →
  g = g' ∧ f = VStr (grid_file d e) ∧ f' = VStr (grid_file d e').
Proof.
intros HW
  [x _ _ _ Hs|x h1 g _ _ _ _ Hs|x h1 h2 h3 g out images _ _ _ _ _ _ Hs
     |h1 h2 h3 g out images grid Hg Ho Hi Hgr _ _ Hs]
  [x' _ _ _ Hs'|x' h1' g' _ _ _ _ Hs'|x' h1' h2' h3' g' out' images' _ _ _ _ _ _ Hs'
     |h1' h2' h3' g' out' images' grid' Hg' Ho' Hi' Hgr' _ _ Hs']
  y f y' f';
  rewrite Hs, Hs';
  try (by intros ?%elem_of_nil); try (by intros _ ?%elem_of_nil).
intros Hin%list_elem_of_singleton Hin'%list_elem_of_singleton.
injection Hin as -> ->. injection Hin' as -> ->.
split; [|done].
assert (images = images') as <-
  by exact (same_images _ _ _ _ _ _ _ _ _ _ HW Hg Hg' Ho Ho' Hi Hi').
exact (same_grid _ _ _ _ _ HW Hgr Hgr').
Qed.

(** Two runs that both return have made the same two calls, sampled the
  same images and saved the same grid. *)
Lemma evaluation_returned (v v' : value) (e e' : Z) (h h' : list event)
  (evs evs' : list event) :
sampling_contract W p grid_fn →
evaluation (Ok v) e h evs → evaluation (Ok v') e' h' evs' →
∃ h1 h3 g images grid,
  fresh_generator h1 seed g
  ∧ calls_made h evs = [(h1, sampling_call p bs g); (h3, grid_call grid_fn images)]
  ∧ sampled evs = [images] ∧ sampled evs' = [images]
  ∧ saved evs = [(grid, VStr (grid_file d e))]
  ∧ saved evs' = [(grid, VStr (grid_file d e'))].
Proof.
intros HW
  [x [=]|x h1 g [=]|x h1 h2 h3 g out images [=]
     |h1 h2 h3 g out images grid Hg Ho Hi Hgr Hk Hs Hsv]
  [x' [=]|x' h1' g' [=]|x' h1' h2' h3' g' out' images' [=]
     |h1' h2' h3' g' out' images' grid' Hg' Ho' Hi' Hgr' Hk' Hs' Hsv'].
assert (images = images') as <-
  by exact (same_images _ _ _ _ _ _ _ _ _ _ HW Hg Hg' Ho Ho' Hi Hi').
assert (grid = grid') as <- by exact (same_grid _ _ _ _ _ HW Hgr Hgr').
by exists h1, h3, g, images, grid.
Qed.
End Sampling.

(** C9. Every call of evaluate creates a generator on the CPU, seeds it
    with config.seed, and calls the pipeline with that generator, just
    seeded, and config.eval_batch_size, and with nothing else: the run of
    evaluate is the script above, request by request, and the only calls it
    makes of a value as a function are that call of the pipeline and the
    call of make_image_grid on the images sampled.  Hence, when what the
    pipeline samples is determined by the batch size and the seed, the
    images by the pipeline output and the grid by the images: two calls of
    evaluate with the same pipeline and configurations that agree on
    eval_batch_size, seed and output_dir, in any two states and for any two
    epochs, sample the same images and save the same grid, each to the file
    of its epoch in the directory test_images; and when both return, each
    has sampled once and saved once. *)
Theorem C9_evaluate_samples_with_a_freshly_seeded_generator
    (W : world) (s1 s2 : state) (l1 l2 : nat) (p bs seed grid_fn : value)
    (d : string) (e1 e2 : Z) :
  sampling_contract W p grid_fn →
  evaluate_ready s1 l1 bs seed grid_fn d →
  evaluate_ready s2 l2 bs seed grid_fn d →
  let r1 := evaluate W [VInst l1; VInt e1; p] s1 in
  let r2 := evaluate W [VInst l2; VInt e2; p] s2 in
  let evs1 := events_from s1 r1.2 in
  let evs2 := events_from s2 r2.2 in
  (r1.1, hist r1.2) = evaluate_script W p bs seed grid_fn d e1 (hist s1)
  ∧ (∀ h r, (h, r) ∈ calls_made (hist s1) evs1 →
       (∃ g, r = sampling_call p bs g ∧ fresh_generator h seed g)
       ∨ (∃ images, r = grid_call grid_fn images ∧ sampled evs1 = [images]))
  ∧ (∀ i1 i2, i1 ∈ sampled evs1 → i2 ∈ sampled evs2 → i1 = i2)
  ∧ (∀ g1 f1 g2 f2, (g1, f1) ∈ saved evs1 → (g2, f2) ∈ saved evs2 →
       g1 = g2 ∧ f1 = VStr (grid_file d e1) ∧ f2 = VStr (grid_file d e2))
  ∧ (∀ v1 v2, r1.1 = Ok v1 → r2.1 = Ok v2 →
       ∃ h1 h3 g images grid,
         fresh_generator h1 seed g
         ∧ calls_made (hist s1) evs1
           = [(h1, sampling_call p bs g); (h3, grid_call grid_fn images)]
         ∧ sampled evs1 = [images] ∧ sampled evs2 = [images]
         ∧ saved evs1 = [(grid, VStr (grid_file d e1))]
         ∧ saved evs2 = [(grid, VStr (grid_file d e2))]).
Proof.
  intros HW H1 H2 r1 r2 evs1 evs2.
  pose proof (evaluate_evaluation W p bs seed grid_fn d s1 l1 e1 HW H1) as Hev1.
  pose proof (evaluate_evaluation W p bs seed grid_fn d s2 l2 e2 HW H2) as Hev2.
  split; [by apply evaluate_runs_its_script|]. split; [|split; [|split]].
  - by eapply evaluation_calls.
  - by eapply evaluation_sampled.
  - by eapply evaluation_saved.
  - intros v1 v2 Hv1 Hv2. subst r1 r2 evs1 evs2. rewrite Hv1 in Hev1. rewrite Hv2 in Hev2.
    by eapply evaluation_returned.
Qed.

Lemma canned_world_contract (p grid_fn : value) : sampling_contract canned_world p grid_fn.
Proof.
  split.
  - intros h v [= <-]. by exists 1%nat.
  - intros h bs g v [= <-]. by exists 4%nat.
  - intros h images v [= <-]. by exists 6%nat.
  - done.
  - done.
  - done.
Qed.

Lemma C9_witness :
  sampling_contract canned_world (VExt 9) (VLib "diffusers.util.make_image_grid")
  ∧ evaluate_ready later_state 0 (VInt 16) (VInt 0)
      (VLib "diffusers.util.make_image_grid") "ddpm-butterflies-128"
  ∧ let r1 := evaluate canned_world [VInst 0; VInt 0; VExt 9] demo_state in
    let r2 := evaluate canned_world [VInst 0; VInt 7; VExt 9] later_state in
    let evs1 := events_from demo_state r1.2 in
    let evs2 := events_from later_state r2.2 in
    (r1.1, hist r1.2)
    = evaluate_script canned_world (VExt 9) (VInt 16) (VInt 0)
        (VLib "diffusers.util.make_image_grid") "ddpm-butterflies-128" 0 (hist demo_state)
    ∧ (∀ h r, (h, r) ∈ calls_made (hist demo_state) evs1 →
         (∃ g, r = sampling_call (VExt 9) (VInt 16) g ∧ fresh_generator h (VInt 0) g)
         ∨ (∃ images, r = grid_call (VLib "diffusers.util.make_image_grid") images
                      ∧ sampled evs1 = [images]))
    ∧ (∀ i1 i2, i1 ∈ sampled evs1 → i2 ∈ sampled evs2 → i1 = i2)
    ∧ (∀ g1 f1 g2 f2, (g1, f1) ∈ saved evs1 → (g2, f2) ∈ saved evs2 →
         g1 = g2 ∧ f1 = VStr (grid_file "ddpm-butterflies-128" 0)
         ∧ f2 = VStr (grid_file "ddpm-butterflies-128" 7))
    ∧ (∀ v1 v2, r1.1 = Ok v1 → r2.1 = Ok v2 →
         ∃ h1 h3 g images grid,
           fresh_generator h1 (VInt 0) g
           ∧ calls_made (hist demo_state) evs1
             = [(h1, sampling_call (VExt 9) (VInt 16) g);
                (h3, grid_call (VLib "diffusers.util.make_image_grid") images)]
           ∧ sampled evs1 = [images] ∧ sampled evs2 = [images]
           ∧ saved evs1 = [(grid, VStr (grid_file "ddpm-butterflies-128" 0))]
           ∧ saved evs2 = [(grid, VStr (grid_file "ddpm-butterflies-128" 7))]).
Proof.
  assert (∀ s, s = demo_state ∨ s = later_state →
            evaluate_ready s 0 (VInt 16) (VInt 0)
              (VLib "diffusers.util.make_image_grid") "ddpm-butterflies-128") as Hready.
  { intros s [-> | ->]; repeat split; vm_compute; reflexivity. }
  split; [apply canned_world_contract|]. split; [apply Hready; by right|].
  apply (C9_evaluate_samples_with_a_freshly_seeded_generator
           canned_world demo_state later_state 0 0 (VExt 9) (VInt 16) (VInt 0)
           (VLib "diffusers.util.make_image_grid") "ddpm-butterflies-128" 0 7
           (canned_world_contract _ _)).
  - apply Hready. by left.
  - apply Hready. by right.
Defined.

(** The two runs of the witness: both return, having made the call of the
    pipeline and the call of make_image_grid, with the same images and the
    same grid, in the files of epochs 0 and 7. *)
Example evaluate_twice :
  let r1 := evaluate canned_world [VInst 0; VInt 0; VExt 9] demo_state in
  let r2 := evaluate canned_world [VInst 0; VInt 7; VExt 9] later_state in
  let evs1 := events_from demo_state r1.2 in
  let evs2 := events_from later_state r2.2 in
  r1.1 = Ok VNone ∧ r2.1 = Ok VNone
  ∧ (calls_made (hist demo_state) evs1).*2
    = [sampling_call (VExt 9) (VInt 16) (VExt 3);
       grid_call (VLib "diffusers.util.make_image_grid") (VList [VExt 50; VExt 51])]
  ∧ sampled evs1 = [VList [VExt 50; VExt 51]]
  ∧ sampled evs2 = [VList [VExt 50; VExt 51]]
  ∧ saved evs1 = [(VExt 6, VStr "ddpm-butterflies-128/test_images/0000.png")]
  ∧ saved evs2 = [(VExt 6, VStr "ddpm-butterflies-128/test_images/0007.png")].
Proof. vm_compute. repeat split; reflexivity. Qed.

(** ** Where train_loop and evaluate let the libraries write *)
Section Writes.
Variable W : world.

Lemma keeps_bind_pure {A B} (I : state → Prop) (m : M A) (k : A → M B) (a : A) :
(∀ s, I s → m s = (Ok a, s)) → keeps I (k a) → keeps I (m ≫= k).
Proof.
intros Hm Hk s Hs. unfold mbind, M_bind, bind. rewrite (Hm s Hs). by apply Hk.
Qed.

Lemma hoare_keywords_last (I : state → Prop) (kw : list (string * M value))
  (k : string) (e : M value) (v : value) :
Forall (λ p, keeps I p.2) kw → (∀ s, I s → e s = (Ok v, s)) →
hoare I (keywords (kw ++ [(k, e)]))
  (λ kvs s, I s ∧ ∃ front, kvs = front ++ [(k, v)] ∧ front.*1 = kw.*1) I.
Proof.
unfold keywords. intros Hkw He. induction Hkw as [|[k' e'] kw He' Hkw IH].
- intros s Hs. cbn [app mapM snd fst]. unfold mbind, M_bind, bind.
  rewrite (He s Hs). cbn [ret]. split; [done|]. by exists [].
- intros s Hs. cbn [app mapM snd fst]. unfold mbind, M_bind, bind.
  specialize (He' s Hs). simpl in He'. destruct (e' s) as [[v'|x] s1]; [|done].
  cbn [ret]. specialize (IH s1 He').
  destruct (mapM _ (kw ++ _) s1) as [[kvs|x] s2]; [|done].
  destruct IH as [Hs2 (front & -> & Hfront)]. split; [done|].
  exists ((k', v') :: front). split; [done|]. rewrite !fmap_cons. by f_equal.
Qed.

Lemma writing_facts (permitted : list (string * value)) (names : list string)
  (s0 s : state) (x : string) :
inv (writing permitted names) s0 s →
(x ∈ names → locals s !! x = locals s0 !! x)
∧ globals s !! "os" = globals s0 !! "os"
∧ ∀ l a, attr_of (heap s) l a = attr_of (heap s0) l a.
Proof.
intros (_ & _ & _ & Ha & Hkl & Hkg). split; [|split].
- apply Hkl.
- apply Hkg. by apply list_elem_of_singleton.
- intros l a. apply Ha. by intros ?%elem_of_nil.
Qed.

Ltac permitted :=
unfold writes_within, writes; cbn [bool_decide]; repeat constructor.

(** *** train_loop *)
Section TrainLoop.
Variables (d : string) (l : nat) (s0 : state).
Hypothesis Hconfig : locals s0 !! "config" = Some (VInst l).
Hypothesis Hdir : attr_of (heap s0) l "output_dir" = Some (VStr d).
Hypothesis Hos : globals s0 !! "os" = Some (VLib "os").
Local Set Default Proof Using "All".

Let Inv := inv (writing (train_loop_writes d) ["config"]) s0.

Lemma train_loop_facts (s : state) :
Inv s →
locals s !! "config" = Some (VInst l)
∧ globals s !! "os" = Some (VLib "os")
∧ attr_of (heap s) l "output_dir" = Some (VStr d).
Proof.
intros (Hl & Hg & Ha)%(writing_facts _ _ _ _ "config").
rewrite Hl, Hg, Ha by (by apply list_elem_of_singleton). done.
Qed.

Lemma output_dir_pure (s : state) :
Inv s → mapM id [Attr W (L "config") "output_dir"] s = (Ok [VStr d], s).
Proof.
intros (Hl & Hg & Ha)%train_loop_facts. unfold_py. by wrun.
Qed.

Lemma logs_dir_pure (s : state) :
Inv s →
MCall W (Attr W (G "os") "path") "join" [Attr W (L "config") "output_dir"; Str "logs"] [] s
= (Ok (VStr (posix_join d "logs")), s).
Proof.
intros (Hl & Hg & Ha)%train_loop_facts. unfold_py. by wrun.
Qed.

Lemma makedirs_writes :
keeps Inv (Expr (MCall W (G "os") "makedirs" [Attr W (L "config") "output_dir"]
               [("exist_ok", PTrue)])).
Proof.
unfold Expr, MCall. apply keeps_bind; [|intros; apply keeps_ret].
apply keeps_bind; [ks|intros ov]. apply keeps_bind; [ks|intros f].
eapply keeps_bind_pure; [exact output_dir_pure|].
apply keeps_bind; [unfold_py; ks|intros kvs].
rewrite run_call_method_one. apply keeps_ask. permitted.
Qed.

Lemma save_pretrained_writes :
keeps Inv (Expr (MCall W (L "pipeline") "save_pretrained"
               [Attr W (L "config") "output_dir"] [])).
Proof.
unfold Expr, MCall. apply keeps_bind; [|intros; apply keeps_ret].
apply keeps_bind; [ks|intros ov]. apply keeps_bind; [ks|intros f].
eapply keeps_bind_pure; [exact output_dir_pure|].
apply keeps_bind; [unfold_py; ks|intros kvs].
rewrite run_call_method_one. apply keeps_ask. permitted.
Qed.

Lemma accelerator_writes :
keeps Inv
(Assign "accelerator"
   (Call W (G "Accelerator") []
      [("mixed_precision", Attr W (L "config") "mixed_precision");
       ("gradient_accumulation_steps",
        Attr W (L "config") "gradient_accumulation_steps");
       ("log_with", Str "tensorboard");
       ("project_dir",
        MCall W (Attr W (G "os") "path") "join"
          [Attr W (L "config") "output_dir"; Str "logs"] [])])).
Proof.
unfold Assign, Call, keywords. apply keeps_bind; [|intros; ks].
apply keeps_bind; [ks|intros fv]. apply keeps_bind; [ks|intros avs].
eapply hoare_bind.
- apply (hoare_keywords_last Inv
         [("mixed_precision", Attr W (L "config") "mixed_precision");
          ("gradient_accumulation_steps",
           Attr W (L "config") "gradient_accumulation_steps");
          ("log_with", Str "tensorboard")]
         "project_dir" _ (VStr (posix_join d "logs")));
  [|exact logs_dir_pure].
repeat (apply List.Forall_cons; [cbn [snd]; unfold_py; ks|]). apply List.Forall_nil.
- intros kvs s [Hs (front & -> & Hfront)]. revert s Hs.
change (keeps Inv (call W fv avs (front ++ [("project_dir", VStr (posix_join d "logs"))]))).
destruct front as [|[k1 v1] [|[k2 v2] [|[k3 v3] [|]]]]; try done.
injection Hfront as -> -> ->.
apply keeps_ask. permitted.
Qed.

Lemma train_setup_writes : keeps Inv (train_setup W).
Proof.
unfold train_setup. apply keeps_bind; [apply accelerator_writes|intros _].
apply keeps_bind; [|intros _; ksolve].
unfold If_ at 1. apply keeps_bind; [ksolve|intros c].
apply keeps_bind; [ksolve|intros [|]]; [|ksolve].
unfold If_ at 1. apply keeps_bind; [ksolve|intros c'].
apply keeps_bind; [ksolve|intros [|]]; [|ksolve].
apply keeps_bind; [apply makedirs_writes|intros _; ksolve].
Qed.

Lemma train_save_writes : keeps Inv (train_save W).
Proof.
unfold train_save.
unfold If_ at 1. apply keeps_bind; [ksolve|intros c].
apply keeps_bind; [ksolve|intros [|]]; [|ksolve].
apply keeps_bind; [ksolve|intros _].
unfold If_ at 1. apply keeps_bind; [ksolve|intros c'].
apply keeps_bind; [ksolve|intros [|]]; [|ksolve].
unfold If_ at 1. apply keeps_bind; [ksolve|intros c''].
apply keeps_bind; [ksolve|intros [|]]; [ksolve|apply save_pretrained_writes].
Qed.

Lemma train_loop_body_writes : keeps Inv (train_loop_body W).
Proof.
unfold train_loop_body, train_epochs.
apply keeps_bind; [|intros _; apply keeps_bind; [apply train_save_writes|intros; ks]].
apply keeps_bind; [apply train_setup_writes|intros _].
unfold epoch_body. ksolve.
Qed.
End TrainLoop.

(** *** evaluate *)

Lemma ask_locals (r : request) (s : state) : locals (ask W r s).2 = locals s.
Proof. unfold ask. by destruct (W (hist s) r). Qed.

Lemma getattr_locals (o : value) (a : string) (s : state) :
locals (getattr W o a s).2 = locals s.
Proof.
destruct o; simpl; try apply ask_locals; try done.
by destruct (heap s !! l ≫= _).
Qed.

Lemma keeps_local {A} (I : state → Prop) (m : M A) (x : string) (v : value) :
keeps I m → (∀ s, locals (m s).2 = locals s) →
keeps (λ s, I s ∧ locals s !! x = Some v) m.
Proof.
intros Hm Hl s [Hs Hx]. specialize (Hm s Hs). specialize (Hl s).
destruct (m s) as [[a|e] s']; simpl in Hl; by rewrite Hl.
Qed.

Section EvaluateWrites.
Variables (d : string) (l : nat) (e : Z) (s0 : state).
Hypothesis Hconfig : locals s0 !! "config" = Some (VInst l).
Hypothesis Hepoch : locals s0 !! "epoch" = Some (VInt e).
Hypothesis Hdir : attr_of (heap s0) l "output_dir" = Some (VStr d).
Hypothesis Hos : globals s0 !! "os" = Some (VLib "os").
Local Set Default Proof Using "All".

Let F := writing (evaluate_writes d e) ["config"; "epoch"].
Let Inv := inv F s0.
Let Inv' := λ s, Inv s ∧ locals s !! "test_dir" = Some (VStr (posix_join d "test_images")).

Lemma evaluate_facts (s : state) :
Inv s →
locals s !! "config" = Some (VInst l)
∧ locals s !! "epoch" = Some (VInt e)
∧ globals s !! "os" = Some (VLib "os")
∧ attr_of (heap s) l "output_dir" = Some (VStr d).
Proof.
intros Hs.
destruct (writing_facts _ _ _ _ "config" Hs) as (Hl & Hg & Ha).
destruct (writing_facts _ _ _ _ "epoch" Hs) as (Hl' & _ & _).
rewrite Hl, Hl', Hg, Ha; [done| |].
- apply elem_of_cons. right. by apply list_elem_of_singleton.
- apply elem_of_cons. by left.
Qed.

Lemma test_dir_pure (s : state) :
Inv s →
MCall W (Attr W (G "os") "path") "join"
[Attr W (L "config") "output_dir"; Str "test_images"] [] s
= (Ok (VStr (posix_join d "test_images")), s).
Proof.
intros (Hl & He & Hg & Ha)%evaluate_facts. unfold_py. by wrun.
Qed.

Lemma test_dir_assigned :
hoare Inv
(Assign "test_dir"
   (MCall W (Attr W (G "os") "path") "join"
      [Attr W (L "config") "output_dir"; Str "test_images"] []))
(λ _, Inv') Inv.
Proof.
intros s Hs. unfold Assign, mbind, M_bind, bind. rewrite (test_dir_pure s Hs).
cbn [setL]. split.
- by apply (keeps_setL F s0 "test_dir" (VStr (posix_join d "test_images")) eq_refl s).
- simpl. by rewrite lookup_insert_eq.
Qed.

Lemma keeps_ask_local (r : request) : allowed F r → keeps Inv' (ask W r).
Proof.
intros Hr. apply keeps_local; [by apply keeps_ask|]. apply ask_locals.
Qed.

Lemma os_pure (s : state) : Inv' s → G "os" s = (Ok (VLib "os"), s).
Proof. intros [(Hl & He & Hg & Ha)%evaluate_facts Ht]. by wrun. Qed.

Lemma test_dir_argument (s : state) :
Inv' s → mapM id [L "test_dir"] s = (Ok [VStr (posix_join d "test_images")], s).
Proof. intros [Hs Ht]. by wrun. Qed.

Lemma grid_file_argument (s : state) :
Inv' s →
mapM id [Fstr W [FSub (L "test_dir") ""; FLit "/"; FSub (L "epoch") "04d"; FLit ".png"]] s
= (Ok [VStr (grid_file d e)], s).
Proof.
intros [(Hl & He & Hg & Ha)%evaluate_facts Ht]. unfold_py. by wrun.
Qed.

Lemma makedirs_test_dir_writes :
keeps Inv' (Expr (MCall W (G "os") "makedirs" [L "test_dir"] [("exist_ok", PTrue)])).
Proof.
unfold Expr, MCall. apply keeps_bind; [|intros; apply keeps_ret].
eapply keeps_bind_pure; [exact os_pure|].
apply keeps_bind; [apply keeps_ret|intros f].
eapply keeps_bind_pure; [exact test_dir_argument|].
apply keeps_bind; [unfold_py; ks|intros kvs].
rewrite run_call_method_one. apply keeps_ask_local. permitted.
Qed.

Lemma save_grid_writes :
keeps Inv'
(Expr (MCall W (L "image_grid") "save"
         [Fstr W [FSub (L "test_dir") ""; FLit "/"; FSub (L "epoch") "04d";
                  FLit ".png"]] [])).
Proof.
unfold Expr, MCall. apply keeps_bind; [|intros; apply keeps_ret].
apply keeps_bind; [apply keeps_L|intros ov].
apply keeps_bind; [|intros f].
{ apply keeps_local; [apply keeps_getattr; within|]. apply getattr_locals. }
eapply keeps_bind_pure; [exact grid_file_argument|].
apply keeps_bind; [unfold_py; ks|intros kvs].
rewrite run_call_method_one. apply keeps_ask_local. permitted.
Qed.

Lemma evaluate_body_writes : keeps Inv (evaluate_body W).
Proof.
unfold evaluate_body.
apply keeps_bind; [ksolve|intros _]. apply keeps_bind; [ksolve|intros _].
eapply hoare_bind; [exact test_dir_assigned|intros ?; cbv beta].
eapply hoare_weaken with (Q := λ _, Inv') (E := Inv').
- apply keeps_bind; [exact makedirs_test_dir_writes|intros _].
apply keeps_bind; [exact save_grid_writes|intros _; apply keeps_ret].
- by intros ? s [Hs _].
- by intros s [Hs _].
Qed.
End EvaluateWrites.
End Writes.

Lemma written_within (permitted : list (string * value)) (evs : list event) :
  Forall (λ ev, writes_within permitted ev.1) evs →
  ∀ w, w ∈ written evs → w ∈ permitted.
Proof.
  unfold written. induction 1 as [|ev evs Hev Hevs IH]; intros w; simpl.
  - by intros ?%elem_of_nil.
  - intros [Hw|Hw]%elem_of_app; [|by apply IH].
    unfold writes_within in Hev. rewrite Forall_forall in Hev. by apply Hev.
Qed.

Lemma evaluate_writes_within (W : world) (s : state) (l : nat) (d : string) (e : Z)
    (pipeline : value) :
  attr_of (heap s) l "output_dir" = Some (VStr d) →
  globals s !! "os" = Some (VLib "os") →
  Forall (λ ev, writes_within (evaluate_writes d e) ev.1)
    (events_from s (evaluate W [VInst l; VInt e; pipeline] s).2).
Proof.
  intros Hdir Hos. unfold evaluate. apply invoke_events. cbv zeta.
  apply (inv_events (writing (evaluate_writes d e) ["config"; "epoch"])).
  apply keeps_run.
  - by apply (evaluate_body_writes W d l e).
  - apply inv_start; intros x Hx; by apply elem_of_nil in Hx.
Qed.

Lemma train_loop_writes_within (W : world) (s : state) (l : nat) (d : string)
    (m ns o dl lr : value) :
  attr_of (heap s) l "output_dir" = Some (VStr d) →
  globals s !! "os" = Some (VLib "os") →
  Forall (λ ev, writes_within (train_loop_writes d) ev.1)
    (events_from s (train_loop W [VInst l; m; ns; o; dl; lr] s).2).
Proof.
  intros Hdir Hos. unfold train_loop. apply invoke_events. cbv zeta.
  apply (inv_events (writing (train_loop_writes d) ["config"])).
  apply keeps_run.
  - by apply (train_loop_body_writes W d l).
  - apply inv_start; intros x Hx; by apply elem_of_nil in Hx.
Qed.

Lemma transform_writes_nothing (W : world) (s : state) (args : list value) :
  Forall (λ ev, writes_within [] ev.1) (events_from s (transform W args s).2).
Proof.
  unfold transform. apply invoke_events. cbv zeta.
  apply (inv_events (writing [] [])). apply keeps_run.
  - unfold transform_body. ksolve.
  - apply inv_start; intros x Hx; by apply elem_of_nil in Hx.
Qed.

Lemma nothing_written (evs : list event) :
  Forall (λ ev, writes_within [] ev.1) evs → written evs = [].
Proof.
  intros H. pose proof (written_within [] evs H) as Hw.
  destruct (written evs) as [|w ws]; [done|].
  exfalso. eapply elem_of_nil. apply (Hw w). by left.
Qed.

(** C8 as stated fails: it names the grid files and the checkpoint as the
    only writes.  In a run of train_loop on the demo state, with libraries
    that always succeed, the paths handed over to be written at are the
    project_dir of the Accelerator and the directory that os.makedirs
    creates, neither of which is a grid file or a checkpoint; and the first
    code cell of the notebook is a shell command that installs packages. *)
Lemma C8_train_loop_writes_neither_a_grid_nor_a_checkpoint :
  written (events_from demo_state (train_loop (demo_world 2) demo_args demo_state).2)
  = [("project_dir", VStr "ddpm-butterflies-128/logs");
     ("makedirs", VStr "ddpm-butterflies-128")]
  ∧ existsb claimed_write
      [("project_dir", VStr "ddpm-butterflies-128/logs");
       ("makedirs", VStr "ddpm-butterflies-128")] = false
  ∧ shell_commands (notebook (demo_world 2)) = ["pip install diffusers[training]"].
Proof. vm_compute. repeat split; reflexivity. Qed.

(** C8 (amended). When config.output_dir is the string d and os is the
    module os, then, whatever the libraries reply: every path that evaluate
    hands over to be written at is d/test_images, to os.makedirs, or the
    grid file d/test_images/NNNN.png of its epoch, to save; every path that
    train_loop hands over is d/logs, as the project_dir of the Accelerator,
    or d, to os.makedirs and to save_pretrained; transform hands over none.
    The code outside evaluate and train_loop calls no writing method and
    names no project_dir, and the one shell command of the notebook is
    pip install diffusers[training]. *)
Theorem C8_the_functions_write_in_the_output_directory
    (W : world) (s : state) (l : nat) (d : string) :
  attr_of (heap s) l "output_dir" = Some (VStr d) →
  globals s !! "os" = Some (VLib "os") →
  (∀ e p w, w ∈ written (events_from s (evaluate W [VInst l; VInt e; p] s).2) →
     w ∈ evaluate_writes d e)
  ∧ (∀ m ns o dl lr w,
       w ∈ written (events_from s (train_loop W [VInst l; m; ns; o; dl; lr] s).2) →
       w ∈ train_loop_writes d)
  ∧ (∀ args, written (events_from s (transform W args s).2) = [])
  ∧ (λ m, Static.call_sites m other_tokens false) <$> writing_methods = [0; 0; 0]%nat
  ∧ Static.mentions ["project_dir"] other_tokens = false
  ∧ shell_commands (notebook W) = ["pip install diffusers[training]"].
Proof.
  intros Hdir Hos. split; [|split; [|split; [|split; [|split]]]].
  - intros e p. apply written_within. by apply (evaluate_writes_within W s l).
  - intros m ns o dl lr. apply written_within. by apply (train_loop_writes_within W s l).
  - intros args. apply nothing_written. apply transform_writes_nothing.
  - vm_compute. reflexivity.
  - vm_compute. reflexivity.
  - reflexivity.
Qed.

Lemma C8_witness :
  attr_of (heap demo_state) 0 "output_dir" = Some (VStr "ddpm-butterflies-128")
  ∧ (∀ e p w,
       w ∈ written (events_from demo_state
                      (evaluate (demo_world 2) [VInst 0; VInt e; p] demo_state).2) →
       w ∈ evaluate_writes "ddpm-butterflies-128" e)
  ∧ (∀ m ns o dl lr w,
       w ∈ written (events_from demo_state
                      (train_loop (demo_world 2) [VInst 0; m; ns; o; dl; lr] demo_state).2) →
       w ∈ train_loop_writes "ddpm-butterflies-128")
  ∧ (∀ args, written (events_from demo_state (transform (demo_world 2) args demo_state).2)
             = [])
  ∧ (λ m, Static.call_sites m other_tokens false) <$> writing_methods = [0; 0; 0]%nat
  ∧ Static.mentions ["project_dir"] other_tokens = false
  ∧ shell_commands (notebook (demo_world 2)) = ["pip install diffusers[training]"].
Proof.
  split; [vm_compute; reflexivity|].
  apply (C8_the_functions_write_in_the_output_directory
           (demo_world 2) demo_state 0 "ddpm-butterflies-128");
    vm_compute; reflexivity.
Defined.

(** The grid of epoch 3, saved by evaluate on the demo state. *)
Example evaluate_writes_the_grid :
  written (events_from demo_state
             (evaluate (demo_world 2) [VInst 0; VInt 3; VExt 9] demo_state).2)
  = [("makedirs", VStr "ddpm-butterflies-128/test_images");
     ("save", VStr "ddpm-butterflies-128/test_images/0003.png")].
Proof. vm_compute. reflexivity. Qed.

(** Every permitted path is the output directory or extends it. *)
Lemma prefix_append (d x : string) : String.prefix d (d +:+ x) = true.
Proof.
  induction d as [|a d IH]; [by destruct x|].
  change (String.prefix (String a d) (String a (d +:+ x)) = true).
  cbn [String.prefix]. destruct (ascii_dec a a); [exact IH|done].
Qed.

Lemma string_append_assoc (a b c : string) : (a +:+ b) +:+ c = a +:+ (b +:+ c).
Proof.
  induction a as [|x a IH]; [done|].
  change (String x ((a +:+ b) +:+ c) = String x (a +:+ (b +:+ c))). by f_equal.
Qed.

Lemma string_append_nil_r (a : string) : a +:+ "" = a.
Proof.
  induction a as [|x a IH]; [done|]. change (String x (a +:+ "") = String x a). by f_equal.
Qed.

Lemma prefix_posix_join (d x rest : string) :
  String.prefix "/" x = false → String.prefix d (posix_join d x +:+ rest) = true.
Proof.
  intros Hx. unfold posix_join. rewrite Hx.
  destruct (_ || _); rewrite ?string_append_assoc; apply prefix_append.
Qed.

Lemma permitted_paths_extend_the_output_dir (d : string) (e : Z) (w : string * value) :
  w ∈ evaluate_writes d e ++ train_loop_writes d →
  ∃ path, w.2 = VStr path ∧ String.prefix d path = true.
Proof.
  unfold evaluate_writes, train_loop_writes, grid_file. simpl.
  rewrite !elem_of_cons, elem_of_nil.
  intros [->|[->|[->|[->|[->|[]]]]]]; simpl; eexists; (split; [done|]).
  - rewrite <- (string_append_nil_r (posix_join d "test_images")) at 1.
    by apply prefix_posix_join.
  - by apply prefix_posix_join.
  - rewrite <- (string_append_nil_r (posix_join d "logs")) at 1.
    by apply prefix_posix_join.
  - rewrite <- (string_append_nil_r d) at 2. apply prefix_append.
  - rewrite <- (string_append_nil_r d) at 2. apply prefix_append.
Qed.

(** * More of the notebook: sessions, the functions, the cells *)

(** Does the request call a method with one of these names? *)
Definition calls (names : list string) (r : request) : bool :=
  match r with
  | RMethod _ m _ _ _ => bool_decide (m ∈ names)
  | _ => false
  end.

(** Does the request call something with one of these keyword arguments? *)
Definition passes (names : list string) (r : request) : bool :=
  match r with
  | RCall _ _ kw => existsb (λ k, bool_decide (k ∈ names)) kw.*1
  | _ => false
  end.

Ltac within ::=
  intros;
  first [ reflexivity
        | exact I
        | solve [constructor]
        | match goal with
          | H : _.*1 = _ |- _ => hnf; unfold writes; rewrite H; solve [constructor]
          | H : _.*1 = _ |- _ => exact H
          | H : _.*1 = _ |- _ => hnf; unfold passes; rewrite H; reflexivity
          end ].

(** ** Sessions

    An interactive session runs cells of the notebook one after the other,
    in any order and any number of times, and goes on after a cell that
    raised: what the cell did before it raised stays done. *)
Fixpoint session (W : world) (cells : list cell) (s : state) : state :=
  match cells with
  | [] => s
  | c :: cells' => session W cells' (run_cell W c s).2
  end.

(** The module-level names that code of the notebook assigns or reads and
    that, as is shown below, no session binds. *)
Definition never_bound : list string :=
  ["TrainingConfig"; "config"; "dataset"; "i"; "image"; "preprocess"; "train_dataloader";
   "model"; "sample_image"; "noise"; "timesteps"; "sample_iamge"; "noisy_image";
   "noise_pred"; "loss"; "optimizer"; "lr_scheduler"; "args"; "sampel_images";
   "sample_images"; "noisy_images"; "create_repo"; "upload_folder"].

(** The attributes of imported modules that a session looks up. *)
Definition module_attributes : list string :=
  ["subplots"; "Compose"; "Resize"; "utils"; "data"; "DataLoader"; "randn"; "glob"].

(** What a session asks of the outside: the package installation, imports,
    lookups of attributes of imported modules, plt.subplots and the
    unpacking of its result, and the construction of the scheduler. *)
Definition session_request (r : request) : Prop :=
  match r with
  | RShell cmd => cmd = "pip install diffusers[training]"
  | RImport _ _ => True
  | RMethod _ m _ _ _ => m = "subplots"
  | RIter _ => True
  | RGetAttr _ a => bool_decide (a ∈ module_attributes) = true
  | RCall _ _ kw => kw.*1 = ["num_train_timesteps"]
  | _ => False
  end.

Definition session_frame : frame := mkFrame session_request [] never_bound [] [] [].

(** The code cells that only import and define: evaluate and train_loop. *)
Definition definition_cells : list nat := [31%nat; 33%nat].


Section Sessions.
Variable W : world.
Variable s0 : state.

Lemma cell_stays_in_session (c : cell) :
c ∈ notebook W → keeps (inv session_frame s0) (run_cell W c).
Proof.
intros [i Hc]%list_elem_of_lookup.
cell_cases Hc; try discriminate Hc.
all: lazymatch goal with
     | |- keeps _ (run_cell _ Markdown) => apply keeps_ret
     | |- keeps _ (run_cell _ (Shell _)) => apply keeps_shell; reflexivity
     | |- keeps _ (run_cell _ (Code _ _)) =>
         cbn [run_cell]; destruct (PySyntax.syntax_error _); [apply keeps_raise|]
     end.
all: lazymatch goal with
     | |- keeps _ (raise _) => apply keeps_raise
     | |- keeps _ (?f _) => unfold f; ksolve
     end.
Qed.

Lemma session_stays (cells : list cell) (s : state) :
Forall (λ c, c ∈ notebook W) cells →
inv session_frame s0 s → inv session_frame s0 (session W cells s).
Proof.
intros Hcells. revert s. induction Hcells as [|c cells Hc Hcells IH]; intros s Hs; [done|].
simpl. apply IH. apply keeps_run; [by apply cell_stays_in_session|done].
Qed.

Lemma data_cell_fails (i : nat) (src : list string) (sem : option (M unit)) :
notebook W !! i = Some (Code src sem) → i ∉ definition_cells →
fails (inv session_frame s0) (run_cell W (Code src sem)).
Proof.
intros Hc Hi. remember (Code src sem) as c eqn:Heq.
cell_cases Hc; try discriminate Hc; try discriminate Heq.
all: try (exfalso; apply Hi; unfold definition_cells;
          repeat first [apply list_elem_of_here | apply list_elem_of_further]; fail).
all: cbn [run_cell]; destruct (PySyntax.syntax_error _); try apply fails_raise.
all: lazymatch goal with |- fails _ (?f _) => unfold f; unfold_py; fsolve end.
Qed.
End Sessions.

(** A kernel that has just been started: nothing is bound and nothing has
    been asked for. *)
Definition fresh_kernel : state := mkState ∅ ∅ ∅ [].

Lemma session_frame_start (s : state) :
  (∀ x, x ∈ never_bound → globals s !! x = None) → inv session_frame s s.
Proof. intros Hg. apply inv_start; [intros x Hx; by apply elem_of_nil in Hx|done]. Qed.

(** X1. In a kernel where config and the other names of [never_bound] are
    unbound, as in a fresh one, no session ever binds one of them: whatever
    cells are run, in whatever order and however the libraries answer,
    config, dataset, preprocess, train_dataloader, model, optimizer,
    lr_scheduler, args and the others stay undefined. *)
Theorem session_never_binds (W : world) (cells : list cell) (s : state) (x : string) :
  Forall (λ c, c ∈ notebook W) cells →
  (∀ y, y ∈ never_bound → globals s !! y = None) →
  x ∈ never_bound → globals (session W cells s) !! x = None.
Proof.
  intros Hcells Hs Hx.
  destruct (session_stays W s cells s Hcells (session_frame_start s Hs))
    as (_ & _ & Hg & _).
  by apply Hg.
Qed.

Lemma session_never_binds_witness :
  globals (session (demo_world 2) (notebook (demo_world 2)) fresh_kernel) !! "config" = None.
Proof.
  apply (session_never_binds (demo_world 2) (notebook (demo_world 2)) fresh_kernel "config").
  - by apply Forall_forall.
  - intros y _. apply lookup_empty.
  - unfold never_bound. apply list_elem_of_further, list_elem_of_here.
Defined.

(** X2. In such a kernel every code cell other than the two that only
    import and define evaluate and train_loop raises, whatever the
    libraries answer: three are syntax errors and the others read a name
    that is unbound. *)
Theorem code_cells_raise (W : world) (s : state) (i : nat) (src : list string)
    (sem : option (M unit)) :
  (∀ y, y ∈ never_bound → globals s !! y = None) →
  notebook W !! i = Some (Code src sem) → i ∉ definition_cells →
  ∃ e, (run_cell W (Code src sem) s).1 = Exc e.
Proof.
  intros Hs Hc Hi. eapply fails_run; [by eapply data_cell_fails|].
  by apply session_frame_start.
Qed.

Lemma code_cells_raise_witness :
  ∃ e, (run_cell (demo_world 2)
          (Code Source.src_launch (Some (cell_launch (demo_world 2)))) fresh_kernel).1 = Exc e.
Proof.
  apply (code_cells_raise (demo_world 2) fresh_kernel 34).
  - intros y _. apply lookup_empty.
  - reflexivity.
  - unfold definition_cells. intros Hi. by repeat apply elem_of_cons in Hi as [?|Hi];
      [..|apply elem_of_nil in Hi].
Defined.

(** X3. All that a session in such a kernel asks of the outside is the
    package installation, imports, lookups of attributes of imported
    modules, plt.subplots with the unpacking of its result, and the
    construction of the scheduler: the dataset is never loaded, no model or
    data loader is built, and the launcher is never called. *)
Theorem session_requests (W : world) (cells : list cell) (s : state) :
  Forall (λ c, c ∈ notebook W) cells →
  (∀ y, y ∈ never_bound → globals s !! y = None) →
  Forall (λ ev, session_request ev.1) (events_from s (session W cells s)).
Proof.
  intros Hcells Hs. apply (inv_events session_frame).
  by apply session_stays; [|apply session_frame_start].
Qed.

Lemma session_requests_witness :
  Forall (λ ev, session_request ev.1)
    (events_from fresh_kernel (session (demo_world 2) (notebook (demo_world 2)) fresh_kernel)).
Proof.
  apply (session_requests (demo_world 2) (notebook (demo_world 2)) fresh_kernel).
  - by apply Forall_forall.
  - intros y _. apply lookup_empty.
Defined.

(** ** train_loop: what a normal return means, and the hub branch *)

(** The frame of a run of train_loop that has neither started an epoch,
    which begins with tqdm(total=...), nor built the pipeline to save,
    DDPMPipeline(unet=...). *)
Definition idle_frame : frame :=
  mkFrame (λ r, passes ["total"; "unet"] r = false) ["loss"; "epoch"] ["noisy_images"]
    [] [] [].

Section NormalReturn.
Variable W : world.
Variable s0 : state.

Lemma raising {A} (I : state → Prop) (m : M A) (Q : A → state → Prop) :
(∀ s, I s → ∃ e, (m s).1 = Exc e) → hoare I m Q (λ _, True).
Proof.
intros Hm s Hs. destruct (Hm s Hs) as [e He]. by destruct (m s) as [[a|x] s'].
Qed.

Lemma idle_unbound (s : state) :
inv idle_frame s0 s → inv (before_epochs never_saved) s s.
Proof.
intros (_ & Hl & Hg & _). apply inv_start; [exact Hl|exact Hg].
Qed.

Lemma idle_weaken {A} (m : M A) :
keeps (inv idle_frame s0) m → hoare (inv idle_frame s0) m (λ _, inv idle_frame s0) (λ _, True).
Proof. intros Hm. eapply hoare_weaken; [exact Hm|auto|auto]. Qed.

Lemma idle_epochs :
hoare (inv idle_frame s0) (train_epochs W) (λ _, inv idle_frame s0) (λ _, True).
Proof.
unfold train_epochs. apply hoare_bind with (Q := λ _, inv idle_frame s0).
{ apply idle_weaken. unfold train_setup. ksolve. }
intros _. unfold For. apply hoare_bind with (Q := λ _, inv idle_frame s0).
{ apply idle_weaken. ksolve. }
intros [|v vs]; [by intros s Hs|].
cbn [for_each]. eapply hoare_bind with (Q := λ _ _, False); [|by intros _ s []].
apply raising. intros s Hs%idle_unbound%inv_weaken.
by apply (fails_run _ _ s (first_epoch_fails W s v)).
Qed.

Lemma idle_save :
hoare (inv idle_frame s0) (train_save W) (λ _, inv idle_frame s0) (λ _, True).
Proof.
unfold train_save. unfold If_ at 1.
apply hoare_bind with (Q := λ _, inv idle_frame s0); [apply idle_weaken; ksolve|].
intros c. apply hoare_bind with (Q := λ _, inv idle_frame s0);
  [apply idle_weaken; ksolve|].
intros [|]; [|by intros s Hs].
apply raising. intros s Hs%idle_unbound. eapply fails_run; [|exact Hs].
unfold_py. fsolve.
Qed.

Lemma idle_body :
hoare (inv idle_frame s0) (train_loop_body W)
  (λ v s, v = VNone ∧ inv idle_frame s0 s) (λ _, True).
Proof.
unfold train_loop_body.
apply hoare_bind with (Q := λ _, inv idle_frame s0); [apply idle_epochs|].
intros _. apply hoare_bind with (Q := λ _, inv idle_frame s0); [apply idle_save|].
by intros _ s Hs.
Qed.
End NormalReturn.

(** X4. While noisy_images is unbound, a call of train_loop that returns
    normally returns None and has done no training and saved nothing: it
    started no epoch (tqdm was never called with total=...) and built no
    pipeline (DDPMPipeline was never called with unet=...).  Any run that
    gets as far as either of them raises. *)
Theorem train_loop_returns_only_when_idle (W : world) (args : list value) (s : state)
    (v : value) :
  globals s !! "noisy_images" = None →
  (train_loop W args s).1 = Ok v →
  v = VNone
  ∧ Forall (λ ev, passes ["total"; "unet"] ev.1 = false)
      (events_from s (train_loop W args s).2).
Proof.
  intros Hg. unfold train_loop, invoke. case_bool_decide as Hlen; [|done].
  set (s1 := set_locals _ s).
  assert (inv idle_frame s1 s1) as Hs1.
  { apply inv_start.
    - intros x Hx. apply frame_lookup_None.
      apply elem_of_cons in Hx as [->|Hx];
        [by apply (bool_decide_eq_false_1 ("loss" ∈ _))|].
      apply list_elem_of_singleton in Hx as ->.
      by apply (bool_decide_eq_false_1 ("epoch" ∈ _)).
    - by intros x ->%list_elem_of_singleton. }
  pose proof (idle_body W s1 s1 Hs1) as H.
  destruct (train_loop_body W s1) as [[v'|e] s']; [|done].
  destruct H as [-> Hs']. intros [= <-]. split; [done|].
  apply (inv_events idle_frame s1) in Hs'. exact Hs'.
Qed.

(** ** train_loop on the main process *)

(** Libraries as train_loop meets them on the main process: what a
    constructor call with keyword arguments only returns is an object, and
    is_main_process, when it can be read, is True. *)
Definition main_process (W : world) : Prop :=
  (∀ h f kw v, W h (RCall f [] kw) = Ret v → is_object v)
  ∧ (∀ h o v, W h (RGetAttr o "is_main_process") = Ret v → v = VBool true).

(** No epoch has got as far as binding [loss], and none has begun. *)
Definition unstarted (s : state) : Prop :=
  locals s !! "loss" = None ∧ locals s !! "epoch" = None
  ∧ globals s !! "noisy_images" = None.

(** The same, once the accelerator has been constructed. *)
Definition accelerated (s : state) : Prop :=
  unstarted s ∧ ∃ n, locals s !! "accelerator" = Some (VExt n).

Definition accelerated_frame : frame :=
  mkFrame (λ _, True) ["loss"; "epoch"] ["noisy_images"] [] ["accelerator"] [].

Section MainProcess.
Variable W : world.
Hypothesis Hmain : main_process W.
Local Set Default Proof Using "All".

Lemma unstarted_start (F : frame) (s : state) :
unbound_locals F = ["loss"; "epoch"] → unbound_globals F = ["noisy_images"] →
unstarted s → inv F s s.
Proof.
intros Hl Hg (Hloss & Hepoch & Hnoisy). apply inv_start.
- rewrite Hl. intros x [->|[->|[]%elem_of_nil]%elem_of_cons]%elem_of_cons; done.
- rewrite Hg. by intros x ->%list_elem_of_singleton.
Qed.

Lemma unstarted_end (F : frame) (s0 s : state) :
unbound_locals F = ["loss"; "epoch"] → unbound_globals F = ["noisy_images"] →
inv F s0 s → unstarted s.
Proof.
intros Hl Hg (_ & Hul & Hug & _). rewrite Hl in Hul. rewrite Hg in Hug.
repeat split.
- apply Hul. apply list_elem_of_here.
- apply Hul. apply list_elem_of_further, list_elem_of_here.
- apply Hug. apply list_elem_of_here.
Qed.

Lemma unstarted_keeps {A} (m : M A) :
(∀ s0, keeps (inv (before_epochs []) s0) m) → keeps unstarted m.
Proof.
intros Hm s Hs. specialize (Hm s s (unstarted_start (before_epochs []) s eq_refl eq_refl Hs)).
destruct (m s) as [[a|e] s']; by apply (unstarted_end (before_epochs []) s).
Qed.

Lemma accelerated_keeps {A} (m : M A) :
(∀ s0, keeps (inv accelerated_frame s0) m) → keeps accelerated m.
Proof.
intros Hm s [Hs [n Hn]].
specialize (Hm s s (unstarted_start accelerated_frame s eq_refl eq_refl Hs)).
assert (∀ s', inv accelerated_frame s s' → accelerated s') as Hend.
{ intros s' Hs'. split; [by apply (unstarted_end accelerated_frame s)|].
  exists n. destruct Hs' as (_ & _ & _ & _ & Hkl & _).
  rewrite Hkl; [done|]. apply list_elem_of_here. }
destruct (m s) as [[a|e] s']; by apply Hend.
Qed.

Lemma constructed (f : value) (kw : list (string * value)) :
hoare unstarted (call W f [] kw) (λ v s, is_object v ∧ unstarted s) (λ _, True).
Proof.
intros s Hs. unfold call, ask. destruct Hmain as [Hobj _].
destruct (W (hist s) (RCall f [] kw)) as [v|e] eqn:E; [|done].
split; [by eapply Hobj|done].
Qed.

Lemma accelerator_constructed (kw : list (string * M value)) :
(∀ s0, keeps (inv (before_epochs []) s0) (keywords kw)) →
hoare unstarted (Assign "accelerator" (Call W (G "Accelerator") [] kw))
  (λ _, accelerated) (λ _, True).
Proof.
intros Hkw. unfold Assign, Call.
apply hoare_bind with (Q := λ v s, is_object v ∧ unstarted s).
- apply hoare_bind with (Q := λ _, unstarted).
  { eapply hoare_weaken; [apply unstarted_keeps; intros s0; ks|auto|auto]. }
  intros fv. cbn [mapM].
  apply hoare_bind with (Q := λ avs s, avs = [] ∧ unstarted s); [by intros s Hs|].
  intros avs.
  apply hoare_bind with (Q := λ _ s, avs = [] ∧ unstarted s).
  { intros s [-> Hs]. pose proof (unstarted_keeps _ Hkw s Hs) as H.
    by destruct (keywords kw s) as [[kvs|e] s']. }
  intros kvs s [-> Hs]. by apply constructed.
- intros v s [[n ->] (Hloss & Hepoch & Hnoisy)]. cbn [setL]. repeat split.
  + simpl. by rewrite lookup_insert_ne.
  + simpl. by rewrite lookup_insert_ne.
  + done.
  + exists n. simpl. by rewrite lookup_insert_eq.
Qed.

Lemma main_process_checked :
hoare accelerated (Attr W (L "accelerator") "is_main_process")
  (λ c s, c = VBool true ∧ accelerated s) (λ _, True).
Proof.
intros s Hs. destruct Hs as [Hu [n Hn]]. destruct Hmain as [_ Htrue].
unfold Attr, mbind, M_bind, bind. erewrite run_L by exact Hn.
cbn [getattr]. unfold ask.
destruct (W (hist s) (RGetAttr (VExt n) "is_main_process")) as [v|e] eqn:E; [|done].
split; [by eapply Htrue|]. split; [done|by exists n].
Qed.

Lemma save_block_raises :
hoare accelerated (train_save W) (λ _ _, False) (λ _, True).
Proof.
unfold train_save. unfold If_ at 1.
apply hoare_bind with (Q := λ c s, c = VBool true ∧ accelerated s);
  [apply main_process_checked|].
intros c. apply raising. intros s [-> [Hs _]].
rewrite run_bind. cbn [truthy]. rewrite run_ret. cbn beta iota.
eapply fails_run; [|exact (unstarted_start (before_epochs never_saved) s eq_refl eq_refl Hs)].
unfold_py. fsolve.
Qed.

Lemma main_process_body :
hoare unstarted (train_loop_body W) (λ _ _, False) (λ _, True).
Proof.
unfold train_loop_body, train_epochs.
apply hoare_bind with (Q := λ _, accelerated).
2: { intros _. apply hoare_bind with (Q := λ _ _, False); [|by intros _ s []].
     apply save_block_raises. }
apply hoare_bind with (Q := λ _, accelerated).
- unfold train_setup. apply hoare_bind with (Q := λ _, accelerated).
  + apply accelerator_constructed. intros s0. ksolve.
  + intros _. eapply hoare_weaken; [apply accelerated_keeps; intros s0; ksolve|auto|auto].
- intros _. unfold For. apply hoare_bind with (Q := λ _, accelerated).
  { eapply hoare_weaken; [apply accelerated_keeps; intros s0; ksolve|auto|auto]. }
  intros [|v vs]; [by intros s Hs|].
  cbn [for_each]. apply hoare_bind with (Q := λ _ _, False); [|by intros _ s []].
  apply raising. intros s [Hs _].
  eapply fails_run; [apply (first_epoch_fails W s v)|].
  apply inv_weaken. exact (unstarted_start (before_epochs never_saved) s eq_refl eq_refl Hs).
Qed.
End MainProcess.

(** X5. On the main process train_loop never returns: while noisy_images
    is unbound, every call raises, whatever the arguments, the number of
    epochs and the replies of the libraries.  With one epoch or more the
    first epoch raises; with none the save block does, where it reads
    epoch. *)
Theorem train_loop_raises_on_the_main_process (W : world) (args : list value) (s : state) :
  main_process W → globals s !! "noisy_images" = None →
  ∃ e, (train_loop W args s).1 = Exc e.
Proof.
  intros Hmain Hg. unfold train_loop, invoke. case_bool_decide as Hlen; [|by eexists].
  set (s1 := set_locals _ s).
  assert (unstarted s1) as Hs1.
  { repeat split; [apply frame_lookup_None..|done];
      [by apply (bool_decide_eq_false_1 ("loss" ∈ _))
      |by apply (bool_decide_eq_false_1 ("epoch" ∈ _))]. }
  pose proof (main_process_body W Hmain s1 Hs1) as H.
  destruct (train_loop_body W s1) as [[v|e] s']; [done|by eexists].
Qed.

(** The sample libraries on a process that is not the main one. *)
Definition worker_world : world := λ h r,
  match r with
  | RGetAttr _ a =>
      if String.eqb a "is_main_process" then Ret (VBool false)
      else Ret (VExt (100 + length h))
  | _ => demo_world 2 h r
  end.

(** The sample state with a configuration of no epochs. *)
Definition no_epochs_state : state :=
  mkState ∅ demo_globals {[ 0%nat := <["num_epochs" := VInt 0]> config_attrs ]} [].

Lemma train_loop_returns_only_when_idle_witness :
  (train_loop worker_world demo_args no_epochs_state).1 = Ok VNone
  ∧ Forall (λ ev, passes ["total"; "unet"] ev.1 = false)
      (events_from no_epochs_state (train_loop worker_world demo_args no_epochs_state).2).
Proof.
  split; [vm_compute; reflexivity|].
  apply (train_loop_returns_only_when_idle worker_world demo_args no_epochs_state VNone);
    vm_compute; reflexivity.
Defined.

Lemma demo_world_main_process (n : nat) : main_process (demo_world n).
Proof.
  split.
  - intros h f kw v [= <-]. by eexists.
  - intros h o v [= <-]. done.
Qed.

Lemma train_loop_raises_on_the_main_process_witness :
  ∃ e, (train_loop (demo_world 2) demo_args no_epochs_state).1 = Exc e.
Proof.
  apply (train_loop_raises_on_the_main_process (demo_world 2) demo_args no_epochs_state).
  - apply demo_world_main_process.
  - vm_compute. reflexivity.
Defined.

(** With no epochs the main process gets to the save block, builds the
    pipeline and stops where the block reads epoch. *)
Example no_epochs_on_the_main_process :
  let r := train_loop (demo_world 2) demo_args no_epochs_state in
  r.1 = Exc (UnboundLocalError "epoch")
  ∧ existsb (passes ["unet"]) (hist r.2).*1 = true
  ∧ existsb (passes ["total"]) (hist r.2).*1 = false.
Proof. vm_compute. repeat split; reflexivity. Qed.

(** ** The hub branch *)

(** X6. train_loop calls create_repo and upload_folder, which no cell
    imports or defines.  While they are unbound no run of train_loop makes
    either call: a run that reaches one raises NameError. *)
Theorem train_loop_never_reaches_the_hub (W : world) (args : list value) (s : state) :
  globals s !! "create_repo" = None → globals s !! "upload_folder" = None →
  Forall (λ ev, passes ["repo_id"; "folder_path"] ev.1 = false)
    (events_from s (train_loop W args s).2).
Proof.
  intros Hc Hu.
  apply (inv_events
           (mkFrame (λ r, passes ["repo_id"; "folder_path"] r = false) []
              ["create_repo"; "upload_folder"] [] [] [])).
  apply keeps_run.
  - unfold_functions. ksolve.
  - apply inv_start; [intros x Hx; by apply elem_of_nil in Hx|].
    intros x [->|[->|[]%elem_of_nil]%elem_of_cons]%elem_of_cons; done.
Qed.

Lemma train_loop_never_reaches_the_hub_witness :
  Forall (λ ev, passes ["repo_id"; "folder_path"] ev.1 = false)
    (events_from demo_state (train_loop (demo_world 2) demo_args demo_state).2).
Proof.
  apply (train_loop_never_reaches_the_hub (demo_world 2) demo_args demo_state);
    vm_compute; reflexivity.
Defined.

(** ** The functions and the module name space *)

Definition keeping_global (x : string) : frame := mkFrame (λ _, True) [] [] [] [] [x].

(** X7. A call of transform, evaluate or train_loop rebinds no module-level
    name, whatever it is given and however it ends: what train_loop assigns
    to model, optimizer, train_dataloader and lr_scheduler stays in its own
    frame.  When the call returns, the caller's local names are as they
    were. *)
Theorem functions_leave_the_name_spaces (W : world) (name : string)
    (f : list value → M value) (args : list value) (s : state) :
  functions W name = Some f →
  globals (f args s).2 = globals s
  ∧ ∀ v, (f args s).1 = Ok v → locals (f args s).2 = locals s.
Proof.
  intros Hf. split.
  - apply map_eq. intros x.
    assert (inv (keeping_global x) s (f args s).2) as (_ & _ & _ & _ & _ & Hkg).
    { apply keeps_run; [|apply inv_start; intros y Hy; by apply elem_of_nil in Hy].
      ks. }
    apply Hkg. apply list_elem_of_here.
  - unfold functions in Hf.
    repeat case_match; simplify_eq; unfold transform, evaluate, train_loop, invoke;
      intros v; case_bool_decide; try done;
      match goal with
      | |- context [match ?b with _ => _ end] => by destruct b as [[v'|e] s']
      end.
Qed.

Lemma functions_leave_the_name_spaces_witness :
  globals (train_loop (demo_world 2) demo_args demo_state).2 = globals demo_state
  ∧ ∀ v, (train_loop (demo_world 2) demo_args demo_state).1 = Ok v →
         locals (train_loop (demo_world 2) demo_args demo_state).2 = locals demo_state.
Proof.
  apply (functions_leave_the_name_spaces (demo_world 2) "train_loop").
  reflexivity.
Defined.

(** ** Misspelt names in the cells *)

(** X8. The scheduler cell hands [sample_iamge] to add_noise, and nothing
    binds that name.  While it is unbound the cell raises, whatever the
    libraries answer: add_noise is never called, nor anything of the image
    conversion after it, and noisy_image is left as it was. *)
Theorem scheduler_cell_never_adds_noise (W : world) (s : state) :
  globals s !! "sample_iamge" = None →
  (∃ e, (cell_scheduler W s).1 = Exc e)
  ∧ Forall (λ ev, calls ["add_noise"; "permute"; "type"; "numpy"; "fromarray"] ev.1 = false)
      (events_from s (cell_scheduler W s).2)
  ∧ globals (cell_scheduler W s).2 !! "noisy_image" = globals s !! "noisy_image".
Proof.
  intros Hg.
  set (F := mkFrame (λ r, calls ["add_noise"; "permute"; "type"; "numpy"; "fromarray"] r
                          = false)
              [] ["sample_iamge"] [] [] ["noisy_image"]).
  assert (inv F s s) as Hs.
  { apply inv_start; [intros x Hx; by apply elem_of_nil in Hx|].
    by intros x ->%list_elem_of_singleton. }
  assert (fails (inv F s) (cell_scheduler W)) as Hf.
  { unfold cell_scheduler. unfold_py. fsolve. }
  split; [by eapply fails_run|].
  pose proof (keeps_run _ _ s (fails_keeps _ _ Hf) Hs) as Hend.
  split; [by apply (inv_events F)|].
  destruct Hend as (_ & _ & _ & _ & _ & Hkg). apply Hkg. apply list_elem_of_here.
Qed.

Lemma scheduler_cell_never_adds_noise_witness :
  (∃ e, (cell_scheduler (demo_world 2) demo_state).1 = Exc e)
  ∧ Forall (λ ev, calls ["add_noise"; "permute"; "type"; "numpy"; "fromarray"] ev.1 = false)
      (events_from demo_state (cell_scheduler (demo_world 2) demo_state).2)
  ∧ globals (cell_scheduler (demo_world 2) demo_state).2 !! "noisy_image"
    = globals demo_state !! "noisy_image".
Proof.
  apply (scheduler_cell_never_adds_noise (demo_world 2) demo_state).
  vm_compute. reflexivity.
Defined.

(** X9. The last cell binds [sampel_images] and then reads
    [sample_images].  While the latter is unbound the cell raises, whatever
    the libraries answer, and Image.open is never called. *)
Theorem result_cell_never_opens_an_image (W : world) (s : state) :
  globals s !! "sample_images" = None →
  (∃ e, (cell_show_result W s).1 = Exc e)
  ∧ Forall (λ ev, calls ["open"] ev.1 = false)
      (events_from s (cell_show_result W s).2).
Proof.
  intros Hg.
  set (F := mkFrame (λ r, calls ["open"] r = false) [] ["sample_images"] [] [] []).
  assert (inv F s s) as Hs.
  { apply inv_start; [intros x Hx; by apply elem_of_nil in Hx|].
    by intros x ->%list_elem_of_singleton. }
  assert (fails (inv F s) (cell_show_result W)) as Hf.
  { unfold cell_show_result. unfold_py. fsolve. }
  split; [by eapply fails_run|].
  apply (inv_events F). exact (keeps_run _ _ s (fails_keeps _ _ Hf) Hs).
Qed.

Lemma result_cell_never_opens_an_image_witness :
  (∃ e, (cell_show_result (demo_world 2) demo_state).1 = Exc e)
  ∧ Forall (λ ev, calls ["open"] ev.1 = false)
      (events_from demo_state (cell_show_result (demo_world 2) demo_state).2).
Proof.
  apply (result_cell_never_opens_an_image (demo_world 2) demo_state).
  vm_compute. reflexivity.
Defined.

(** In the sample state, where config and the other names are bound, the
    last cell gets through glob and sorted and stops at the misspelt name. *)
Example result_cell_stops_at_the_misspelt_name :
  (cell_show_result (demo_world 2) demo_state).1 = Exc (NameError "sample_images")
  ∧ globals (cell_show_result (demo_world 2) demo_state).2 !! "sampel_images" ≠ None.
Proof. vm_compute. split; [reflexivity|discriminate]. Qed.

(** ** evaluate: the epoch in the file name *)

Definition saving_frame : frame :=
  mkFrame (λ r, calls ["save"] r = false) [] [] [] ["epoch"] [].

Section StringEpoch.
Variable W : world.
Variables (s0 : state) (t : string).
Hypothesis Hepoch : locals s0 !! "epoch" = Some (VStr t).
Local Set Default Proof Using "All".

Lemma string_epoch_is_not_formatted :
fails (inv saving_frame s0) (L "epoch" ≫= λ v, format_value W v "04d").
Proof.
intros s Hs. destruct Hs as (Hh & Hl & Hg & Ha & Hkl & Hkg).
unfold mbind, M_bind, bind.
erewrite run_L by (rewrite Hkl; [exact Hepoch|apply list_elem_of_here]).
simpl. repeat split; done.
Qed.

Lemma string_epoch_is_not_saved : fails (inv saving_frame s0) (evaluate_body W).
Proof.
unfold evaluate_body.
apply fails_bind_r; [ksolve|intros _]. apply fails_bind_r; [ksolve|intros _].
apply fails_bind_r; [ksolve|intros _]. apply fails_bind_r; [ksolve|intros _].
apply fails_bind_l. unfold Expr, MCall. apply fails_bind_l.
apply fails_bind_r; [ks|intros ov]. apply fails_bind_r; [ks|intros f].
apply fails_bind_l. cbn [mapM]. apply fails_bind_l. unfold id, Fstr.
apply fails_bind_l. cbn [mapM].
apply fails_bind_r; [ks|intros y1]. apply fails_bind_l.
apply fails_bind_r; [ks|intros y2]. apply fails_bind_l. apply fails_bind_l.
apply string_epoch_is_not_formatted.
Qed.
End StringEpoch.

(** X10. evaluate formats the epoch with 04d, which a string does not
    take.  Called with a string for the epoch, evaluate raises, whatever
    the libraries answer, and never calls save: at the latest it stops with
    ValueError where it builds the file name, after the images have been
    sampled and the directory made. *)
Theorem evaluate_needs_a_number_for_the_epoch
    (W : world) (config pipeline : value) (t : string) (s : state) :
  (∃ e, (evaluate W [config; VStr t; pipeline] s).1 = Exc e)
  ∧ Forall (λ ev, calls ["save"] ev.1 = false)
      (events_from s (evaluate W [config; VStr t; pipeline] s).2).
Proof.
  unfold evaluate. rewrite run_invoke by done.
  set (s1 := set_locals _ s).
  assert (locals s1 !! "epoch" = Some (VStr t)) as Hepoch.
  { subst s1. cbn [locals set_locals zip zip_with list_to_map foldr fst snd uncurry].
    rewrite lookup_insert_ne by done. by rewrite lookup_insert_eq. }
  assert (inv saving_frame s1 s1) as Hs1
    by (apply inv_start; intros x Hx; by apply elem_of_nil in Hx).
  pose proof (string_epoch_is_not_saved W s1 t Hepoch) as Hf.
  pose proof (Hf s1 Hs1) as H.
  destruct (evaluate_body W s1) as [[v|e] s'] eqn:E; [done|].
  split; [by eexists|].
  change (Forall (λ ev, calls ["save"] ev.1 = false) (events_from s1 s')).
  by apply (inv_events saving_frame).
Qed.

(** On the sample state the run gets as far as the file name: the images
    are sampled, the grid is made and the directory is created. *)
Example evaluate_with_a_string_epoch :
  let r := evaluate (demo_world 2) [VInst 0; VStr "3"; VExt 9] demo_state in
  r.1 = Exc (ValueError "format code d for str")
  ∧ calls ["makedirs"] <$> (hist r.2).*1
    = [false; false; false; false; false; false; true; false].
Proof. vm_compute. split; reflexivity. Qed.

(** ** transform: one preprocessed image per image, in order *)

(** [piped pre images outs evs]: the requests [evs] take the images one
    after the other; each is converted to RGB, the converted image is given
    to [pre], and what [pre] returns is collected in [outs]. *)
Inductive piped (pre : value) : list value → list value → list event → Prop :=
| piped_nil : piped pre [] [] []
| piped_cons (image convert rgb out : value) (images outs : list value)
    (evs : list event) :
    piped pre images outs evs →
    piped pre (image :: images) (out :: outs)
      ((RGetAttr image "convert", Ret convert)
       :: (RMethod image "convert" convert [VStr "RGB"] [], Ret rgb)
       :: (RCall pre [rgb] [], Ret out) :: evs).

Lemma piped_length (pre : value) (images outs : list value) (evs : list event) :
  piped pre images outs evs → length outs = length images ∧ length evs = (3 * length images)%nat.
Proof. induction 1 as [|???????? [IH1 IH2]]; simpl; [done|]. split; lia. Qed.

Section Transform.
Variable W : world.
Variable pre : value.

(** The element of the comprehension, for one image. *)
Definition preprocess_one (v : value) : M value :=
setL "image" v;;
Call W (G "preprocess") [MCall W (L "image") "convert" [Str "RGB"] []] [].

Lemma preprocess_one_run (n : nat) (s : state) :
globals s !! "preprocess" = Some pre →
match preprocess_one (VExt n) s with
| (Ok out, s') =>
    ∃ convert rgb,
      hist s' = hist s ++ [(RGetAttr (VExt n) "convert", Ret convert);
                           (RMethod (VExt n) "convert" convert [VStr "RGB"] [], Ret rgb);
                           (RCall pre [rgb] [], Ret out)]
      ∧ globals s' = globals s
| (Exc _, _) => True
end.
Proof.
intros Hpre. unfold preprocess_one. unfold_py.
wstep E1; [|by wrun]. wstep E2; [|by wrun]. wstep E3; [|by wrun].
wrun. eexists _, _. split; [|done].
cbn [hist log set_locals]. by rewrite <- !app_assoc.
Qed.

Lemma comprehension_pipes (images : list value) (s : state) :
Forall is_object images → globals s !! "preprocess" = Some pre →
match mapM preprocess_one images s with
| (Ok outs, s') => ∃ evs, hist s' = hist s ++ evs ∧ piped pre images outs evs
                          ∧ globals s' = globals s
| (Exc _, _) => True
end.
Proof.
intros Himgs. revert s. induction Himgs as [|img images [n ->] Himgs IH]; intros s Hpre.
- simpl. exists []. rewrite app_nil_r. repeat split. constructor.
- cbn [mapM]. rewrite run_bind.
  pose proof (preprocess_one_run n s Hpre) as H1.
  destruct (preprocess_one (VExt n) s) as [[out|e] s1]; [|done].
  destruct H1 as (convert & rgb & Hh1 & Hg1).
  rewrite run_bind. specialize (IH s1). rewrite Hg1 in IH. specialize (IH Hpre).
  destruct (mapM preprocess_one images s1) as [[outs|e] s2]; [|done].
  destruct IH as (evs & Hh2 & Hp & Hg2). rewrite run_mret.
  eexists. split; [|split].
  + rewrite Hh2, Hh1, <- app_assoc. reflexivity.
  + simpl. by constructor.
  + by rewrite Hg2.
Qed.
End Transform.

Lemma transform_body_pipes (W : world) (pre : value) (batch : list (string * value))
    (images : list value) (s : state) :
  assoc "image" batch = Some (VList images) → Forall is_object images →
  globals s !! "preprocess" = Some pre → locals s !! "examples" = Some (VDict batch) →
  match transform_body W s with
  | (Ok v, s') =>
      ∃ outs evs, v = VDict [("images", VList outs)]
                  ∧ hist s' = hist s ++ evs ∧ piped pre images outs evs
  | (Exc _, _) => True
  end.
Proof.
  intros Hbatch Himgs Hpre Hex.
  unfold transform_body, Assign, ListComp, Iter, Idx.
  sx. unfold Str at 1. sx. cbn [getitem]. rewrite Hbatch. sx.
  unfold scoped.
  pose proof (comprehension_pipes W pre images s Himgs Hpre) as H.
  unfold preprocess_one in H.
  destruct (mapM _ images s) as [[outs|e] s1]; [|done].
  destruct H as (evs & Hh & Hp & Hg).
  unfold Dict, keywords. sx.
  eexists outs, evs. repeat split; [|done].
  cbn [hist set_locals]. exact Hh.
Qed.
(** X11. Given a batch whose "image" entry is a list of images, with
    preprocess bound, a call of transform that returns has taken the images
    in order, converted each to RGB and given the converted image to
    preprocess, and returns the dict with the one key "images" holding what
    preprocess returned, in the same order and as many as the images. *)
Theorem transform_preprocesses_every_image
    (W : world) (pre : value) (batch : list (string * value)) (images : list value)
    (s : state) (v : value) :
  assoc "image" batch = Some (VList images) → Forall is_object images →
  globals s !! "preprocess" = Some pre →
  (transform W [VDict batch] s).1 = Ok v →
  ∃ outs, v = VDict [("images", VList outs)]
          ∧ length outs = length images
          ∧ piped pre images outs (events_from s (transform W [VDict batch] s).2).
Proof.
  intros Hbatch Himgs Hpre. unfold transform. rewrite run_invoke by done.
  set (s1 := set_locals _ s).
  pose proof (transform_body_pipes W pre batch images s1 Hbatch Himgs Hpre eq_refl) as H.
  destruct (transform_body W s1) as [[v'|e] s']; [|done].
  destruct H as (outs & evs & -> & Hh & Hp). intros [= <-].
  exists outs. split; [done|]. split; [by apply (piped_length pre images outs evs)|].
  unfold events_from. cbn [snd hist set_locals]. rewrite Hh.
  subst s1. cbn [hist set_locals]. by rewrite drop_app_length.
Qed.

Lemma transform_preprocesses_every_image_witness :
  let s := set_globals (insert "preprocess" (VExt 7)) demo_state in
  let batch := [("image", VList [VExt 20; VExt 21]); ("label", VList [VInt 0; VInt 1])] in
  ∃ outs, length outs = 2%nat
          ∧ piped (VExt 7) [VExt 20; VExt 21] outs
              (events_from s (transform (demo_world 2) [VDict batch] s).2).
Proof.
  intros s batch.
  destruct (transform_preprocesses_every_image (demo_world 2) (VExt 7) batch
              [VExt 20; VExt 21] s
              (VDict [("images", VList [VExt 102; VExt 105])]))
    as (outs & _ & Hlen & Hp).
  - reflexivity.
  - repeat constructor; by eexists.
  - vm_compute. reflexivity.
  - vm_compute. reflexivity.
  - by exists outs.
Defined.

(** X12. A batch without the key "image" makes transform raise KeyError
    before anything is asked of the libraries. *)
Theorem transform_needs_the_image_key (W : world) (batch : list (string * value))
    (s : state) :
  assoc "image" batch = None →
  (transform W [VDict batch] s).1 = Exc (KeyError "image")
  ∧ events_from s (transform W [VDict batch] s).2 = [].
Proof.
  intros Hbatch.
  assert (transform W [VDict batch] s
          = (Exc (KeyError "image"),
             set_locals (λ _, list_to_map (zip ["examples"] [VDict batch])) s)) as ->.
  { unfold transform. rewrite run_invoke by done.
    unfold transform_body, Assign, ListComp, Iter, Idx.
    sx. unfold Str at 1. sx. cbn [getitem]. rewrite Hbatch. by sx. }
  split; [done|]. unfold events_from. simpl. apply drop_all.
Qed.

Lemma transform_needs_the_image_key_witness :
  (transform (demo_world 2) [VDict [("label", VList [VInt 0])]] demo_state).1
  = Exc (KeyError "image")
  ∧ events_from demo_state
      (transform (demo_world 2) [VDict [("label", VList [VInt 0])]] demo_state).2 = [].
Proof.
  apply (transform_needs_the_image_key (demo_world 2) [("label", VList [VInt 0])] demo_state).
  reflexivity.
Defined.
(** X13. In the call preprocess(image.convert(...)) the name preprocess is
    looked up first: while it is unbound, transform on a batch with at
    least one image raises NameError and asks nothing of the image. *)
Theorem transform_looks_up_preprocess_first (W : world) (batch : list (string * value))
    (image : value) (images : list value) (s : state) :
  assoc "image" batch = Some (VList (image :: images)) →
  globals s !! "preprocess" = None →
  (transform W [VDict batch] s).1 = Exc (NameError "preprocess")
  ∧ events_from s (transform W [VDict batch] s).2 = [].
Proof.
  intros Hbatch Hpre.
  assert (∃ s', transform W [VDict batch] s = (Exc (NameError "preprocess"), s')
                ∧ hist s' = hist s) as (s' & -> & Hh).
  { unfold transform. rewrite run_invoke by done.
    unfold transform_body, Assign, ListComp, Iter, Idx.
    sx. unfold Str at 1. sx. cbn [getitem]. rewrite Hbatch. sx.
    unfold scoped. sx. unfold Call. sx. unfold G at 1.
    cbn [globals set_locals]. rewrite Hpre.
    replace (bool_decide ("preprocess" ∈ builtins)) with false by (by vm_compute).
    by eexists. }
  split; [done|]. unfold events_from. simpl. rewrite Hh. apply drop_all.
Qed.

Lemma transform_looks_up_preprocess_first_witness :
  (transform (demo_world 2) [VDict [("image", VList [VExt 7])]] fresh_kernel).1
  = Exc (NameError "preprocess")
  ∧ events_from fresh_kernel
      (transform (demo_world 2) [VDict [("image", VList [VExt 7])]] fresh_kernel).2 = [].
Proof.
  apply (transform_looks_up_preprocess_first (demo_world 2) [("image", VList [VExt 7])]
           (VExt 7) [] fresh_kernel); reflexivity.
Defined.

(** ** The files of the epochs *)

(** A numeral as Python prints it: the digit 0, or digits that do not start
    with 0. *)
Definition canonical (t : string) : Prop :=
  t = "0" ∨ ∃ c rest, t = String c rest ∧ c ≠ "0"%char ∧ c ≠ "-"%char.

Lemma pretty_N_go_leading (x : N) (t : string) :
  (0 < x)%N → ∃ c rest, pretty_N_go x t = String c rest ∧ c ≠ "0"%char ∧ c ≠ "-"%char.
Proof.
  revert t. induction (N.lt_wf_0 x) as [x _ IH]; intros t Hx.
  rewrite pretty_N_go_step by done.
  destruct (decide (x < 10)%N) as [Hlt|Hge].
  - rewrite N.div_small by done. rewrite pretty_N_go_0.
    eexists _, _. split; [done|].
    assert (x = 1 ∨ x = 2 ∨ x = 3 ∨ x = 4 ∨ x = 5 ∨ x = 6 ∨ x = 7 ∨ x = 8 ∨ x = 9)%N
      as Hd by lia.
    destruct Hd as [->|[->|[->|[->|[->|[->|[->|[->| ->]]]]]]]]; by compute.
  - apply IH.
    + apply N.div_lt; lia.
    + apply N.div_str_pos. lia.
Qed.

Lemma pretty_canonical (z : Z) : 0 ≤ z → canonical (pretty z).
Proof.
  intros Hz. destruct z as [|p|p]; [by left| |lia].
  right. unfold pretty, pretty_Z, pretty, pretty_positive, pretty, pretty_N.
  rewrite decide_False by done. by apply pretty_N_go_leading.
Qed.

Lemma string_app_inv_head (a b c : string) : a +:+ b = a +:+ c → b = c.
Proof.
  induction a as [|x a IH]; [done|].
  change (String x (a +:+ b) = String x (a +:+ c) → b = c). intros [= H]. by apply IH.
Qed.

Lemma string_length_app (a b : string) :
  String.length (a +:+ b) = (String.length a + String.length b)%nat.
Proof.
  induction a as [|x a IH]; [done|].
  change (S (String.length (a +:+ b)) = S (String.length a + String.length b)).
  by rewrite IH.
Qed.

Lemma string_app_inv_tail (a b c : string) : a +:+ c = b +:+ c → a = b.
Proof.
  revert b. induction a as [|x a IH]; intros [|y b] H.
  - done.
  - apply (f_equal String.length) in H.
    change (String.length c = S (String.length (b +:+ c))) in H.
    rewrite string_length_app in H. lia.
  - apply (f_equal String.length) in H.
    change (S (String.length (a +:+ c)) = String.length c) in H.
    rewrite string_length_app in H. lia.
  - change (String x (a +:+ c) = String y (b +:+ c)) in H.
    injection H as -> H. f_equal. by apply IH.
Qed.

Lemma zeros_length (n : nat) : String.length (zeros n) = n.
Proof. induction n as [|n IH]; [done|]. cbn [zeros]. change (S (String.length (zeros n)) = S n). by rewrite IH. Qed.

Lemma zeros_canonical (k : nat) (a b : string) :
  canonical a → canonical b → zeros (S k) +:+ a = b → False.
Proof.
  intros Ha [->|(c & rest & -> & Hc & _)] H.
  - apply (f_equal String.length) in H. rewrite string_length_app, zeros_length in H.
    destruct Ha as [->|(c & rest & -> & _)]; simpl in H; lia.
  - cbn [zeros] in H. change (String "0" (zeros k +:+ a) = String c rest) in H.
    by injection H as <- _.
Qed.

Lemma zeros_add (m n : nat) : zeros (m + n) = zeros m +:+ zeros n.
Proof.
  induction m as [|m IH]; [done|].
  change (String "0" (zeros (m + n)) = String "0" (zeros m +:+ zeros n)). by rewrite IH.
Qed.

Lemma pad0_inj (w : nat) (a b : string) :
  canonical a → canonical b → pad0 w a = pad0 w b → a = b.
Proof.
  intros Ha Hb. unfold pad0.
  set (k1 := (w - String.length a)%nat). set (k2 := (w - String.length b)%nat).
  destruct (decide (k1 = k2)) as [->|Hne]; [apply string_app_inv_head|].
  intros H. exfalso.
  destruct (decide (k1 < k2)%nat) as [Hlt|Hge].
  - replace k2 with (k1 + S (k2 - k1 - 1))%nat in H by lia.
    rewrite zeros_add, string_append_assoc in H.
    apply string_app_inv_head in H. symmetry in H. by eapply zeros_canonical in H.
  - replace k1 with (k2 + S (k1 - k2 - 1))%nat in H by lia.
    rewrite zeros_add, string_append_assoc in H.
    apply string_app_inv_head in H. by eapply zeros_canonical in H.
Qed.

Lemma pad0_first (w : nat) (a : string) :
  canonical a → ∃ c rest, pad0 w a = String c rest ∧ c ≠ "-"%char.
Proof.
  intros Ha. unfold pad0. destruct (w - String.length a)%nat as [|k].
  - destruct Ha as [->|(c & rest & -> & _ & Hc)]; by eexists _, _.
  - cbn [zeros]. by eexists _, _.
Qed.

Lemma format_04d_inj (z1 z2 : Z) : format_04d z1 = format_04d z2 → z1 = z2.
Proof.
  unfold format_04d.
  destruct (Z.ltb_spec z1 0) as [H1|H1], (Z.ltb_spec z2 0) as [H2|H2]; intros H.
  - change (String "-" (pad0 3 (pretty (- z1))) = String "-" (pad0 3 (pretty (- z2)))) in H.
    injection H as H. apply pad0_inj in H; [|apply pretty_canonical; lia..].
    apply (inj pretty) in H. lia.
  - destruct (pad0_first 4 (pretty z2)) as (c & rest & Hp & Hc);
      [apply pretty_canonical; lia|].
    rewrite Hp in H. change (String "-" (pad0 3 (pretty (- z1))) = String c rest) in H.
    by injection H as <- _.
  - destruct (pad0_first 4 (pretty z1)) as (c & rest & Hp & Hc);
      [apply pretty_canonical; lia|].
    rewrite Hp in H. change (String c rest = String "-" (pad0 3 (pretty (- z2)))) in H.
    by injection H as -> _.
  - apply pad0_inj in H; [|apply pretty_canonical; lia..]. by apply (inj pretty) in H.
Qed.

Lemma grid_file_inj (d : string) (e1 e2 : Z) : grid_file d e1 = grid_file d e2 → e1 = e2.
Proof.
  unfold grid_file. cbn [String.concat].
  intros H. apply string_app_inv_head in H. apply (string_app_inv_head "/") in H.
  change (format_04d e1 +:+ ".png" = format_04d e2 +:+ ".png") in H.
  apply string_app_inv_tail in H. by apply format_04d_inj.
Qed.

(** X14. evaluate saves the grids of different epochs to different files:
    with the same output directory, two calls for two different epochs
    never hand the same path to save, in whatever states they run and
    whatever the libraries answer. *)
Theorem evaluate_keeps_the_grids_apart
    (W : world) (s1 s2 : state) (l1 l2 : nat) (d : string) (e1 e2 : Z)
    (p1 p2 f1 f2 : value) :
  attr_of (heap s1) l1 "output_dir" = Some (VStr d) →
  attr_of (heap s2) l2 "output_dir" = Some (VStr d) →
  globals s1 !! "os" = Some (VLib "os") → globals s2 !! "os" = Some (VLib "os") →
  e1 ≠ e2 →
  ("save", f1) ∈ written (events_from s1 (evaluate W [VInst l1; VInt e1; p1] s1).2) →
  ("save", f2) ∈ written (events_from s2 (evaluate W [VInst l2; VInt e2; p2] s2).2) →
  f1 ≠ f2.
Proof.
  intros Hd1 Hd2 Ho1 Ho2 Hne Hf1 Hf2.
  apply (written_within (evaluate_writes d e1)) in Hf1;
    [|by apply (evaluate_writes_within W s1 l1)].
  apply (written_within (evaluate_writes d e2)) in Hf2;
    [|by apply (evaluate_writes_within W s2 l2)].
  unfold evaluate_writes in Hf1, Hf2.
  apply elem_of_cons in Hf1 as [[=]|Hf1]. apply list_elem_of_singleton in Hf1 as [= ->].
  apply elem_of_cons in Hf2 as [[=]|Hf2]. apply list_elem_of_singleton in Hf2 as [= ->].
  intros [= H%grid_file_inj]. done.
Qed.

Lemma evaluate_keeps_the_grids_apart_witness :
  (3 ≠ 4)
  ∧ VStr "ddpm-butterflies-128/test_images/0003.png"
    ≠ VStr "ddpm-butterflies-128/test_images/0004.png".
Proof.
  split; [lia|].
  apply (evaluate_keeps_the_grids_apart (demo_world 2) demo_state demo_state 0 0
           "ddpm-butterflies-128" 3 4 (VExt 9) (VExt 9)).
  - vm_compute. reflexivity.
  - vm_compute. reflexivity.
  - vm_compute. reflexivity.
  - vm_compute. reflexivity.
  - lia.
  - vm_compute. apply list_elem_of_further, list_elem_of_here.
  - vm_compute. apply list_elem_of_further, list_elem_of_here.
Defined.

(** ** evaluate: the directory before the file *)

Definition succeeded (ev : event) : bool :=
  match ev.2 with
  | Ret _ => true
  | Raise _ => false
  end.

(** [made_before_saved made evs]: in [evs] no save is called before a call
    of makedirs has returned, unless one had already ([made]). *)
Fixpoint made_before_saved (made : bool) (evs : list event) : bool :=
  match evs with
  | [] => true
  | ev :: evs' =>
      if calls ["save"] ev.1 then made && made_before_saved made evs'
      else made_before_saved (made || (calls ["makedirs"] ev.1 && succeeded ev)) evs'
  end.

(** Has a call of makedirs returned in [evs]? *)
Definition made (evs : list event) : bool :=
  existsb (λ ev, calls ["makedirs"] ev.1 && succeeded ev) evs.

Lemma made_before_saved_true (evs : list event) : made_before_saved true evs = true.
Proof. induction evs as [|ev evs IH]; [done|]. simpl. by destruct (calls _ _). Qed.

Lemma made_before_saved_app (b : bool) (xs ys : list event) :
  made_before_saved b xs = true → b || made xs = true →
  made_before_saved b (xs ++ ys) = true.
Proof.
  revert b. induction xs as [|ev xs IH]; intros b Hxs Hmade.
  - simpl in *. rewrite orb_false_r in Hmade. subst b. apply made_before_saved_true.
  - simpl in *. destruct (calls ["save"] ev.1) eqn:Hsave.
    + apply andb_true_iff in Hxs as [-> Hxs]. simpl. apply IH; [done|]. done.
    + apply IH; [done|].
      destruct b; simpl in *; [done|].
      destruct (calls ["makedirs"] ev.1 && succeeded ev); simpl in *; [done|done].
Qed.

Lemma made_before_saved_quiet (b : bool) (evs : list event) :
  Forall (λ ev, calls ["save"] ev.1 = false) evs → made_before_saved b evs = true.
Proof.
  intros H. revert b. induction H as [|ev evs Hev Hevs IH]; intros b; [done|].
  simpl. rewrite Hev. apply IH.
Qed.

Lemma made_before_saved_snoc (evs : list event) (ev : event) :
  Forall (λ ev, calls ["save"] ev.1 = false) evs →
  calls ["makedirs"] ev.1 = true → succeeded ev = true →
  made_before_saved false (evs ++ [ev]) = true ∧ made (evs ++ [ev]) = true.
Proof.
  intros Hevs Hmk Hok. split.
  - apply made_before_saved_quiet. apply Forall_app. split; [done|].
    constructor; [|done]. destruct ev as [[] ?]; try done.
    simpl in *. apply bool_decide_eq_true in Hmk.
    apply list_elem_of_singleton in Hmk as ->. done.
  - unfold made. rewrite existsb_app. simpl. rewrite Hmk, Hok. simpl.
    by rewrite orb_true_r.
Qed.

Definition quiet_frame : frame := mkFrame (λ r, calls ["save"] r = false) [] [] [] [] [].

Section Order.
Variable W : world.
Variable s0 : state.

(** A call of makedirs has returned, and nothing was saved before it. *)
Definition directory_made (s : state) : Prop :=
∃ new, hist s = hist s0 ++ new ∧ made_before_saved false new = true ∧ made new = true.

Lemma directory_made_keeps {A} (m : M A) :
(∀ s1, keeps (inv (touching []) s1) m) → keeps directory_made m.
Proof.
intros Hm s (new & Hh & Ho & Hmade).
specialize (Hm s s (touching_start [] s)).
assert (∀ s', inv (touching []) s s' → directory_made s') as Hend.
{ intros s' ([more [Hh' _]] & _). exists (new ++ more).
  rewrite Hh', Hh, app_assoc. split; [done|]. split.
  - apply made_before_saved_app; [done|by rewrite Hmade].
  - unfold made in *. rewrite existsb_app. by apply orb_true_iff; left. }
destruct (m s) as [[a|e] s']; by apply Hend.
Qed.

Lemma call_method_with_keywords (o : value) (m : string) (f : value) (args : list value)
  (kw : list (string * value)) :
kw ≠ [] → call_method W o m f args kw = ask W (RMethod o m f args kw).
Proof. intros Hkw. by destruct args as [|[] [|[] []]], kw. Qed.

Lemma makedirs_called (o f : value) (args : list value) (kw : list (string * value)) :
hoare (inv quiet_frame s0) (ask W (RMethod o "makedirs" f args kw))
  (λ _, directory_made) (inv quiet_frame s0).
Proof.
intros s Hs. unfold ask.
destruct (W (hist s) (RMethod o "makedirs" f args kw)) as [v|e] eqn:E.
- pose proof (inv_events quiet_frame s0 s Hs) as Hq.
  destruct Hs as ([new [Hh Hn]] & _).
  exists (new ++ [(RMethod o "makedirs" f args kw, Ret v)]).
  split; [simpl; by rewrite Hh, app_assoc|].
  by apply made_before_saved_snoc.
- by apply inv_log.
Qed.

Lemma makedirs_made :
hoare (inv quiet_frame s0)
  (Expr (MCall W (G "os") "makedirs" [L "test_dir"] [("exist_ok", PTrue)]))
  (λ _, directory_made) (inv quiet_frame s0).
Proof.
unfold Expr, MCall.
apply hoare_bind with (Q := λ _, directory_made); [|by intros _ s Hs].
apply hoare_bind with (Q := λ _, inv quiet_frame s0);
  [change (keeps (inv quiet_frame s0) (G "os")); ks|intros ov].
apply hoare_bind with (Q := λ _, inv quiet_frame s0);
  [change (keeps (inv quiet_frame s0) (getattr W ov "makedirs")); ks|intros f].
apply hoare_bind with (Q := λ _, inv quiet_frame s0);
  [change (keeps (inv quiet_frame s0) (mapM id [L "test_dir"])); ksolve|intros avs].
eapply hoare_bind.
{ apply hoare_keywords. repeat (apply List.Forall_cons; [cbn [snd]; unfold_py; ks|]).
  apply List.Forall_nil. }
intros kvs s [Hk Hs]. rewrite call_method_with_keywords by (by destruct kvs).
by apply makedirs_called.
Qed.

Lemma evaluate_body_order :
hoare (inv quiet_frame s0) (evaluate_body W) (λ _, directory_made)
  (λ s, inv quiet_frame s0 s ∨ directory_made s).
Proof.
assert (∀ {A} (m : M A), keeps (inv quiet_frame s0) m →
          hoare (inv quiet_frame s0) m (λ _, inv quiet_frame s0)
            (λ s, inv quiet_frame s0 s ∨ directory_made s)) as Hq.
{ intros A m Hm. eapply hoare_weaken; [exact Hm|auto|auto]. }
unfold evaluate_body.
apply hoare_bind with (Q := λ _, inv quiet_frame s0); [apply Hq; ksolve|intros _].
apply hoare_bind with (Q := λ _, inv quiet_frame s0); [apply Hq; ksolve|intros _].
apply hoare_bind with (Q := λ _, inv quiet_frame s0); [apply Hq; ksolve|intros _].
apply hoare_bind with (Q := λ _, directory_made).
{ eapply hoare_weaken; [apply makedirs_made|auto|auto]. }
intros _. eapply hoare_weaken; [|intros ? s Hs; exact Hs|intros s Hs; right; exact Hs].
apply directory_made_keeps. intros s1. ksolve.
Qed.
End Order.

(** X15. evaluate never saves before the directory is there: in every run,
    whatever the arguments and the replies of the libraries, a call of save
    comes only after a call of os.makedirs has returned; when makedirs
    raises, nothing is saved. *)
Theorem evaluate_makes_the_directory_first (W : world) (args : list value) (s : state) :
  made_before_saved false (events_from s (evaluate W args s).2) = true.
Proof.
  unfold evaluate, invoke. case_bool_decide as Hlen.
  2: { unfold events_from. simpl. by rewrite drop_all. }
  set (s1 := set_locals _ s).
  assert (inv quiet_frame s1 s1) as Hs1
    by (apply inv_start; intros x Hx; by apply elem_of_nil in Hx).
  pose proof (evaluate_body_order W s1 s1 Hs1) as H.
  assert (∀ s', inv quiet_frame s1 s' ∨ directory_made s1 s' →
            made_before_saved false (events_from s s') = true) as Hend.
  { intros s' [Hq|(new & Hh & Ho & _)].
    - apply made_before_saved_quiet. by apply (inv_events quiet_frame s1).
    - unfold events_from. rewrite Hh. subst s1. cbn [hist set_locals].
      by rewrite drop_app_length. }
  destruct (evaluate_body W s1) as [[v|e] s']; simpl; apply Hend; auto.
Qed.

(** ** evaluate: one file, saved last *)

Section Saving.
Variable W : world.
Variable s0 : state.

(** The history since [s0] ends with a call of save that returned, the only
  one, and its argument is a string. *)
Definition grid_saved (s : state) : Prop :=
∃ evs o f name r,
  hist s = hist s0 ++ evs ++ [(RMethod o "save" f [VStr name] [], Ret r) : event]
  ∧ Forall (λ ev, calls ["save"] ev.1 = false) evs.

Lemma Fstr_returns_a_string (parts : list fpart) (s : state) :
match Fstr W parts s with
| (Ok v, _) => ∃ name, v = VStr name
| (Exc _, _) => True
end.
Proof.
unfold Fstr, mbind, M_bind, bind.
destruct (mapM _ parts s) as [[ss|e] s1]; [by eexists|done].
Qed.

Lemma one_argument (e : M value) (s : state) :
mapM id [e] s = match e s with
                | (Ok v, s1) => (Ok [v], s1)
                | (Exc x, s1) => (Exc x, s1)
                end.
Proof. cbn [mapM]. unfold id, mbind, M_bind, bind. by destruct (e s) as [[v|x] s1]. Qed.

Lemma save_called (o f : value) (name : string) :
hoare (inv quiet_frame s0) (ask W (RMethod o "save" f [VStr name] []))
  (λ _, grid_saved) (λ _, True).
Proof.
intros s Hs. unfold ask.
destruct (W (hist s) (RMethod o "save" f [VStr name] [])) as [r|e] eqn:E; [|done].
destruct Hs as ([new [Hh Hn]] & _).
exists new, o, f, name, r. split; [simpl; by rewrite Hh, app_assoc|done].
Qed.

Lemma save_statement (parts : list fpart) :
keeps (inv quiet_frame s0) (Fstr W parts) →
hoare (inv quiet_frame s0) (Expr (MCall W (L "image_grid") "save" [Fstr W parts] []))
  (λ _, grid_saved) (λ _, True).
Proof.
intros Hparts.
assert (∀ {A} (m : M A), keeps (inv quiet_frame s0) m →
          hoare (inv quiet_frame s0) m (λ _, inv quiet_frame s0) (λ _, True)) as Hq.
{ intros A m Hm. eapply hoare_weaken; [exact Hm|auto|auto]. }
unfold Expr, MCall.
apply hoare_bind with (Q := λ _, grid_saved); [|by intros _ s Hs].
apply hoare_bind with (Q := λ _, inv quiet_frame s0); [apply Hq; ks|intros ov].
apply hoare_bind with (Q := λ _, inv quiet_frame s0); [apply Hq; ks|intros f].
apply hoare_bind
  with (Q := λ avs s, (∃ name, avs = [VStr name]) ∧ inv quiet_frame s0 s).
{ intros s Hs. rewrite one_argument.
  pose proof (Fstr_returns_a_string parts s) as Hname. specialize (Hparts s Hs).
  destruct (Fstr W parts s) as [[v|x] s1]; [|done].
  destruct Hname as [name ->]. split; [by exists name|done]. }
intros avs. apply hoare_bind with (Q := λ kvs s, kvs = []
                                          ∧ (∃ name, avs = [VStr name])
                                          ∧ inv quiet_frame s0 s).
{ by intros s [Hname Hs]. }
intros kvs s (-> & [name ->] & Hs). by apply save_called.
Qed.

Lemma evaluate_body_saves :
hoare (inv quiet_frame s0) (evaluate_body W) (λ v s, v = VNone ∧ grid_saved s) (λ _, True).
Proof.
assert (∀ {A} (m : M A), keeps (inv quiet_frame s0) m →
          hoare (inv quiet_frame s0) m (λ _, inv quiet_frame s0) (λ _, True)) as Hq.
{ intros A m Hm. eapply hoare_weaken; [exact Hm|auto|auto]. }
unfold evaluate_body.
apply hoare_bind with (Q := λ _, inv quiet_frame s0); [apply Hq; ksolve|intros _].
apply hoare_bind with (Q := λ _, inv quiet_frame s0); [apply Hq; ksolve|intros _].
apply hoare_bind with (Q := λ _, inv quiet_frame s0); [apply Hq; ksolve|intros _].
apply hoare_bind with (Q := λ _, inv quiet_frame s0); [apply Hq; ksolve|intros _].
apply hoare_bind with (Q := λ _, grid_saved); [|by intros _ s Hs].
apply save_statement. ksolve.
Qed.
End Saving.

(** X16. When evaluate returns, it returns None and the last thing it did
    was the one call of save, with a string for the file name: it saves one
    file per call and nothing follows the save. *)
Theorem evaluate_saves_last (W : world) (args : list value) (s : state) (v : value) :
  (evaluate W args s).1 = Ok v →
  v = VNone
  ∧ ∃ evs o f name r,
      events_from s (evaluate W args s).2
        = evs ++ [(RMethod o "save" f [VStr name] [], Ret r) : event]
      ∧ Forall (λ ev, calls ["save"] ev.1 = false) evs.
Proof.
  unfold evaluate, invoke. case_bool_decide as Hlen; [|done].
  set (s1 := set_locals _ s).
  assert (inv quiet_frame s1 s1) as Hs1
    by (apply inv_start; intros x Hx; by apply elem_of_nil in Hx).
  pose proof (evaluate_body_saves W s1 s1 Hs1) as H.
  destruct (evaluate_body W s1) as [[v'|e] s']; simpl; [|done].
  intros [= <-]. destruct H as [-> (evs & o & f & name & r & Hh & Hevs)].
  split; [done|]. exists evs, o, f, name, r. split; [|done].
  change (events_from s s' = evs ++ [(RMethod o "save" f [VStr name] [], Ret r) : event]).
  unfold events_from. rewrite Hh. subst s1. cbn [hist set_locals].
  by rewrite drop_app_length.
Qed.

Lemma evaluate_saves_last_witness :
  VNone = VNone
  ∧ ∃ evs o f name r,
      events_from demo_state
        (evaluate (demo_world 2) [VInst 0; VInt 3; VExt 9] demo_state).2
        = evs ++ [(RMethod o "save" f [VStr name] [], Ret r) : event]
      ∧ Forall (λ ev, calls ["save"] ev.1 = false) evs.
Proof.
  apply (evaluate_saves_last (demo_world 2) [VInst 0; VInt 3; VExt 9] demo_state VNone).
  vm_compute. reflexivity.
Defined.

(** ** The cell that checks the shapes *)

(** A call that passes the label [x] first and something more after it. *)
Definition labels (x : string) (r : request) : bool :=
  match r with
  | RCall _ (VStr y :: _ :: _) _ => String.eqb y x
  | _ => false
  end.

Definition unlabelled_frame (x : string) : frame :=
  mkFrame (λ r, labels x r = false) [] [] [] [] [].

Section Shapes.
Variable W : world.
Variable s0 : state.
Variable x : string.

Lemma labelled_call_keeps (f : M value) (y : string) (es : list (M value)) :
String.eqb y x = false →
keeps (inv (unlabelled_frame x) s0) f →
keeps (inv (unlabelled_frame x) s0) (mapM id es) →
keeps (inv (unlabelled_frame x) s0) (Call W f (Str y :: es) []).
Proof.
intros Hy Hf Hes. unfold Call.
apply keeps_bind; [done|intros fv].
apply hoare_bind
  with (Q := λ avs s, (∃ rest, avs = VStr y :: rest) ∧ inv (unlabelled_frame x) s0 s).
{ intros s Hs. cbn [mapM]. rewrite run_bind. unfold id at 1, Str. rewrite run_ret.
  rewrite run_bind. specialize (Hes s Hs).
  destruct (mapM id es s) as [[ys|e] s1]; [|done].
  rewrite run_ret. split; [by exists ys|done]. }
intros avs. apply hoare_bind
  with (Q := λ kvs s, (∃ rest, avs = VStr y :: rest) ∧ inv (unlabelled_frame x) s0 s).
{ by intros s Hs. }
intros kvs s [[rest ->] Hs]. revert s Hs.
change (keeps (inv (unlabelled_frame x) s0) (call W fv (VStr y :: rest) kvs)).
apply keeps_call. hnf. destruct rest; [done|exact Hy].
Qed.

Lemma single_call_keeps (f e : M value) (kw : list (string * M value)) :
keeps (inv (unlabelled_frame x) s0) f →
keeps (inv (unlabelled_frame x) s0) e →
Forall (λ p, keeps (inv (unlabelled_frame x) s0) p.2) kw →
keeps (inv (unlabelled_frame x) s0) (Call W f [e] kw).
Proof.
intros Hf He Hkw. unfold Call.
apply keeps_bind; [done|intros fv].
apply hoare_bind
  with (Q := λ avs s, (∃ v, avs = [v]) ∧ inv (unlabelled_frame x) s0 s).
{ intros s Hs. cbn [mapM]. rewrite run_bind. unfold id at 1. specialize (He s Hs).
  destruct (e s) as [[v|err] s1]; [|done].
  rewrite run_bind, !run_ret. split; [by exists v|done]. }
intros avs. apply hoare_bind
  with (Q := λ kvs s, (∃ v, avs = [v]) ∧ inv (unlabelled_frame x) s0 s).
{ intros s [Havs Hs]. pose proof (hoare_keywords (unlabelled_frame x) s0 kw Hkw s Hs) as H.
  destruct (keywords kw s) as [[kvs|err] s1]; [|done]. by destruct H. }
intros kvs s [[v ->] Hs]. revert s Hs.
change (keeps (inv (unlabelled_frame x) s0) (call W fv [v] kvs)).
apply keeps_call. hnf. by destruct v.
Qed.
End Shapes.

(** X17. The cell that checks the shapes closes the call of print right
    after the label Output shape:.  Whatever the state and the libraries,
    no call of the cell is passed anything along with that label: print gets
    the label alone. *)
Theorem nothing_is_passed_with_the_output_label (W : world) (s : state) :
  Forall (λ ev, labels "Output shape:" ev.1 = false)
    (events_from s (cell_check_shapes W s).2).
Proof.
  apply (inv_events (unlabelled_frame "Output shape:")).
  apply keeps_run; [|apply inv_start; intros y Hy; by apply elem_of_nil in Hy].
  unfold cell_check_shapes.
  apply keeps_bind; [ksolve|intros _].
  apply keeps_bind.
  { unfold Expr. apply keeps_bind; [|intros _; apply keeps_ret].
    apply labelled_call_keeps; [done|ks|ksolve]. }
  intros _. unfold Expr. apply keeps_bind; [|intros _; apply keeps_ret].
  unfold Tuple. apply keeps_bind; [|intros vs; apply keeps_ret].
  cbn [mapM]. unfold id.
  apply keeps_bind.
  { apply single_call_keeps; [ks|unfold Str; ks|apply List.Forall_nil]. }
  intros v1. apply keeps_bind; [|intros vs; apply keeps_ret].
  apply keeps_bind; [|intros v2; ks].
  unfold Attr. apply keeps_bind; [|intros v; ks].
  apply keeps_bind; [|intros v; ks].
  apply single_call_keeps; [ks|ks|].
  apply List.Forall_cons; [cbn [snd]; unfold Int; ks|apply List.Forall_nil].
Qed.

(** A kernel in which dataset and model are bound. *)
Definition with_model : state :=
  set_globals (λ g, <["dataset" := VExt 20]> (<["model" := VExt 21]> g)) demo_state.

Definition positional (r : request) : option (list value) :=
  match r with
  | RCall _ args _ => Some args
  | _ => None
  end.

(** With libraries that all succeed the cell makes three calls: print with
    the label and the shape of the input, print with the other label alone,
    and the model. *)
Example check_shapes_prints_the_label_alone :
  let r := cell_check_shapes (demo_world 2) with_model in
  r.1 = Ok tt
  ∧ omap (λ ev, positional ev.1) (hist r.2)
    = [[VStr "Input shape:"; VExt 104]; [VStr "Output shape:"]; [VExt 103]].
Proof. vm_compute. split; reflexivity. Qed.

(** ** train_loop: what the model is called on *)

(** The call that passes return_dict, the call of the model in train_loop,
    has [v] as the first of two arguments. *)
Definition model_input (v : value) (r : request) : Prop :=
  passes ["return_dict"] r = true → ∃ f t kw, r = RCall f [v; t] kw.

Definition model_frame (v : value) : frame :=
  mkFrame (model_input v) [] [] [] [] ["noisy_images"].

Ltac within ::=
  intros;
  first [ reflexivity | exact I | solve [constructor]
        | match goal with
          | H : _.*1 = _ |- _ => hnf; unfold writes; rewrite H; solve [constructor]
          | H : _.*1 = _ |- _ => exact H
          | H : _.*1 = _ |- _ => hnf; unfold passes; rewrite H; reflexivity
          | H : _.*1 = _ |- _ => hnf; unfold passes; rewrite H; intros ?; discriminate
          end
        | hnf; cbn [passes]; intros ?; discriminate ].

Section ModelInput.
Variable W : world.
Variable s0 : state.
Variable v : value.
Hypothesis Hv : globals s0 !! "noisy_images" = Some v.

Local Set Default Proof Using "All".

Lemma model_call_keeps :
keeps (inv (model_frame v) s0)
  (Call W (L "model") [G "noisy_images"; L "timesteps"] [("return_dict", PFalse)]).
Proof.
unfold Call. apply keeps_bind; [ks|intros fv].
apply hoare_bind
  with (Q := λ avs s, (∃ t, avs = [v; t]) ∧ inv (model_frame v) s0 s).
{ intros s Hs. cbn [mapM]. unfold id. rewrite run_bind.
  assert (globals s !! "noisy_images" = Some v) as Hg.
  { destruct Hs as (_ & _ & _ & _ & _ & Hkg). rewrite <- Hv. apply Hkg.
    apply list_elem_of_here. }
  rewrite (run_G _ _ _ Hg). rewrite !run_bind. unfold L at 1.
  destruct (locals s !! "timesteps") as [t|]; [|exact Hs].
  rewrite !run_bind, !run_ret. split; [by exists t|exact Hs]. }
intros avs. apply hoare_bind
  with (Q := λ kvs s, (∃ t, avs = [v; t]) ∧ inv (model_frame v) s0 s).
{ intros s [Havs Hs].
  assert (Forall (λ p : string * M value, keeps (inv (model_frame v) s0) p.2)
            [("return_dict", PFalse)]) as Hkw
    by (apply List.Forall_cons; [cbn [snd]; unfold PFalse; ks|apply List.Forall_nil]).
  pose proof (hoare_keywords (model_frame v) s0 _ Hkw s Hs) as H.
  destruct (keywords _ s) as [[kvs|err] s1]; [|done]. by destruct H. }
intros kvs s [[t ->] Hs]. revert s Hs.
change (keeps (inv (model_frame v) s0) (call W fv [v; t] kvs)).
apply keeps_call. intros _. by exists fv, t, kvs.
Qed.

Lemma accumulate_body_keeps : keeps (inv (model_frame v) s0) (accumulate_body W).
Proof.
unfold accumulate_body. apply keeps_bind; [|intros _; ksolve].
unfold Assign. apply keeps_bind; [|intros x; ks].
unfold Idx. apply keeps_bind; [apply model_call_keeps|intros x; ksolve].
Qed.

Lemma epoch_body_keeps : keeps (inv (model_frame v) s0) (epoch_body W).
Proof.
unfold epoch_body.
do 4 (apply keeps_bind; [ksolve|intros _]).
apply keeps_bind; [|intros _; ksolve].
unfold With. apply keeps_bind; [ksolve|intros c].
apply keeps_bind; [ks|intros _].
apply keeps_guarded; [within|within|apply accumulate_body_keeps].
Qed.

Lemma train_loop_body_keeps : keeps (inv (model_frame v) s0) (train_loop_body W).
Proof.
unfold train_loop_body. apply keeps_bind; [|intros _; unfold train_save; ksolve].
unfold train_epochs. apply keeps_bind; [unfold train_setup; ksolve|intros _].
unfold For. apply keeps_bind; [ksolve|intros vs].
apply keeps_for_each. intros e.
apply keeps_bind; [ks|intros _; apply epoch_body_keeps].
Qed.
End ModelInput.

(** X18. train_loop computes noise_images and never reads it: the model is
    called on the module-level noisy_images.  When that name is bound, to
    [v], every call of the model in every run of train_loop gets [v] as its
    first argument, whatever add_noise returned and whatever the batch. *)
Theorem train_loop_feeds_the_model_the_global (W : world) (args : list value) (s : state)
    (v : value) :
  globals s !! "noisy_images" = Some v →
  Forall (λ ev, model_input v ev.1) (events_from s (train_loop W args s).2).
Proof.
  intros Hv. apply (inv_events (model_frame v)). apply keeps_run.
  - unfold train_loop. apply keeps_invoke; [reflexivity|reflexivity|].
    by apply train_loop_body_keeps.
  - apply inv_start; intros x Hx; by apply elem_of_nil in Hx.
Qed.

(** The demo state with noisy_images bound at module level. *)
Definition with_noisy_images : state :=
  set_globals <["noisy_images" := VExt 30]> demo_state.

Lemma train_loop_feeds_the_model_the_global_witness :
  Forall (λ ev, model_input (VExt 30) ev.1)
    (events_from with_noisy_images (train_loop (demo_world 2) demo_args with_noisy_images).2).
Proof.
  apply (train_loop_feeds_the_model_the_global (demo_world 2) demo_args with_noisy_images
           (VExt 30)).
  apply lookup_insert_eq.
Defined.

(** With libraries that all succeed, fifty epochs run: each calls the
    model once, on the module-level value, and not on what add_noise
    returned. *)
Example the_model_is_called_on_the_global :
  let r := train_loop (demo_world 2) demo_args with_noisy_images in
  r.1 = Ok VNone
  ∧ omap (λ ev, if passes ["return_dict"] ev.1 then head <$> positional ev.1 else None)
      (hist r.2)
    = replicate 50 (Some (VExt 30))
  ∧ head (omap (λ ev, if calls ["add_noise"] ev.1 then Some ev.2 else None) (hist r.2))
    = Some (Ret (VExt 133)).
Proof. vm_compute. repeat split; reflexivity. Qed.

(** ** train_loop: the save at the end *)

(** A call of save_pretrained, or one that passes folder_path, which has
    returned. *)
Definition saving (ev : event) : bool :=
  (calls ["save_pretrained"] ev.1 || passes ["folder_path"] ev.1) && succeeded ev.

Definition settled_frame : frame :=
  mkFrame (λ _, True) [] [] [] ["config"; "accelerator"; "epoch"] ["range"].

(** The value of the loop variable after a loop over [vs], when it was [ep]
    before. *)
Definition last_or (ep : option value) (vs : list value) : option value :=
  match last vs with
  | Some v => Some v
  | None => ep
  end.

Lemma last_or_cons (ep : option value) (v : value) (vs : list value) :
  last_or ep (v :: vs) = last_or (Some v) vs.
Proof. unfold last_or. rewrite last_cons. by destruct (last vs). Qed.

Lemma range_list_last (n : Z) : 1 ≤ n → last (range_list n) = Some (n - 1).
Proof.
  intros Hn. unfold range_list. rewrite fmap_last.
  replace (Z.to_nat n) with (S (Z.to_nat (n - 1))) by lia.
  rewrite seq_S, last_snoc. simpl. f_equal. lia.
Qed.

Lemma range_list_empty (n : Z) : n < 1 → range_list n = [].
Proof. intros Hn. unfold range_list. by replace (Z.to_nat n) with 0%nat by lia. Qed.

Lemma hoare_exists_pre {A B} (P : B → state → Prop) (m : M A) (Q : A → state → Prop)
    (E : state → Prop) :
  (∀ b, hoare (P b) m Q E) → hoare (λ s, ∃ b, P b s) m Q E.
Proof. intros H s [b Hs]. by apply (H b). Qed.

Lemma hoare_pure_pre {A} (φ : Prop) (P : state → Prop) (m : M A) (Q : A → state → Prop)
    (E : state → Prop) :
  (φ → hoare P m Q E) → hoare (λ s, φ ∧ P s) m Q E.
Proof. intros H s [Hφ Hs]. by apply H. Qed.

Section FinalSave.
Variable W : world.
Hypothesis Hmain : main_process W.
Variable h0 : list event.
Variable l : nat.
Variables n k : Z.

Local Set Default Proof Using "All".

(** Where train_loop stands: config is the instance [l] with its numbers of
  epochs, range is the builtin, and the accelerator and the loop variable
  are [acc] and [ep]. *)
Definition settled (acc ep : option value) (s : state) : Prop :=
locals s !! "config" = Some (VInst l)
∧ attr_of (heap s) l "num_epochs" = Some (VInt n)
∧ attr_of (heap s) l "save_model_epochs" = Some (VInt k)
∧ globals s !! "range" = None
∧ locals s !! "accelerator" = acc
∧ locals s !! "epoch" = ep
∧ ∃ new, hist s = h0 ++ new.

Definition model_saved (s : state) : Prop :=
∃ new, hist s = h0 ++ new ∧ existsb saving new = true.

Lemma settled_start (s : state) : inv settled_frame s s.
Proof. apply inv_start; intros x Hx; by apply elem_of_nil in Hx. Qed.

Lemma settled_of_inv (acc ep : option value) (s s' : state) :
settled acc ep s → inv settled_frame s s' → settled acc ep s'.
Proof.
intros (Hc & Hn & Hk & Hr & Ha & He & new & Hh)
       ([more [Hh' _]] & _ & _ & Hattr & Hkl & Hkg).
repeat split.
- rewrite Hkl; [done|]. apply list_elem_of_here.
- rewrite Hattr; [done|]. apply not_elem_of_nil.
- rewrite Hattr; [done|]. apply not_elem_of_nil.
- rewrite Hkg; [done|]. apply list_elem_of_here.
- rewrite Hkl; [done|]. apply list_elem_of_further, list_elem_of_here.
- rewrite Hkl; [done|]. do 2 apply list_elem_of_further. apply list_elem_of_here.
- exists (new ++ more). by rewrite Hh', Hh, app_assoc.
Qed.

Lemma settled_keeps {A} (m : M A) (acc ep : option value) :
(∀ s0, keeps (inv settled_frame s0) m) →
hoare (settled acc ep) m (λ _, settled acc ep) (λ _, True).
Proof.
intros Hm s Hs. specialize (Hm s s (settled_start s)).
destruct (m s) as [[a|e] s']; [by apply (settled_of_inv acc ep s)|done].
Qed.

Lemma settled_log (acc ep : option value) (ev : event) (s : state) :
settled acc ep s → settled acc ep (log ev s).
Proof.
intros (Hc & Hn & Hk & Hr & Ha & He & new & Hh). repeat split; try done.
exists (new ++ [ev]). simpl. by rewrite Hh, app_assoc.
Qed.

Lemma saved_by (acc ep : option value) (r : request) :
(∀ v, saving (r, Ret v) = true) →
hoare (settled acc ep) (ask W r) (λ _, model_saved) (λ _, True).
Proof.
intros Hr s (_ & _ & _ & _ & _ & _ & new & Hh). unfold ask.
destruct (W (hist s) r) as [v|e] eqn:E; [|done].
exists (new ++ [(r, Ret v)]). split; [simpl; by rewrite Hh, app_assoc|].
rewrite existsb_app. simpl. rewrite Hr. by rewrite orb_true_r.
Qed.

Lemma accelerator_made (kw : list (string * M value)) :
(∀ s0, keeps (inv settled_frame s0) (keywords kw)) →
hoare (settled None None) (Assign "accelerator" (Call W (G "Accelerator") [] kw))
  (λ _ s, ∃ a, settled (Some (VExt a)) None s) (λ _, True).
Proof.
intros Hkw. unfold Assign, Call.
apply hoare_bind with (Q := λ v s, is_object v ∧ settled None None s).
- apply hoare_bind with (Q := λ _, settled None None).
  { apply settled_keeps. intros s0. ks. }
  intros fv. cbn [mapM].
  apply hoare_bind with (Q := λ avs s, avs = [] ∧ settled None None s);
    [by intros s Hs|].
  intros avs.
  apply hoare_bind with (Q := λ _ s, avs = [] ∧ settled None None s).
  { intros s [-> Hs]. pose proof (settled_keeps _ None None Hkw s Hs) as H.
    by destruct (keywords kw s) as [[kvs|e] s']. }
  intros kvs s [-> Hs]. unfold call, ask. destruct Hmain as [Hobj _].
  destruct (W (hist s) (RCall fv [] kvs)) as [v|e] eqn:E; [|done].
  split; [by eapply Hobj|by apply settled_log].
- intros v s [[a ->] (Hc & Hn & Hk & Hr & Ha & He & Hh)]. exists a.
  cbn [setL]. repeat split; try done; simpl.
  + by rewrite lookup_insert_ne.
  + by rewrite lookup_insert_eq.
  + by rewrite lookup_insert_ne.
Qed.

Lemma setup_settles :
hoare (settled None None) (train_setup W)
  (λ _ s, ∃ a, settled (Some (VExt a)) None s) (λ _, True).
Proof.
unfold train_setup.
apply hoare_bind with (Q := λ _ s, ∃ a, settled (Some (VExt a)) None s).
{ apply accelerator_made. intros s0. ksolve. }
intros _. apply hoare_exists_pre. intros a.
eapply hoare_weaken; [apply (settled_keeps _ (Some (VExt a)) None)| |auto].
- intros s0. ksolve.
- intros ? s Hs. by exists a.
Qed.

Lemma epochs_listed (acc : option value) :
hoare (settled acc None) (Range W (Attr W (L "config") "num_epochs"))
  (λ vs s, vs = VInt <$> range_list n ∧ settled acc None s) (λ _, True).
Proof.
intros s Hs. pose proof Hs as (Hc & Hn & Hk & Hr & _).
unfold Range. rewrite run_bind. unfold G at 1. rewrite Hr.
replace (bool_decide ("range" ∈ builtins)) with true by (by vm_compute).
rewrite run_bind. unfold Attr. rewrite run_bind.
erewrite run_L by exact Hc. erewrite run_getattr_inst by exact Hn.
replace (is_lib (VLib ("builtins." +:+ "range")) "builtins.range") with true
  by (by vm_compute).
by rewrite run_ret.
Qed.

Lemma epochs_run (acc : option value) (vs : list value) (ep : option value) :
hoare (settled acc ep) (for_each vs (λ v, setL "epoch" v;; epoch_body W))
  (λ _, settled acc (last_or ep vs)) (λ _, True).
Proof.
revert ep. induction vs as [|v vs IH]; intros ep.
- intros s (Hc & Hn & Hk & Hr & Ha & He & Hh). by repeat split.
- cbn [for_each]. rewrite last_or_cons.
  apply hoare_bind with (Q := λ _, settled acc (Some v)); [|intros _; apply IH].
  apply hoare_bind with (Q := λ _, settled acc (Some v)).
  + intros s (Hc & Hn & Hk & Hr & Ha & He & Hh). cbn [setL].
    repeat split; try done; simpl.
    * by rewrite lookup_insert_ne.
    * by rewrite lookup_insert_ne.
    * by rewrite lookup_insert_eq.
  + intros _. apply settled_keeps. intros s0. unfold epoch_body. ksolve.
Qed.

Lemma main_process_read (a : nat) (ep : option value) :
hoare (settled (Some (VExt a)) ep) (Attr W (L "accelerator") "is_main_process")
  (λ c s, c = VBool true ∧ settled (Some (VExt a)) ep s) (λ _, True).
Proof.
intros s Hs. pose proof Hs as (_ & _ & _ & _ & Ha & _). destruct Hmain as [_ Htrue].
unfold Attr. rewrite run_bind. erewrite run_L by exact Ha.
cbn [getattr]. unfold ask.
destruct (W (hist s) (RGetAttr (VExt a) "is_main_process")) as [v|e] eqn:E; [|done].
split; [by eapply Htrue|by apply settled_log].
Qed.

Lemma run_arith_int (op : string) (f : Z → Z → M value) (x y : Z) :
arith W op f (VInt x) (VInt y) = f x y.
Proof. done. Qed.

Lemma save_condition (acc : option value) (s : state) :
settled acc (Some (VInt (n - 1))) s →
let cond :=
  Or W (Eq W (Mod W (Add W (L "epoch") (Int 1)) (Attr W (L "config") "save_model_epochs"))
          (Int 0))
       (Eq W (L "epoch") (Sub W (Attr W (L "config") "num_epochs") (Int 1))) in
cond s = (Ok (VBool true), s) ∨ ∃ e, cond s = (Exc e, s).
Proof.
intros (Hc & Hn & Hk & Hr & Ha & He & Hh). cbv zeta.
unfold Or, Eq, Mod, Add, Sub, Attr, Int, py_add, py_mod, py_eq, py_sub.
repeat (sx; rewrite ?run_arith_int).
destruct (k =? 0); [right; by eexists|].
repeat (sx; rewrite ?run_arith_int). cbn [truthy].
destruct (_ =? 0); [left; by sx|].
repeat (sx; rewrite ?run_arith_int).
rewrite Z.eqb_refl. by left.
Qed.

Lemma keywords_settled (acc ep : option value) (kw : list (string * M value)) :
(∀ s0, Forall (λ p, keeps (inv settled_frame s0) p.2) kw) →
hoare (settled acc ep) (keywords kw)
  (λ kvs s, kvs.*1 = kw.*1 ∧ settled acc ep s) (λ _, True).
Proof.
intros Hkw s Hs.
pose proof (hoare_keywords settled_frame s kw (Hkw s) s (settled_start s)) as H.
destruct (keywords kw s) as [[kvs|e] s']; [|done].
destruct H as [Hk Hi]. split; [done|by apply (settled_of_inv acc ep s)].
Qed.

Lemma hub_or_disk (acc ep : option value) :
hoare (settled acc ep)
  (If_ W (Attr W (L "config") "push_to_hub")
     (Expr (Call W (G "upload_folder") []
              [("repo_id", L "repo_id");
               ("folder_path", Attr W (L "config") "output_dir");
               ("commit_message", Fstr W [FLit "Epoch "; FSub (L "epoch") ""]);
               ("ignore_patterns", PList [Str "step_*"; Str "epoch_*"])]))
     (Expr (MCall W (L "pipeline") "save_pretrained"
              [Attr W (L "config") "output_dir"] [])))
  (λ _, model_saved) (λ _, True).
Proof.
unfold If_.
apply hoare_bind with (Q := λ _, settled acc ep);
  [apply settled_keeps; intros s0; ksolve|intros c].
apply hoare_bind with (Q := λ _, settled acc ep);
  [apply settled_keeps; intros s0; ksolve|intros [|]].
- unfold Expr, Call.
  apply hoare_bind with (Q := λ _, model_saved); [|by intros _ s Hs].
  apply hoare_bind with (Q := λ _, settled acc ep);
    [apply settled_keeps; intros s0; ks|intros f].
  cbn [mapM].
  apply hoare_bind with (Q := λ avs s, avs = [] ∧ settled acc ep s);
    [by intros s Hs|intros avs].
  apply hoare_pure_pre. intros ->.
  eapply hoare_bind.
  { apply keywords_settled. intros s0.
    repeat (apply List.Forall_cons; [cbn [snd]; ksolve|]). apply List.Forall_nil. }
  intros kvs. apply hoare_pure_pre. intros Hk.
  apply saved_by. intros v. unfold saving, passes. cbn [fst]. by rewrite Hk.
- unfold Expr, MCall.
  apply hoare_bind with (Q := λ _, model_saved); [|by intros _ s Hs].
  apply hoare_bind with (Q := λ _, settled acc ep);
    [apply settled_keeps; intros s0; ks|intros o].
  apply hoare_bind with (Q := λ _, settled acc ep);
    [apply settled_keeps; intros s0; ks|intros f].
  apply hoare_bind with (Q := λ avs s, (∃ v, avs = [v]) ∧ settled acc ep s).
  { intros s Hs. rewrite one_argument.
    pose proof (settled_keeps (Attr W (L "config") "output_dir") acc ep
                  ltac:(intros s0; ksolve) s Hs) as H.
    destruct (Attr W (L "config") "output_dir" s) as [[v|e] s']; [|done].
    split; [by exists v|done]. }
  intros avs. apply hoare_pure_pre. intros [v ->]. cbn [keywords mapM].
  apply hoare_bind with (Q := λ kvs s, kvs = [] ∧ settled acc ep s);
    [by intros s Hs|intros kvs].
  apply hoare_pure_pre. intros ->. rewrite run_call_method_one.
  apply saved_by. by intros r.
Qed.

Lemma train_save_saves (a : nat) :
hoare (settled (Some (VExt a)) (Some (VInt (n - 1)))) (train_save W)
  (λ _, model_saved) (λ _, True).
Proof.
unfold train_save. unfold If_ at 1.
eapply hoare_bind; [apply main_process_read|intros c].
apply hoare_pure_pre. intros ->. cbn [truthy].
apply hoare_bind with (Q := λ t s, t = true ∧ settled (Some (VExt a)) (Some (VInt (n - 1))) s);
  [by intros s Hs|intros t].
apply hoare_pure_pre. intros ->.
apply hoare_bind with (Q := λ _, settled (Some (VExt a)) (Some (VInt (n - 1))));
  [apply settled_keeps; intros s0; ksolve|intros _].
unfold If_ at 1.
apply hoare_bind
  with (Q := λ c s, c = VBool true ∧ settled (Some (VExt a)) (Some (VInt (n - 1))) s).
{ intros s Hs. destruct (save_condition _ s Hs) as [H|[e H]]; cbv zeta in H; by rewrite H. }
intros c. apply hoare_pure_pre. intros ->. cbn [truthy].
apply hoare_bind with (Q := λ t s, t = true ∧ settled (Some (VExt a)) (Some (VInt (n - 1))) s);
  [by intros s Hs|intros t].
apply hoare_pure_pre. intros ->. apply hub_or_disk.
Qed.

Lemma train_save_without_epoch (a : nat) :
hoare (settled (Some (VExt a)) None) (train_save W) (λ _, model_saved) (λ _, True).
Proof.
unfold train_save. unfold If_ at 1.
eapply hoare_bind; [apply main_process_read|intros c].
apply hoare_pure_pre. intros ->. cbn [truthy].
apply hoare_bind with (Q := λ t s, t = true ∧ settled (Some (VExt a)) None s);
  [by intros s Hs|intros t].
apply hoare_pure_pre. intros ->.
apply raising. intros s (_ & _ & _ & _ & _ & He & _).
eapply (fails_run (inv (mkFrame (λ _, True) ["epoch"] [] [] [] []) s)).
- unfold_py. fsolve.
- apply inv_start; [|intros x Hx; by apply elem_of_nil in Hx].
  by intros x ->%list_elem_of_singleton.
Qed.

Lemma final_save :
hoare (settled None None) (train_loop_body W) (λ _, model_saved) (λ _, True).
Proof.
unfold train_loop_body, train_epochs.
apply hoare_bind
  with (Q := λ _ s, ∃ a, settled (Some (VExt a)) (last_or None (VInt <$> range_list n)) s).
- eapply hoare_bind; [apply setup_settles|intros u; cbv beta; clear u].
  apply hoare_exists_pre. intros a. unfold For.
  eapply hoare_bind; [apply epochs_listed|intros vs].
  apply hoare_pure_pre. intros ->.
  eapply hoare_weaken; [apply epochs_run| |auto].
  intros ? s Hs. by exists a.
- intros _. apply hoare_exists_pre. intros a.
  apply hoare_bind with (Q := λ _, model_saved); [|by intros _ s Hs].
  destruct (decide (1 ≤ n)) as [Hn|Hn].
  + unfold last_or. rewrite fmap_last, range_list_last by done. apply train_save_saves.
  + rewrite range_list_empty by lia. apply train_save_without_epoch.
Qed.
End FinalSave.

(** X19. On the main process, with an integer number of epochs and an
    integer save_model_epochs in the configuration and range the builtin, a
    call of train_loop that returns has saved the model: after the loop
    epoch is the last epoch, so the test of the save block holds whatever
    save_model_epochs is, and save_pretrained, or upload_folder when
    push_to_hub is set, has been called and has returned. *)
Theorem train_loop_saves_at_the_end
    (W : world) (s : state) (l : nat) (n k : Z) (m ns o dl lr v : value) :
  main_process W →
  attr_of (heap s) l "num_epochs" = Some (VInt n) →
  attr_of (heap s) l "save_model_epochs" = Some (VInt k) →
  globals s !! "range" = None →
  (train_loop W [VInst l; m; ns; o; dl; lr] s).1 = Ok v →
  existsb saving (events_from s (train_loop W [VInst l; m; ns; o; dl; lr] s).2) = true.
Proof.
  intros Hmain Hn Hk Hr. unfold train_loop. rewrite run_invoke by done.
  set (s1 := set_locals _ s).
  assert (settled (hist s) l n k None None s1) as Hs1.
  { refine (conj _ (conj Hn (conj Hk (conj Hr (conj _ (conj _ _)))))).
    - apply lookup_insert_eq.
    - apply frame_lookup_None. by apply (bool_decide_eq_false_1 ("accelerator" ∈ _)).
    - apply frame_lookup_None. by apply (bool_decide_eq_false_1 ("epoch" ∈ _)).
    - exists []. by rewrite app_nil_r. }
  pose proof (final_save W Hmain (hist s) l n k s1 Hs1) as H.
  destruct (train_loop_body W s1) as [[v'|e] s']; simpl; [|done].
  intros _. destruct H as (new & Hh & Hsaved).
  change (existsb saving (events_from s s') = true).
  unfold events_from. by rewrite Hh, drop_app_length.
Qed.

Lemma train_loop_saves_at_the_end_witness :
  existsb saving
    (events_from with_noisy_images
       (train_loop (demo_world 2) demo_args with_noisy_images).2) = true.
Proof.
  apply (train_loop_saves_at_the_end (demo_world 2) with_noisy_images 0 50 30
           (VExt 1) (VExt 2) (VExt 3) (VExt 4) (VExt 5) VNone).
  - apply demo_world_main_process.
  - reflexivity.
  - reflexivity.
  - reflexivity.
  - vm_compute. reflexivity.
Defined.
